(** * Eumenes: the track-matching core

    A shallow embedding of the distance engine of [anabasis.py]
    ([ro_distance], [aceh_distance], [get_tracks_distance],
    [get_best_match], [selectSong]) and of the per-row decision of
    [eumenes.py] ([distance], [add_tracks_from_CSV]).

    Conventions.
    - Python [str] values are [list ascii]/[string]; the names of tracks
      are read as ASCII text.  A reply typed at the chooser is held by
      the bytes of its UTF-8 encoding and decoded where the code looks
      at its characters ([isdigit], [int]).
    - Python [float] values are real numbers ([R]); [math.log] is [ln],
      [math.sqrt] is [sqrt], [math.fsum] is the plain sum.
    - Exceptions are values of [exn] carried by the [result] type.
    - [difflib.SequenceMatcher] (Python standard library) is embedded in
      [Module Difflib]; [arrow.get] (third-party date parser) is a
      parameter of the development. *)

From Stdlib Require Import Ascii String.
From Stdlib Require Import List Arith ZArith Lia Bool.
From Stdlib Require Import Reals Lra Permutation Sorted.
From Stdlib Require Import DecimalString DecimalZ.
Import ListNotations.

(** ** difflib.SequenceMatcher *)

Module Difflib.
Section SequenceMatcher.

Context {A : Type}.
Variable eqb : A -> A -> bool.

(** [SequenceMatcher(isjunk, a, b, autojunk)] *)
Variable isjunk : A -> bool.
Variable autojunk : bool.
Variables a b : list A.

(** A [Match(i, j, size)] triple. *)
Definition block : Type := (nat * nat * nat)%type.

Definition size_of (m : block) : nat := snd m.

(** The positions of [x] in [l], ascending, counted from [n]:
    what [__chain_b] appends to [b2j[x]] while it enumerates [b]. *)
Fixpoint indices (x : A) (n : nat) (l : list A) : list nat :=
  match l with
  | [] => []
  | y :: l' => if eqb x y then n :: indices x (S n) l'
               else indices x (S n) l'
  end.

(** [bpopular]: with [autojunk] and [len(b) >= 200], the elements
    that occur more than [len(b) // 100 + 1] times. *)
Definition popular (x : A) : bool :=
  autojunk && (200 <=? length b)
  && (length b / 100 + 1 <? length (indices x 0 b)).

(** [b2j.get(x, [])] once junk and popular keys are purged. *)
Definition b2j (x : A) : list nat :=
  if isjunk x || popular x then [] else indices x 0 b.

(** [bjunk.__contains__]: the junk elements that occur in [b]. *)
Definition isbjunk (x : A) : bool := isjunk x && existsb (eqb x) b.

(** [j2len.get(j, 0)] on a dict kept as an association list. *)
Definition j2len_get (d : list (nat * nat)) (j : nat) : nat :=
  match find (fun p => fst p =? j) d with
  | Some p => snd p
  | None => 0
  end.

(** Inner loop of [find_longest_match]:
    [for j in b2j.get(a[i], nothing)]. *)
Fixpoint scan_row (i blo bhi : nat) (j2len : list (nat * nat))
    (js : list nat) (newj2len : list (nat * nat)) (best : block)
    : list (nat * nat) * block :=
  match js with
  | [] => (newj2len, best)
  | j :: js' =>
    if j <? blo then scan_row i blo bhi j2len js' newj2len best
    else if bhi <=? j then (newj2len, best)
    else
      let k := S (match j with
                  | O => 0          (* j2len.get(-1, 0) *)
                  | S j' => j2len_get j2len j'
                  end) in
      let best' := if size_of best <? k
                   then (i + 1 - k, j + 1 - k, k) else best in
      scan_row i blo bhi j2len js' ((j, k) :: newj2len) best'
  end.

(** Outer loop: [for i in range(alo, ahi)]. *)
Fixpoint scan_rows (rows : list nat) (blo bhi : nat)
    (j2len : list (nat * nat)) (best : block) : block :=
  match rows with
  | [] => best
  | i :: rows' =>
    let js := match nth_error a i with
              | Some x => b2j x
              | None => []
              end in
    let '(newj2len, best') := scan_row i blo bhi j2len js [] best in
    scan_rows rows' blo bhi newj2len best'
  end.

(** The test shared by the four extension loops at positions
    [i] of [a] and [j] of [b]: [isbjunk(b[j])] has the wanted value
    and [a[i] == b[j]]. *)
Definition step_ok (junk : bool) (i j : nat) : bool :=
  match nth_error a i, nth_error b j with
  | Some x, Some y => Bool.eqb (isbjunk y) junk && eqb x y
  | _, _ => false
  end.

(** [while besti > alo and bestj > blo and ... : besti-1, bestj-1, bestsize+1] *)
Fixpoint extend_left (junk : bool) (alo blo : nat)
    (besti bestj bestsize : nat) {struct besti} : block :=
  match besti, bestj with
  | S i', S j' =>
    if (alo <? besti) && (blo <? bestj) && step_ok junk i' j'
    then extend_left junk alo blo i' j' (S bestsize)
    else (besti, bestj, bestsize)
  | _, _ => (besti, bestj, bestsize)
  end.

(** [while besti+bestsize < ahi and bestj+bestsize < bhi and ... : bestsize += 1];
    [n] is [ahi - (besti + bestsize)], the number of turns left to the loop
    by its first test. *)
Fixpoint extend_right (junk : bool) (ahi bhi : nat) (n : nat)
    (besti bestj bestsize : nat) : nat :=
  match n with
  | O => bestsize
  | S n' =>
    if (besti + bestsize <? ahi) && (bestj + bestsize <? bhi)
       && step_ok junk (besti + bestsize) (bestj + bestsize)
    then extend_right junk ahi bhi n' besti bestj (S bestsize)
    else bestsize
  end.

Definition find_longest_match (alo ahi blo bhi : nat) : block :=
  let '(besti, bestj, bestsize) :=
    scan_rows (seq alo (ahi - alo)) blo bhi [] (alo, blo, 0) in
  let '(besti, bestj, bestsize) :=
    extend_left false alo blo besti bestj bestsize in
  let bestsize :=
    extend_right false ahi bhi (ahi - (besti + bestsize))
                 besti bestj bestsize in
  let '(besti, bestj, bestsize) :=
    extend_left true alo blo besti bestj bestsize in
  let bestsize :=
    extend_right true ahi bhi (ahi - (besti + bestsize))
                 besti bestj bestsize in
  (besti, bestj, bestsize).

(** The work list of [get_matching_blocks], unfolded as a recursion on
    the window; the blocks come out left to right, the order in which
    [matching_blocks.sort()] leaves them.  [fuel] bounds the depth:
    a window of [ahi - alo] elements needs no more than that. *)
Fixpoint blocks (fuel alo ahi blo bhi : nat) : list block :=
  match fuel with
  | O => []
  | S fuel' =>
    let '(i, j, k) := find_longest_match alo ahi blo bhi in
    if k =? 0 then []
    else
      (if (alo <? i) && (blo <? j)
       then blocks fuel' alo i blo j else [])
      ++ (i, j, k)
      :: (if (i + k <? ahi) && (j + k <? bhi)
          then blocks fuel' (i + k) ahi (j + k) bhi else [])
  end.

(** Collapsing of adjacent blocks; [cur] is [(i1, j1, k1)]. *)
Fixpoint collapse (cur : block) (l : list block) : list block :=
  let '(i1, j1, k1) := cur in
  match l with
  | [] => if k1 =? 0 then [] else [cur]
  | (i2, j2, k2) :: l' =>
    if (i1 + k1 =? i2) && (j1 + k1 =? j2)
    then collapse (i1, j1, k1 + k2) l'
    else (if k1 =? 0 then [] else [cur]) ++ collapse (i2, j2, k2) l'
  end.

Definition get_matching_blocks : list block :=
  collapse (0, 0, 0)
           (blocks (length a) 0 (length a) 0 (length b))
  ++ [(length a, length b, 0)].

(** [sum(triple[-1] for triple in self.get_matching_blocks())] *)
Definition matches : nat :=
  fold_right (fun m acc => size_of m + acc) 0 get_matching_blocks.

(** [_calculate_ratio(matches, length)] *)
Definition calculate_ratio (m length : nat) : R :=
  if length =? 0 then 1%R else (2 * INR m / INR length)%R.

Definition ratio : R := calculate_ratio matches (length a + length b).

End SequenceMatcher.
End Difflib.

(** ** Python values: exceptions, strings *)

Inductive exn : Type :=
| ParserError   (* arrow.parser.ParserError *)
| ValueError
| IndexError
| EOFError.

Inductive result (A : Type) : Type :=
| Ok (x : A)
| Raise (e : exn).

Arguments Ok {A} x.
Arguments Raise {A} e.

Definition bind {A B : Type} (m : result A) (f : A -> result B) : result B :=
  match m with
  | Ok x => f x
  | Raise e => Raise e
  end.

Notation "x <- m ;; k" := (bind m (fun x => k))
  (at level 61, m at next level, right associativity).
Notation "' p <- m ;; k" := (bind m (fun p => k))
  (at level 61, p pattern, m at next level, right associativity).

Definition chars (s : string) : list ascii := list_ascii_of_string s.

(** [str.upper] and [str.lower], on ASCII letters.  The comparisons of
    [ans.lower()] with [s], [n] and [p] come out the same for any text:
    no other character has one of these letters as its lowercase. *)
Definition upper_char (c : ascii) : ascii :=
  let n := nat_of_ascii c in
  if (97 <=? n) && (n <=? 122) then ascii_of_nat (n - 32) else c.

Definition lower_char (c : ascii) : ascii :=
  let n := nat_of_ascii c in
  if (65 <=? n) && (n <=? 90) then ascii_of_nat (n + 32) else c.

Fixpoint upper (s : string) : string :=
  match s with
  | EmptyString => EmptyString
  | String c s' => String (upper_char c) (upper s')
  end.

Fixpoint lower (s : string) : string :=
  match s with
  | EmptyString => EmptyString
  | String c s' => String (lower_char c) (lower s')
  end.

Definition is_digit (c : ascii) : bool :=
  let n := nat_of_ascii c in (48 <=? n) && (n <=? 57).

(** The characters of a text and their digit values.  A [string] holds
    a [str] by its UTF-8 encoding; the tables are those of Unicode
    14.0.0, which [str.isdigit] and [int] consult. *)
Module Unicode.

Definition continuation (b : N) : bool := ((0x80 <=? b) && (b <=? 0xBF))%N.

(** A byte that is part of no well-formed sequence. *)
Definition escape (b : N) : N := (0xDC00 + b)%N.

(** The code points of UTF-8 text.  A byte that belongs to no
    well-formed sequence is kept as a lone surrogate, the way the
    [surrogateescape] handler keeps it; it is no digit. *)
Fixpoint decode (bs : list N) : list N :=
  match bs with
  | [] => []
  | b0 :: t0 =>
    (if b0 <? 0x80 then b0 :: decode t0
     else if (0xC2 <=? b0) && (b0 <=? 0xDF) then
       match t0 with
       | b1 :: t1 =>
         if continuation b1
         then ((b0 - 0xC0) * 64 + (b1 - 0x80)) :: decode t1
         else escape b0 :: decode t0
       | [] => escape b0 :: decode t0
       end
     else if (0xE0 <=? b0) && (b0 <=? 0xEF) then
       match t0 with
       | b1 :: b2 :: t2 =>
         let cp := (b0 - 0xE0) * 4096 + (b1 - 0x80) * 64 + (b2 - 0x80) in
         if continuation b1 && continuation b2 && (0x800 <=? cp)
            && negb ((0xD800 <=? cp) && (cp <=? 0xDFFF))
         then cp :: decode t2
         else escape b0 :: decode t0
       | _ => escape b0 :: decode t0
       end
     else if (0xF0 <=? b0) && (b0 <=? 0xF4) then
       match t0 with
       | b1 :: b2 :: b3 :: t3 =>
         let cp := (b0 - 0xF0) * 262144 + (b1 - 0x80) * 4096
                   + (b2 - 0x80) * 64 + (b3 - 0x80) in
         if continuation b1 && continuation b2 && continuation b3
            && (0x10000 <=? cp) && (cp <=? 0x10FFFF)
         then cp :: decode t3
         else escape b0 :: decode t0
       | _ => escape b0 :: decode t0
       end
     else escape b0 :: decode t0)%N
  end.

(** The zero of each run of decimal digits (category Nd); the digits 1
    to 9 of the run follow it. *)
Definition decimal_zeros : list N :=
  [
    0x30; 0x660; 0x6F0; 0x7C0; 0x966; 0x9E6; 0xA66; 0xAE6;
    0xB66; 0xBE6; 0xC66; 0xCE6; 0xD66; 0xDE6; 0xE50; 0xED0;
    0xF20; 0x1040; 0x1090; 0x17E0; 0x1810; 0x1946; 0x19D0; 0x1A80;
    0x1A90; 0x1B50; 0x1BB0; 0x1C40; 0x1C50; 0xA620; 0xA8D0; 0xA900;
    0xA9D0; 0xA9F0; 0xAA50; 0xABF0; 0xFF10; 0x104A0; 0x10D30; 0x11066;
    0x110F0; 0x11136; 0x111D0; 0x112F0; 0x11450; 0x114D0; 0x11650; 0x116C0;
    0x11730; 0x118E0; 0x11950; 0x11C50; 0x11D50; 0x11DA0; 0x16A60; 0x16AC0;
    0x16B50; 0x1D7CE; 0x1D7D8; 0x1D7E2; 0x1D7EC; 0x1D7F6; 0x1E140; 0x1E2F0;
    0x1E950; 0x1FBF0
  ]%N.

(** [Py_UNICODE_TODECIMAL]: the value of a decimal digit. *)
Definition decimal (cp : N) : option N :=
  match find (fun z => (z <=? cp) && (cp <? z + 10))%N decimal_zeros with
  | Some z => Some (cp - z)%N
  | None => None
  end.

(** The other characters with a digit value: superscripts, subscripts,
    circled and parenthesized digits and the like, as ranges. *)
Definition other_digits : list (N * N) :=
  [
    (0xB2, 0xB3); (0xB9, 0xB9); (0x1369, 0x1371); (0x19DA, 0x19DA);
    (0x2070, 0x2070); (0x2074, 0x2079); (0x2080, 0x2089); (0x2460, 0x2468);
    (0x2474, 0x247C); (0x2488, 0x2490); (0x24EA, 0x24EA); (0x24F5, 0x24FD);
    (0x24FF, 0x24FF); (0x2776, 0x277E); (0x2780, 0x2788); (0x278A, 0x2792);
    (0x10A40, 0x10A43); (0x10E60, 0x10E68); (0x11052, 0x1105A); (0x1F100, 0x1F10A)
  ]%N.

(** [Py_UNICODE_ISDIGIT] *)
Definition digit (cp : N) : bool :=
  match decimal cp with
  | Some _ => true
  | None => existsb (fun r => (fst r <=? cp) && (cp <=? snd r))%N
                    other_digits
  end.

End Unicode.

Definition code_points (s : string) : list N :=
  Unicode.decode (map N_of_ascii (chars s)).

(** [str.isdigit]: at least one character, all of them digits. *)
Definition isdigit (s : string) : bool :=
  match code_points s with
  | [] => false
  | cps => forallb Unicode.digit cps
  end.

(** [sys.get_int_max_str_digits()], as CPython sets it. *)
Definition int_max_str_digits : nat := 4300.

Fixpoint decimal_value (cps : list N) (acc : N) : option N :=
  match cps with
  | [] => Some acc
  | cp :: cps' =>
    match Unicode.decimal cp with
    | Some d => decimal_value cps' (10 * acc + d)%N
    | None => None
    end
  end.

(** [int(s)] for a string that [isdigit] accepts, as [selectSong] calls
    it (such a string holds no sign, space or underscore for [int] to
    read): [ValueError] when a digit is no decimal digit, and when the
    digits are more than the limit. *)
Definition int (s : string) : result nat :=
  let cps := code_points s in
  match cps with
  | [] => Raise ValueError
  | _ =>
    if int_max_str_digits <? length cps then Raise ValueError
    else
      match decimal_value cps 0 with
      | Some n => Ok (N.to_nat n)
      | None => Raise ValueError
      end
  end.

(** ** anabasis.py: the distance engine *)

(** [lambda x: x in ".()"] *)
Definition junk (x : ascii) : bool :=
  existsb (Ascii.eqb x) (chars ".()").

(** [ro_distance]: one minus the Ratcliff-Obershelp ratio [ro_ratio] of
    the uppercased strings ([autojunk] keeps its default, [True]). *)
Definition ro_ratio (a b : string) : R :=
  Difflib.ratio Ascii.eqb junk true (chars (upper a)) (chars (upper b)).

Definition ro_distance (a b : string) : R := (1 - ro_ratio a b)%R.

(** [timedelta.days] of a difference given in microseconds: the floor
    of its quotient by one day. *)
Definition timedelta_days (us : Z) : Z := (us / 86400000000)%Z.

(** The arithmetic of [aceh_distance] on [(ad - bd).days]. *)
Definition aceh_of_days (days : Z) : R :=
  let delta := (Rabs (IZR days) / 365)%R in
  (ln (1 + delta) / (1 + ln (1 + delta)))%R.

Record AMTrack : Type := mkAMTrack {
  trackId : Z;
  trackName : string;
  artistName : string;
  collectionName : string;
  collectionCensoredName : string;
  releaseDate : string
}.

Record Song : Type := mkSong {
  title : string;
  artist : string;
  album : string;
  release_date : string
}.

(** [sorted(l, key=f)]: the keys are computed once, in list order (the
    first failing key raises); the sort compares keys with [<] only and
    is stable. *)
Fixpoint decorate {A : Type} (f : A -> result R) (l : list A)
    : result (list (R * A)) :=
  match l with
  | [] => Ok []
  | x :: l' =>
    k <- f x ;;
    kl <- decorate f l' ;;
    Ok ((k, x) :: kl)
  end.

Definition Rltb (x y : R) : bool := if Rlt_dec x y then true else false.

Fixpoint insert_keyed {A : Type} (x : R * A) (l : list (R * A))
    : list (R * A) :=
  match l with
  | [] => [x]
  | y :: l' =>
    if Rltb (fst y) (fst x) then y :: insert_keyed x l' else x :: y :: l'
  end.

Definition sort_keyed {A : Type} (l : list (R * A)) : list (R * A) :=
  fold_right insert_keyed [] l.

Definition sorted {A : Type} (f : A -> result R) (l : list A)
    : result (list A) :=
  kl <- decorate f l ;;
  Ok (map snd (sort_keyed kl)).

(** The outcome of one playlist row: a track to add, or none. *)
Inductive Decision : Type :=
| Selected (c : AMTrack)
| Skipped.

Definition pageSize : nat := 10.

(** What the row loop makes of the chooser's answer: [None] is a skip
    ([continue]), a candidate is [selected]. *)
Definition defer (r : result (option AMTrack * list string))
    : result (Decision * list string) :=
  '(selected, rest) <- r ;;
  match selected with
  | None => Ok (Skipped, rest)
  | Some s => Ok (Selected s, rest)
  end.

Section Core.

(** [arrow.get]: a date string to an instant, in microseconds since the
    epoch, or the exception the parser raises. *)
Variable arrow_get : string -> result Z.

Definition aceh_distance (a b : string) : result R :=
  ad <- arrow_get a ;;
  bd <- arrow_get b ;;
  Ok (aceh_of_days (timedelta_days (ad - bd))).

Definition get_tracks_distance
    (a_track a_artist a_album a_year
     b_track b_artist b_album b_year : string) : result R :=
  let d_track := (ro_distance a_track b_track ^ 2)%R in
  let d_artist := (ro_distance a_artist b_artist ^ 2)%R in
  let d_album := (ro_distance a_album b_album ^ 2)%R in
  d_years' <- aceh_distance a_year b_year ;;
  let d_years := (d_years' ^ 2)%R in
  Ok (sqrt (d_track + d_artist + d_album + d_years) / 2)%R.

(** [get_best_match]: the loop over [tracks], with [nearest] and
    [best_match] as accumulators. *)
Fixpoint best_match_loop (a_track a_artist a_album a_year : string)
    (tracks : list AMTrack) (nearest : R) (best_match : option AMTrack)
    : result (R * option AMTrack) :=
  match tracks with
  | [] => Ok (nearest, best_match)
  | tr :: tracks' =>
    distance <- get_tracks_distance a_track a_artist a_album a_year
                  (trackName tr) (artistName tr) (collectionName tr)
                  (releaseDate tr) ;;
    if Rltb distance nearest
    then best_match_loop a_track a_artist a_album a_year tracks'
           distance (Some tr)
    else best_match_loop a_track a_artist a_album a_year tracks'
           nearest best_match
  end.

Definition get_best_match (a_track a_artist a_album a_year : string)
    (tracks : list AMTrack) : result (R * option AMTrack) :=
  best_match_loop a_track a_artist a_album a_year tracks 1%R None.

(** [displayCandidates]: the rows it prints under the header, as
    (number, distance, candidate), row [i] being numbered
    [i + pageStart]; the distance of a row may raise.  [nSongs] only
    shows in the header. *)
Fixpoint displayCandidates (candidates : list AMTrack) (song : Song)
    (pageStart nSongs : nat) : result (list (nat * R * AMTrack)) :=
  match candidates with
  | [] => Ok []
  | s :: candidates' =>
    d <- get_tracks_distance (trackName s) (artistName s)
           (collectionCensoredName s) (releaseDate s)
           (title song) (artist song) (album song) (release_date song) ;;
    rows <- displayCandidates candidates' song (S pageStart) nSongs ;;
    Ok ((pageStart, d, s) :: rows)
  end.

(** [songs[n]] *)
Definition item (songs : list AMTrack) (n : nat) : result AMTrack :=
  match nth_error songs n with
  | Some s => Ok s
  | None => Raise IndexError
  end.

(** [selectSong]: the [while True] loop from page [page]; each turn
    displays a page and reads one line of [stdin] ([input] raises
    [EOFError] when there is none).  Returns the chosen candidate
    ([None] for a skip) and the lines left unread. *)
Fixpoint selectSong_loop (songs : list AMTrack) (desiredSong : Song)
    (page : nat) (stdin : list string)
    : result (option AMTrack * list string) :=
  let nSongs := length songs in
  let start := page * pageSize in
  _ <- displayCandidates (firstn pageSize (skipn start songs))
         desiredSong start nSongs ;;
  match stdin with
  | [] => Raise EOFError
  | ans :: rest =>
    if String.eqb (lower ans) "s" then Ok (None, rest)
    else if String.eqb (lower ans) "n" then
      if nSongs / pageSize <? page + 1
      then selectSong_loop songs desiredSong page rest
      else selectSong_loop songs desiredSong (page + 1) rest
    else if String.eqb (lower ans) "p" then
      if page =? 0
      then selectSong_loop songs desiredSong page rest
      else selectSong_loop songs desiredSong (page - 1) rest
    else if isdigit ans then
      n <- int ans ;; s <- item songs n ;; Ok (Some s, rest)
    else
      s <- item songs 0 ;; Ok (Some s, rest)
  end.

Definition selectSong (songs : list AMTrack) (desiredSong : Song)
    (stdin : list string) : result (option AMTrack * list string) :=
  selectSong_loop songs desiredSong 0 stdin.

(** ** eumenes.py *)

(** [distance]: the sort key of a candidate. *)
Definition distance (am_track : AMTrack) (spf_track : Song) : result R :=
  get_tracks_distance
    (trackName am_track) (artistName am_track)
    (collectionName am_track) (releaseDate am_track)
    (title spf_track) (artist spf_track)
    (album spf_track) (release_date spf_track).

(** The body of the row loop of [add_tracks_from_CSV] (lines 151-188),
    for the candidates [searchSongs] returned: what [selected] is, or
    [Skipped] where the loop goes on to the next row. *)
Definition resolve (_err : R) (_auto : bool) (_treshold : R)
    (song : Song) (candidates : list AMTrack) (stdin : list string)
    : result (Decision * list string) :=
  match candidates with
  | [] => Ok (Skipped, stdin)
  | [c] => Ok (Selected c, stdin)
  | _ =>
    candidates' <- sorted (fun x => distance x song) candidates ;;
    _ <- decorate (fun c => distance c song) candidates' ;;  (* log lines *)
    top <- item candidates' 0 ;;
    dist <- distance top song ;;
    if Rltb dist _err then Ok (Selected top, stdin)
    else if _auto && Rltb dist _treshold then Ok (Selected top, stdin)
    else
      defer (selectSong candidates' song stdin)
  end.

(** [add_tracks_from_CSV] over the rows of the file, each with its
    search results; [addTrack] is the outcome of the remote call. *)
Fixpoint add_tracks_from_CSV (addTrack : Z -> bool) (_add_tracks : bool)
    (_err : R) (_auto : bool) (_treshold : R)
    (rows : list (Song * list AMTrack)) (stdin : list string)
    : result (list AMTrack * list string) :=
  match rows with
  | [] => Ok ([], stdin)
  | (song, candidates) :: rows' =>
    '(d, stdin') <- resolve _err _auto _treshold song candidates stdin ;;
    '(am_playlist, out) <-
       add_tracks_from_CSV addTrack _add_tracks _err _auto _treshold
         rows' stdin' ;;
    match d with
    | Skipped => Ok (am_playlist, out)
    | Selected selected =>
      if _add_tracks && negb (addTrack (trackId selected))
      then Ok (am_playlist, out)
      else Ok (selected :: am_playlist, out)
    end
  end.

End Core.

(** ** An instance of the date parser

    [iso_get] reads the two shapes of date the two catalogs deliver,
    [YYYY-MM-DD] and [YYYY-MM-DDTHH:MM:SSZ], as [arrow.get] does, to
    microseconds since 0001-01-01T00:00:00Z.  The theorems below hold for
    every parser; this one serves the worked examples. *)

Module Iso.

Definition digit (c : ascii) : option Z :=
  if is_digit c then Some (Z.of_nat (nat_of_ascii c - 48)) else None.

Fixpoint number (cs : list ascii) (acc : Z) : option Z :=
  match cs with
  | [] => Some acc
  | c :: cs' =>
    match digit c with
    | Some d => number cs' (10 * acc + d)%Z
    | None => None
    end
  end.

Definition field (cs : list ascii) (start len : nat) : option Z :=
  number (firstn len (skipn start cs)) 0%Z.

Definition sep (cs : list ascii) (n : nat) (c : ascii) : bool :=
  match nth_error cs n with
  | Some x => Ascii.eqb x c
  | None => false
  end.

Definition is_leap (y : Z) : bool :=
  ((y mod 4 =? 0) && (negb (y mod 100 =? 0) || (y mod 400 =? 0)))%Z.

Definition days_in_month (y m : Z) : Z :=
  (if m =? 2 then (if is_leap y then 29 else 28)
   else if (m =? 4) || (m =? 6) || (m =? 9) || (m =? 11) then 30
   else 31)%Z.

Fixpoint days_before_month (y : Z) (m : nat) : Z :=
  match m with
  | O => 0%Z
  | S m' => (days_before_month y m' + days_in_month y (Z.of_nat m))%Z
  end.

Definition days_before_year (y : Z) : Z :=
  (let y' := y - 1 in y' * 365 + y' / 4 - y' / 100 + y' / 400)%Z.

Definition ymd2ord (y m d : Z) : Z :=
  (days_before_year y + days_before_month y (Z.to_nat (m - 1)) + d)%Z.

Definition date (cs : list ascii) : result Z :=
  if sep cs 4 "-" && sep cs 7 "-" then
    match field cs 0 4, field cs 5 2, field cs 8 2 with
    | Some y, Some m, Some d =>
      if ((1 <=? y) && (1 <=? m) && (m <=? 12)
          && (1 <=? d) && (d <=? days_in_month y m))%Z
      then Ok (ymd2ord y m d - 1)%Z
      else Raise ValueError
    | _, _, _ => Raise ParserError
    end
  else Raise ParserError.

Definition time (cs : list ascii) : result Z :=
  if sep cs 10 "T" && sep cs 13 ":" && sep cs 16 ":" && sep cs 19 "Z" then
    match field cs 11 2, field cs 14 2, field cs 17 2 with
    | Some h, Some m, Some s =>
      if ((h <? 24) && (m <? 60) && (s <? 60))%Z
      then Ok (h * 3600 + m * 60 + s)%Z
      else Raise ValueError
    | _, _, _ => Raise ParserError
    end
  else Raise ParserError.

Definition iso_get (s : string) : result Z :=
  let cs := chars s in
  if length cs =? 10 then
    days <- date cs ;;
    Ok (days * 86400000000)%Z
  else if length cs =? 20 then
    days <- date (firstn 10 cs) ;;
    secs <- time cs ;;
    Ok ((days * 86400 + secs) * 1000000)%Z
  else Raise ParserError.

End Iso.

(** ** Notions the statements use *)

Module DifflibSpec.

(** Every entry of a row dict of [find_longest_match] is bounded by the
    number [r] of rows scanned so far and by the columns to its left in
    the window. *)
Definition entries_ok (blo r : nat) (d : list (nat * nat)) : Prop :=
  forall j, Difflib.j2len_get d j <= r
            /\ Difflib.j2len_get d j <= j + 1 - blo.

(** A block lies inside the window [a[alo:ahi]], [b[blo:bhi]]. *)
Definition best_ok (alo ahi blo bhi : nat) (m : Difflib.block) : Prop :=
  let '(i, j, k) := m in
  alo <= i /\ i + k <= ahi /\ blo <= j /\ j + k <= bhi.

(** Sum of the sizes of a list of blocks. *)
Definition total (l : list Difflib.block) : nat :=
  fold_right (fun m acc => Difflib.size_of m + acc) 0 l.

Section Runs.

Context {A : Type}.
Variable isjunk : A -> bool.
Variable autojunk : bool.
Variable s : list A.
Variable eqb : A -> A -> bool.

(** [s[i]] is a key of [b2j] when [s] is matched against itself. *)
Definition keyed_at (i : nat) : bool :=
  match nth_error s i with
  | Some x => negb (isjunk x || Difflib.popular eqb autojunk s x)
  | None => false
  end.

(** Length of the run of keyed positions that ends at [i] and does not
    reach below [lo]. *)
Fixpoint diag_run (lo i : nat) : nat :=
  if keyed_at i && (lo <=? i)
  then S (match i with O => 0 | S i' => diag_run lo i' end)
  else 0.

Definition diag_prev (lo i : nat) : nat :=
  match i with O => 0 | S i' => diag_run lo i' end.

(** What the dict of the row before row [i] guarantees: its entries are
    bounded by the diagonal runs, and its diagonal entry is exact. *)
Definition prev_row_ok (lo i : nat) (j2len : list (nat * nat)) : Prop :=
  (forall j, Difflib.j2len_get j2len j <= diag_prev lo i
             /\ Difflib.j2len_get j2len j <= diag_run lo j)
  /\ match i with
     | S i' => Difflib.j2len_get j2len i' = diag_run lo i'
     | O => True
     end.

(** What holds of the best block once the rows below [i] are scanned:
    it lies on the diagonal, is at least as long as every diagonal run
    seen, and is still the initial one if it is empty. *)
Definition best_diag (lo i : nat) (best : Difflib.block) : Prop :=
  fst (fst best) = snd (fst best)
  /\ (forall x, lo <= x < i -> diag_run lo x <= snd best)
  /\ (1 <= snd best \/ best = (lo, lo, 0)).

End Runs.
End DifflibSpec.

Definition Reqb (x y : R) : bool := if Req_dec_T x y then true else false.

(** [ranked] is [l] in ascending order of [key], ties in the order of
    [l]: what a stable sort by [key] returns. *)
Definition stable_ranking {A : Type} (key : A -> R) (l ranked : list A)
    : Prop :=
  Permutation l ranked
  /\ StronglySorted (fun x y => (key x <= key y)%R) ranked
  /\ forall k : R,
       filter (fun x => Reqb (key x) k) ranked
       = filter (fun x => Reqb (key x) k) l.

Section SpecPolicy.

Variable arrow_get : string -> result Z.

(** The distance of a candidate to [song] as a number, read where it
    is defined. *)
Definition score (song : Song) (c : AMTrack) : R :=
  match distance arrow_get c song with
  | Ok d => d
  | Raise _ => 0%R
  end.

(** The distance [get_best_match] computes for [tr], read where it is
    defined. *)
Definition match_score (a_track a_artist a_album a_year : string)
    (tr : AMTrack) : R :=
  match get_tracks_distance arrow_get a_track a_artist a_album a_year
          (trackName tr) (artistName tr) (collectionName tr)
          (releaseDate tr) with
  | Ok d => d
  | Raise _ => 0%R
  end.

(** The candidates whose distance to [song] can be computed. *)
Definition scoreable (song : Song) (candidates : list AMTrack)
    : list AMTrack :=
  filter (fun c => match distance arrow_get c song with
                   | Ok _ => true
                   | Raise _ => false
                   end) candidates.

(** The resolution policy as the specification words its failure
    semantics: a candidate whose distance fails is left out of the
    ranking, and the three-tier rule is applied to the others; with
    none left the row is skipped. *)
Definition resolve_isolating (_err : R) (_auto : bool) (_treshold : R)
    (song : Song) (candidates : list AMTrack) (stdin : list string)
    : result (Decision * list string) :=
  match candidates with
  | [] => Ok (Skipped, stdin)
  | [c] => Ok (Selected c, stdin)
  | _ =>
    match scoreable song candidates with
    | [] => Ok (Skipped, stdin)
    | viable =>
      ranked <- sorted (fun x => distance arrow_get x song) viable ;;
      top <- item ranked 0 ;;
      dist <- distance arrow_get top song ;;
      if Rltb dist _err then Ok (Selected top, stdin)
      else if _auto && Rltb dist _treshold then Ok (Selected top, stdin)
      else
        defer (selectSong arrow_get ranked song stdin)
    end
  end.

End SpecPolicy.

(** ** Sample data *)

Module Sample.

Definition hello : Song :=
  mkSong "Hello" "Adele" "25" "2015-10-23".

Definition hello_am : AMTrack :=
  mkAMTrack 1051394215 "Hello" "Adele" "25" "25" "2015-10-23".

Definition hello_undated : AMTrack :=
  mkAMTrack 1051394216 "Hello" "Adele" "25" "25" "unknown".

Definition hello_deluxe : AMTrack :=
  mkAMTrack 1051394217 "Hello" "Adele" "25 (Deluxe)" "25 (Deluxe)"
            "2015-11-20".

(** A ranking longer than one page of the chooser. *)
Definition long_list : list AMTrack :=
  hello_am :: hello_deluxe :: repeat hello_am 10.

(** Replies of one character: SUPERSCRIPT TWO (U+00B2) and FULLWIDTH
    DIGIT ONE (U+FF11), in UTF-8. *)
Definition superscript_two : string :=
  String (ascii_of_nat 194) (String (ascii_of_nat 178) EmptyString).

Definition fullwidth_one : string :=
  String (ascii_of_nat 239)
    (String (ascii_of_nat 188) (String (ascii_of_nat 145) EmptyString)).


(** The rows of a file with their search results. *)
Definition rows : list (Song * list AMTrack) :=
  [ (hello, []);
    (hello, [hello_deluxe; hello_am]);
    (hello, [hello_deluxe; hello_am]);
    (hello, [hello_undated]);
    (hello, [hello_am]) ].

End Sample.

(** ** anabasis.py: the request that adds a track *)

(** Exceptions of this part of the code, and results that may raise
    them. *)
Inductive failure : Type :=
| StructError         (* struct.error *)
| HexError            (* ValueError of bytearray.fromhex *)
| UnboundLocalError
| NameError
| KeyError
| AttributeError
| Raised (e : exn).   (* an exception of the matching core *)

Inductive attempt (A : Type) : Type :=
| Done (x : A)
| Fails (e : failure).

Arguments Done {A} x.
Arguments Fails {A} e.

Definition and_then {A B : Type} (m : attempt A) (f : A -> attempt B)
    : attempt B :=
  match m with
  | Done x => f x
  | Fails e => Fails e
  end.

Notation "x <~ m ;; k" := (and_then m (fun x => k))
  (at level 61, m at next level, right associativity).

(** The module constant [hex]. *)
Definition hex : string :=
  "61 6a 43 41 00 00 00 45 6d 73 74 63 00 00 00 04 55 94 17 a3 6d 6c 69 64 00 00 00 04 00 00 00 00 6d 75 73 72 00 00 00 04 00 00 00 81 6d 69 6b 64 00 00 00 01 02 6d 69 64 61 00 00 00 10 61 65 41 69 00 00 00 08 00 00 00 00 11 8c d9 2c 00".

Definition hex_digit (c : ascii) : option Z :=
  let n := nat_of_ascii c in
  if (48 <=? n) && (n <=? 57) then Some (Z.of_nat (n - 48))
  else if (97 <=? n) && (n <=? 102) then Some (Z.of_nat (n - 87))
  else if (65 <=? n) && (n <=? 70) then Some (Z.of_nat (n - 55))
  else None.

Definition is_space (c : ascii) : bool :=
  let n := nat_of_ascii c in (n =? 32) || ((9 <=? n) && (n <=? 13)).

(** [bytearray.fromhex]: pairs of hexadecimal digits, white space between
    the pairs skipped; bytes are numbers from 0 to 255. *)
Fixpoint fromhex_chars (cs : list ascii) : option (list Z) :=
  match cs with
  | [] => Some []
  | c :: cs' =>
    if is_space c then fromhex_chars cs'
    else
      match cs' with
      | c' :: cs'' =>
        match hex_digit c, hex_digit c', fromhex_chars cs'' with
        | Some h, Some l, Some bytes => Some ((16 * h + l)%Z :: bytes)
        | _, _, _ => None
        end
      | [] => None
      end
  end.

Definition fromhex (s : string) : attempt (list Z) :=
  match fromhex_chars (chars s) with
  | Some bytes => Done bytes
  | None => Fails HexError
  end.

(** [struct.pack('>I', x)]: four bytes, the most significant first. *)
Definition pack_I (x : Z) : attempt (list Z) :=
  if ((0 <=? x) && (x <? 2 ^ 32))%Z
  then Done [Z.land (Z.shiftr x 24) 255; Z.land (Z.shiftr x 16) 255;
             Z.land (Z.shiftr x 8) 255; Z.land x 255]
  else Fails StructError.

(** [struct.unpack('>I', bytes)[0]] *)
Definition unpack_I (bytes : list Z) : Z :=
  fold_left (fun acc byte => (acc * 256 + byte)%Z) bytes 0%Z.

(** [body[lo:hi] = v] with [lo <= hi]. *)
Definition set_slice (body : list Z) (lo hi : nat) (v : list Z) : list Z :=
  firstn lo body ++ v ++ skipn hi body.

(** [body[-n:] = v] *)
Definition set_tail (body : list Z) (n : nat) (v : list Z) : list Z :=
  firstn (length body - n) body ++ v.

Definition construct_request_body (timestamp itunes_identifier : Z)
    : attempt (list Z) :=
  body <~ fromhex hex ;;
  ts <~ pack_I timestamp ;;
  let body := set_slice body 16 20 ts in
  id <~ pack_I itunes_identifier ;;
  Done (set_tail body 5 id).

Section AddTrack.

(** [int(time.time())] at the call, and [requests.get(addAM_uri, data,
    headers=_headers(_country), timeout=60)]: the status code of the
    response, or [None] when the call (or [_headers]) raises. *)
Variable now : Z.
Variable requests_get : list Z -> string -> option Z.

Definition add_track_AM (trackId : Z) (_country : string) : attempt Z :=
  data <~ construct_request_body now trackId ;;
  match requests_get data _country with
  | Some status_code => Done status_code
  | None => Fails UnboundLocalError   (* logged; [response] has no value *)
  end.

(** eumenes.py, [addTrack]: the [try] block, then [return False]. *)
Definition addTrack (_id : Z) (_c : string) : bool :=
  match (resp <~ add_track_AM _id _c ;;
         if (resp =? 200)%Z then Done true
         else if (resp =? 403)%Z then Done false
         else if (resp =? 404)%Z then Done false
         else if (resp =? 400)%Z
              then Fails NameError    (* [c_store] is no name in scope *)
              else Done false) with
  | Done answer => answer
  | Fails _ => false
  end.

End AddTrack.

(** ** eumenes.py: [buildXML], up to the property list it serializes *)

(** Values of a property list. *)
#[warnings="-register-all"]
Inductive plist : Type :=
| PBool (b : bool)
| PInt (z : Z)
| PStr (s : string)
| PDate                          (* datetime.datetime.now() *)
| PArray (l : list plist)
| PDict (d : list (string * plist)).

(** A search result with the keys [buildXML] reads besides those of
    the matching. *)
Record ITunesSong : Type := mkITunesSong {
  am_track : AMTrack;
  discCount : Z;
  discNumber : Z;
  primaryGenreName : string;
  trackTimeMillis : Z;
  trackNumber : Z;
  trackCount : Z
}.

Definition lift {A : Type} (r : result A) : attempt A :=
  match r with
  | Ok x => Done x
  | Raise e => Fails (Raised e)
  end.

(** [str(n)] *)
Definition str (n : Z) : string := NilZero.string_of_int (Z.to_int n).

(** [d[k]] on a dict kept as an association list. *)
Definition getitem (d : list (string * plist)) (k : string)
    : attempt plist :=
  match find (fun kv => String.eqb (fst kv) k) d with
  | Some kv => Done (snd kv)
  | None => Fails KeyError
  end.

(** The literal of [pl], for the tracks and the playlist items. *)
Definition pl (_title _description : string)
    (_tracks : list (string * list (string * plist)))
    (playlistItems : list plist) : plist :=
  PDict
    [ ("Application Version", PStr "12.6.1.25");
      ("Date", PDate);
      ("Features", PStr "5");
      ("Major Version", PStr "1");
      ("Minor Version", PStr "1");
      ("Show Content Ratings", PBool true);
      ("Tracks", PDict (map (fun kv => (fst kv, PDict (snd kv))) _tracks));
      ("Playlists",
       PArray [PDict [ ("All Items", PBool true);
                       ("Description", PStr _description);
                       ("Name", PStr _title);
                       ("Playlist ID", PInt 100001);
                       ("Playlist Items", PArray playlistItems) ]]) ]%string.

Section BuildXML.

Variable arrow_get : string -> result Z.

(** [.year] of the instant [arrow.get] returns. *)
Variable arrow_year : Z -> Z.

(** The dict stored at [_tracks[str(_track_id)]]. *)
Definition track_entry (_track_id : Z) (song : ITunesSong) (year : Z)
    : list (string * plist) :=
  [ ("Track ID", PInt _track_id);
    ("Apple Music", PBool true);
    ("Artist", PStr (artistName (am_track song)));
    ("Album", PStr (collectionCensoredName (am_track song)));
    ("Bit Rate", PInt 256);
    ("Disc Count", PInt (discCount song));
    ("Disc Number", PInt (discNumber song));
    ("Genre", PStr (primaryGenreName song));
    ("Kind", PStr "Apple Music AAC audio file");
    ("Name", PStr (trackName (am_track song)));
    ("Play Count", PInt 0);
    ("Playlist Only", PBool true);
    ("Sample Rate", PInt 44100);
    ("Sort Album", PStr (collectionName (am_track song)));
    ("Sort Artist", PStr (artistName (am_track song)));
    ("Sort Name", PStr (trackName (am_track song)));
    ("Time", PInt 255);
    ("Total Time", PInt (trackTimeMillis song));
    ("Track Number", PInt (trackNumber song));
    ("Track Count", PInt (trackCount song));
    ("Track Type", PStr "Remote");
    ("Year", PInt year) ]%string.

(** The loop [for song in playlist], from [_track_id] on; the keys
    [str(_track_id)] differ, so each assignment adds an item. *)
Fixpoint buildXML_tracks (playlist : list ITunesSong) (_track_id : Z)
    : attempt (list (string * list (string * plist))) :=
  match playlist with
  | [] => Done []
  | song :: playlist' =>
    t <~ lift (arrow_get (releaseDate (am_track song))) ;;
    let entry := track_entry _track_id song (arrow_year t) in
    _tracks <~ buildXML_tracks playlist' (_track_id + 2)%Z ;;
    Done ((str _track_id, entry) :: _tracks)
  end.

(** [[{"Track ID": _track["Track ID"]} for (_, _track) in _tracks.items()]] *)
Fixpoint playlistItems (_tracks : list (string * list (string * plist)))
    : attempt (list plist) :=
  match _tracks with
  | [] => Done []
  | (_, _track) :: _tracks' =>
    id <~ getitem _track "Track ID" ;;
    items <~ playlistItems _tracks' ;;
    Done (PDict [("Track ID"%string, id)] :: items)
  end.

(** The dict [pl] handed to [plistlib.dumps]. *)
Definition buildXML_plist (playlist : list ITunesSong)
    (_title _description : string) : attempt plist :=
  _tracks <~ buildXML_tracks playlist 10000%Z ;;
  items <~ playlistItems _tracks ;;
  Done (pl _title _description _tracks items).

End BuildXML.

(** The ids [buildXML] gives to [n] tracks, from [first] on. *)
Fixpoint track_ids (n : nat) (first : Z) : list Z :=
  match n with
  | O => []
  | S n' => first :: track_ids n' (first + 2)%Z
  end.

(** An instance of [.year], for the instants of [Iso.iso_get]
    (microseconds from 0001-01-01), as [datetime] finds the year of an
    ordinal. *)
Module IsoYear.

Definition iso_year (us : Z) : Z :=
  (let n := us / 86400000000 in
   let n400 := n / 146097 in
   let n := n mod 146097 in
   let n100 := n / 36524 in
   let n := n mod 36524 in
   let n4 := n / 1461 in
   let n := n mod 1461 in
   let n1 := n / 365 in
   let year := n400 * 400 + 1 + n100 * 100 + n4 * 4 + n1 in
   if (n1 =? 4) || (n100 =? 4) then year - 1 else year)%Z.

Definition hello_song : ITunesSong :=
  mkITunesSong Sample.hello_am 1 1 "Pop" 295502 1 11.

Definition hello_deluxe_song : ITunesSong :=
  mkITunesSong Sample.hello_deluxe 1 1 "Pop" 295502 1 14.

Definition hello_undated_song : ITunesSong :=
  mkITunesSong Sample.hello_undated 1 1 "Pop" 295502 1 11.

End IsoYear.

(** ** eumenes.py: the lines [dump_csv] writes *)

(** [s.replace(old, new)] for patterns of one character. *)
Fixpoint str_replace (old new : ascii) (s : string) : string :=
  match s with
  | EmptyString => EmptyString
  | String c s' =>
    String (if Ascii.eqb c old then new else c) (str_replace old new s')
  end.

(** [c in s] *)
Fixpoint contains (c : ascii) (s : string) : bool :=
  match s with
  | EmptyString => false
  | String x s' => Ascii.eqb x c || contains c s'
  end.

(** [s.split(sep)] for a separator of one character. *)
Fixpoint split (sep : ascii) (s : string) : list string :=
  match s with
  | EmptyString => [EmptyString]
  | String c s' =>
    if Ascii.eqb c sep then EmptyString :: split sep s'
    else
      match split sep s' with
      | f :: fs => String c f :: fs
      | [] => [String c EmptyString]
      end
  end.

Module Csv.

(** What [dump_csv] reads of an item of the playlist and of its album. *)
Record Item : Type := mkItem {
  spotify_id : string;      (* tr['id'] *)
  track_url : string;       (* tr['external_urls']['spotify'] *)
  title : string;           (* tr['name'] *)
  artist : string;          (* tr['artists'][0]['name'] *)
  album : string;           (* tr['album']['name'] *)
  album_url : string;       (* tr['album']['external_urls']['spotify'] *)
  release_date : string     (* al['release_date'] *)
}.

Definition newline : string := String (ascii_of_nat 10) EmptyString.

Definition header : string :=
  ("spotify_id;track_url;title;artist;album;album_url;release_date"
   ++ newline)%string.

(** The line of one item. *)
Definition line (tr : Item) : string :=
  (spotify_id tr ++ ";" ++
   track_url tr ++ ";" ++
   str_replace ";" ":" (title tr) ++ ";" ++
   str_replace ";" ":" (artist tr) ++ ";" ++
   str_replace ";" ":" (album tr) ++ ";" ++
   album_url tr ++ ";" ++
   release_date tr ++ newline)%string.

(** The lines [dump_csv] writes to the file, in order. *)
Definition dump_csv (songs : list Item) : list string :=
  header :: map line songs.

End Csv.

(** ** anabasis.py: [DictQuery.get] *)

Module DictQuery.

(** The values [json.loads] builds, numbers as integers. *)
#[warnings="-register-all"]
Inductive value : Type :=
| VNone
| VBool (b : bool)
| VInt (z : Z)
| VStr (s : string)
| VList (l : list value)
| VDict (d : list (string * value)).

(** [bool(v)] *)
Definition truthy (v : value) : bool :=
  match v with
  | VNone => false
  | VBool b => b
  | VInt z => negb (z =? 0)%Z
  | VStr s => negb (String.eqb s "")
  | VList l => match l with [] => false | _ => true end
  | VDict d => match d with [] => false | _ => true end
  end.

(** [dict.get(d, key, default)] *)
Definition dict_get (d : list (string * value)) (key : string)
    (default : value) : value :=
  match find (fun kv => String.eqb (fst kv) key) d with
  | Some kv => snd kv
  | None => default
  end.

(** [v.get(key, default)]: only a dict has the method. *)
Definition method_get (v : value) (key : string) (default : value)
    : attempt value :=
  match v with
  | VDict d => Done (dict_get d key default)
  | _ => Fails AttributeError
  end.

(** [[v.get(key, default) if v else None for v in val]] *)
Fixpoint each_get (val : list value) (key : string) (default : value)
    : attempt (list value) :=
  match val with
  | [] => Done []
  | v :: val' =>
    x <~ (if truthy v then method_get v key default else Done VNone) ;;
    xs <~ each_get val' key default ;;
    Done (x :: xs)
  end.

(** The branch [if val:] of the loop body. *)
Definition step (val : value) (key : string) (default : value)
    : attempt value :=
  match val with
  | VList l => xs <~ each_get l key default ;; Done (VList xs)
  | _ => method_get val key default
  end.

(** The iterations of [for key in keys] that find [val] true. *)
Fixpoint loop (keys : list string) (val : value) (default : value)
    : attempt value :=
  match keys with
  | [] => Done val
  | key :: keys' =>
    val' <~ step val key default ;;
    if truthy val' then loop keys' val' default else Done val'
  end.

(** [DictQuery.get]: the first iteration finds [val] to be [None] and
    reads [self]. *)
Definition get (self : list (string * value)) (path : string)
    (default : value) : attempt value :=
  match split "/" path with
  | [] => Done VNone
  | key :: keys =>
    let val := dict_get self key default in
    if truthy val then loop keys val default else Done val
  end.

End DictQuery.

(** ** Notions for the content of matching blocks *)

Module BlockSpec.

(** [a[i:i+k] == b[j:j+k]], position by position. *)
Definition same_run {A : Type} (a b : list A) (i j k : nat) : Prop :=
  forall t, t < k ->
    exists x, nth_error a (i + t) = Some x /\ nth_error b (j + t) = Some x.

(** The entries of the dict of row [r - 1] of [find_longest_match] are
    lengths of equal runs that end in that row. *)
Definition runs_ok {A : Type} (a b : list A) (r : nat)
    (d : list (nat * nat)) : Prop :=
  forall j,
    Difflib.j2len_get d j <= r
    /\ Difflib.j2len_get d j <= j + 1
    /\ same_run a b (r - Difflib.j2len_get d j)
                 (j + 1 - Difflib.j2len_get d j) (Difflib.j2len_get d j).

Definition block_valid {A : Type} (a b : list A) (m : Difflib.block)
    : Prop :=
  same_run a b (fst (fst m)) (snd (fst m)) (snd m).

End BlockSpec.

(** ** anabasis.py: [getBestMatch] *)

(** [getBestMatch], for the songs [searchSongs] returned; the pair
    [(None, None)] is [None], a pair [(distance, match)] is [Some]. *)
Definition getBestMatch (arrow_get : string -> result Z)
    (songs : list AMTrack) (title artist album year : string)
    : option (R * AMTrack) :=
  match songs with
  | [] => None                                   (* if not songs *)
  | _ =>
    match get_best_match arrow_get title artist album year songs with
    | Ok (distance, Some match_) => Some (distance, match_)
    | Ok (_, None) => None                       (* if match is None *)
    | Raise _ => None                            (* except Exception *)
    end
  end.

(** ** Notions for the chooser *)

(** Every row of [songs] can be displayed: its distance computes. *)
Definition displayable (arrow_get : string -> result Z) (song : Song)
    (songs : list AMTrack) : Prop :=
  forall s, In s songs ->
    exists d,
      get_tracks_distance arrow_get (trackName s) (artistName s)
        (collectionCensoredName s) (releaseDate s)
        (title song) (artist song) (album song) (release_date song)
      = Ok d.

(** A reply that turns the page: [n] or [p], in either case. *)
Definition paging (ans : string) : Prop :=
  lower ans = "n"%string \/ lower ans = "p"%string.

(** * Part II: properties *)

(** ** Blocks of [find_longest_match] stay inside their window *)

Section DifflibBounds.

Context {A : Type}.
Variable eqb : A -> A -> bool.
Variable isjunk : A -> bool.
Variable autojunk : bool.
Variables a b : list A.

Local Notation "'get'" := Difflib.j2len_get.
Local Notation "'scan_row'" := Difflib.scan_row.
Local Notation "'scan_rows'" := (Difflib.scan_rows eqb isjunk autojunk a b).
Local Notation "'extend_left'" := (Difflib.extend_left eqb isjunk a b).
Local Notation "'extend_right'" := (Difflib.extend_right eqb isjunk a b).
Local Notation "'flm'" :=
  (Difflib.find_longest_match eqb isjunk autojunk a b).

Variables alo ahi blo bhi : nat.

Local Notation "'entries_ok'" := (DifflibSpec.entries_ok blo).
Local Notation "'best_ok'" := (DifflibSpec.best_ok alo ahi blo bhi).

Lemma get_cons (j k : nat) (d : list (nat * nat)) (j' : nat) :
  get ((j, k) :: d) j' = if j =? j' then k else get d j'.
Proof.
  unfold Difflib.j2len_get; simpl. destruct (j =? j'); reflexivity.
Qed.

Lemma entries_ok_nil (r : nat) : entries_ok r [].
Proof. intros j; unfold Difflib.j2len_get; simpl; lia. Qed.

Lemma scan_row_ok (i : nat) (j2len : list (nat * nat)) :
  alo <= i < ahi ->
  entries_ok (i - alo) j2len ->
  forall js newj2len best,
    entries_ok (i + 1 - alo) newj2len -> best_ok best ->
    entries_ok (i + 1 - alo) (fst (scan_row i blo bhi j2len js newj2len best))
    /\ best_ok (snd (scan_row i blo bhi j2len js newj2len best)).
Proof.
  intros Hi Hd js. induction js as [|j js IH]; intros nd best Hn Hb.
  - simpl; auto.
  - simpl. destruct (j <? blo) eqn:Ejb; [now apply IH|].
    destruct (bhi <=? j) eqn:Ejh; [simpl; auto|].
    apply Nat.ltb_ge in Ejb. apply Nat.leb_gt in Ejh.
    assert (Hk : S (match j with O => 0 | S j' => get j2len j' end)
                 <= i + 1 - alo
                 /\ S (match j with O => 0 | S j' => get j2len j' end)
                    <= j + 1 - blo).
    { destruct j as [|j'].
      - lia.
      - destruct (Hd j') as [H1 H2]. lia. }
    set (k := S (match j with O => 0 | S j' => get j2len j' end)) in *.
    apply IH.
    + intros j'. rewrite get_cons. destruct (j =? j') eqn:E.
      * apply Nat.eqb_eq in E; subst j'. lia.
      * apply Hn.
    + destruct best as [[bi bj] bs]. simpl.
      destruct (bs <? k); [|exact Hb]. simpl. lia.
Qed.

Lemma scan_rows_ok (n : nat) :
  forall i j2len best,
    alo <= i -> i + n <= ahi ->
    entries_ok (i - alo) j2len -> best_ok best ->
    best_ok (scan_rows (seq i n) blo bhi j2len best).
Proof.
  induction n as [|n IH]; intros i d best Hi Hn Hd Hb; simpl; [exact Hb|].
  set (js := match nth_error a i with
             | Some x => Difflib.b2j eqb isjunk autojunk b x
             | None => []
             end).
  assert (Hw : alo <= i < ahi) by lia.
  destruct (scan_row_ok i d Hw Hd js [] best
              (entries_ok_nil _) Hb) as [H1 H2].
  destruct (scan_row i blo bhi d js [] best) as [nd best'].
  simpl in H1, H2. apply IH; try lia; auto.
  replace (S i - alo) with (i + 1 - alo) by lia. exact H1.
Qed.

Lemma extend_left_ok (junk : bool) :
  forall i j k, best_ok (i, j, k) ->
                best_ok (extend_left junk alo blo i j k).
Proof.
  induction i as [|i IH]; intros j k Hb; simpl; [exact Hb|].
  destruct j as [|j]; [exact Hb|].
  destruct ((alo <? S i) && (blo <? S j)
            && Difflib.step_ok eqb isjunk a b junk i j) eqn:E; [|exact Hb].
  apply andb_prop in E; destruct E as [E _].
  apply andb_prop in E; destruct E as [E1 E2].
  apply Nat.ltb_lt in E1, E2. apply IH. simpl in *. lia.
Qed.

Lemma extend_left_size (junk : bool) :
  forall i j k, k <= snd (extend_left junk alo blo i j k).
Proof.
  induction i as [|i IH]; intros j k; simpl; [lia|].
  destruct j as [|j]; simpl; [lia|].
  destruct ((alo <? S i) && (blo <? S j)
            && Difflib.step_ok eqb isjunk a b junk i j); simpl; [|lia].
  specialize (IH j (S k)). lia.
Qed.

Lemma extend_right_ok (junk : bool) (n : nat) :
  forall i j k, best_ok (i, j, k) ->
                best_ok (i, j, extend_right junk ahi bhi n i j k)
                /\ k <= extend_right junk ahi bhi n i j k.
Proof.
  induction n as [|n IH]; intros i j k Hb; simpl; [auto|].
  destruct ((i + k <? ahi) && (j + k <? bhi)
            && Difflib.step_ok eqb isjunk a b junk (i + k) (j + k)) eqn:E;
    [|auto].
  apply andb_prop in E; destruct E as [E _].
  apply andb_prop in E; destruct E as [E1 E2].
  apply Nat.ltb_lt in E1, E2.
  destruct (IH i j (S k)) as [H1 H2]; [simpl in *; lia|].
  split; [exact H1|lia].
Qed.

Lemma find_longest_match_ok :
  alo <= ahi -> blo <= bhi -> best_ok (flm alo ahi blo bhi).
Proof.
  intros Ha Hb. unfold Difflib.find_longest_match.
  assert (H0 : best_ok (scan_rows (seq alo (ahi - alo)) blo bhi []
                                  (alo, blo, 0))).
  { apply scan_rows_ok; try lia.
    - apply entries_ok_nil.
    - simpl; lia. }
  destruct (scan_rows _ _ _ _ _) as [[i0 j0] k0].
  pose proof (extend_left_ok false i0 j0 k0 H0) as H1.
  destruct (extend_left false alo blo i0 j0 k0) as [[i1 j1] k1].
  destruct (extend_right_ok false (ahi - (i1 + k1)) i1 j1 k1 H1) as [H2 _].
  set (k2 := extend_right false ahi bhi (ahi - (i1 + k1)) i1 j1 k1) in *.
  pose proof (extend_left_ok true i1 j1 k2 H2) as H3.
  destruct (extend_left true alo blo i1 j1 k2) as [[i3 j3] k3].
  destruct (extend_right_ok true (ahi - (i3 + k3)) i3 j3 k3 H3) as [H4 _].
  exact H4.
Qed.

End DifflibBounds.

(** ** Matching blocks: totals, and the depth bound is enough *)

Section DifflibBlocks.

Context {A : Type}.
Variable eqb : A -> A -> bool.
Variable isjunk : A -> bool.
Variable autojunk : bool.
Variables a b : list A.

Local Notation "'flm'" :=
  (Difflib.find_longest_match eqb isjunk autojunk a b).
Local Notation "'blocks'" := (Difflib.blocks eqb isjunk autojunk a b).
Local Notation "'total'" := DifflibSpec.total.

Lemma total_app (l1 l2 : list Difflib.block) :
  total (l1 ++ l2) = total l1 + total l2.
Proof.
  induction l1 as [|m l1 IH]; [reflexivity|].
  change (Difflib.size_of m + total (l1 ++ l2)
          = Difflib.size_of m + total l1 + total l2).
  rewrite IH. lia.
Qed.

Lemma total_cons (m : Difflib.block) (l : list Difflib.block) :
  total (m :: l) = Difflib.size_of m + total l.
Proof. reflexivity. Qed.

Lemma blocks_total (fuel : nat) :
  forall alo ahi blo bhi,
    alo <= ahi -> blo <= bhi ->
    total (blocks fuel alo ahi blo bhi) <= ahi - alo
    /\ total (blocks fuel alo ahi blo bhi) <= bhi - blo.
Proof.
  induction fuel as [|fuel IH]; intros alo ahi blo bhi Ha Hb; simpl;
    [lia|].
  pose proof (find_longest_match_ok eqb isjunk autojunk a b
                alo ahi blo bhi Ha Hb) as Hm.
  destruct (flm alo ahi blo bhi) as [[i j] k]. simpl in Hm.
  destruct (k =? 0); [simpl; lia|].
  rewrite total_app, total_cons. unfold Difflib.size_of. cbn [snd].
  assert (Hi : alo <= i) by lia. assert (Hj : blo <= j) by lia.
  assert (Hi' : i + k <= ahi) by lia. assert (Hj' : j + k <= bhi) by lia.
  destruct (IH alo i blo j Hi Hj) as [L1 L2].
  destruct (IH (i + k) ahi (j + k) bhi Hi' Hj') as [U1 U2].
  destruct ((alo <? i) && (blo <? j));
    destruct ((i + k <? ahi) && (j + k <? bhi));
    change (total []) with 0; lia.
Qed.

(** More fuel than the window is long changes nothing. *)
Lemma blocks_fuel (n : nat) :
  forall m alo ahi blo bhi,
    alo <= ahi -> blo <= bhi -> ahi - alo <= n -> ahi - alo <= m ->
    blocks n alo ahi blo bhi = blocks m alo ahi blo bhi.
Proof.
  induction n as [|n IH]; intros m alo ahi blo bhi Ha Hb Hn Hm.
  - pose proof (find_longest_match_ok eqb isjunk autojunk a b
                  alo ahi blo bhi Ha Hb) as Hk.
    destruct m as [|m]; simpl; [reflexivity|].
    destruct (flm alo ahi blo bhi) as [[i j] k]. simpl in Hk.
    replace k with 0 by lia. reflexivity.
  - pose proof (find_longest_match_ok eqb isjunk autojunk a b
                  alo ahi blo bhi Ha Hb) as Hk.
    destruct m as [|m]; simpl.
    + destruct (flm alo ahi blo bhi) as [[i j] k]. simpl in Hk.
      replace k with 0 by lia. reflexivity.
    + destruct (flm alo ahi blo bhi) as [[i j] k]. simpl in Hk.
      destruct (k =? 0) eqn:Ek; [reflexivity|].
      apply Nat.eqb_neq in Ek.
      f_equal; [|f_equal].
      * destruct ((alo <? i) && (blo <? j)); [|reflexivity].
        apply IH; lia.
      * destruct ((i + k <? ahi) && (j + k <? bhi)); [|reflexivity].
        apply IH; lia.
Qed.

(** The recursion of [get_matching_blocks] on a window, free of fuel. *)
Lemma blocks_unfold (alo ahi blo bhi : nat) :
  alo <= ahi -> blo <= bhi ->
  blocks (ahi - alo) alo ahi blo bhi =
  let '(i, j, k) := flm alo ahi blo bhi in
  if k =? 0 then []
  else
    (if (alo <? i) && (blo <? j)
     then blocks (i - alo) alo i blo j else [])
    ++ (i, j, k)
    :: (if (i + k <? ahi) && (j + k <? bhi)
        then blocks (ahi - (i + k)) (i + k) ahi (j + k) bhi else []).
Proof.
  intros Ha Hb.
  pose proof (find_longest_match_ok eqb isjunk autojunk a b
                alo ahi blo bhi Ha Hb) as Hk.
  rewrite (blocks_fuel (ahi - alo) (S (ahi - alo))) by lia.
  simpl. destruct (flm alo ahi blo bhi) as [[i j] k]. simpl in Hk.
  destruct (k =? 0) eqn:Ek; [reflexivity|].
  apply Nat.eqb_neq in Ek.
  f_equal; [|f_equal].
  - destruct ((alo <? i) && (blo <? j)); [|reflexivity].
    apply blocks_fuel; lia.
  - destruct ((i + k <? ahi) && (j + k <? bhi)); [|reflexivity].
    apply blocks_fuel; lia.
Qed.

Lemma collapse_total (l : list Difflib.block) :
  forall cur, total (Difflib.collapse cur l) = Difflib.size_of cur + total l.
Proof.
  induction l as [|[[i2 j2] k2] l IH]; intros [[i1 j1] k1];
    cbn [Difflib.collapse]; rewrite ?total_cons; unfold Difflib.size_of;
    cbn [snd].
  - destruct (k1 =? 0) eqn:E; [apply Nat.eqb_eq in E; subst|];
      reflexivity.
  - destruct ((i1 + k1 =? i2) && (j1 + k1 =? j2)).
    + rewrite IH. unfold Difflib.size_of; cbn [snd]. lia.
    + rewrite total_app, IH. unfold Difflib.size_of; cbn [snd].
      destruct (k1 =? 0) eqn:E; [apply Nat.eqb_eq in E; subst|];
        cbn; lia.
Qed.

(** [matches] is the total of the uncollapsed blocks. *)
Lemma matches_total :
  Difflib.matches eqb isjunk autojunk a b
  = total (blocks (length a) 0 (length a) 0 (length b)).
Proof.
  unfold Difflib.matches, Difflib.get_matching_blocks.
  change (fold_right (fun m acc => Difflib.size_of m + acc) 0 ?l)
    with (total l).
  rewrite total_app, collapse_total. cbn. lia.
Qed.

Lemma matches_le :
  Difflib.matches eqb isjunk autojunk a b <= length a
  /\ Difflib.matches eqb isjunk autojunk a b <= length b.
Proof.
  rewrite matches_total.
  destruct (blocks_total (length a) 0 (length a) 0 (length b)); lia.
Qed.

Lemma ratio_bounds :
  (0 <= Difflib.ratio eqb isjunk autojunk a b <= 1)%R.
Proof.
  unfold Difflib.ratio, Difflib.calculate_ratio.
  destruct (length a + length b =? 0) eqn:E; [lra|].
  apply Nat.eqb_neq in E.
  destruct matches_le as [Ha Hb].
  set (m := Difflib.matches eqb isjunk autojunk a b) in *.
  assert (Hpos : (0 < INR (length a + length b))%R)
    by (apply lt_0_INR; lia).
  assert (Hm : (0 <= INR m)%R) by apply pos_INR.
  assert (H2 : (2 * INR m <= INR (length a + length b))%R).
  { replace (2 * INR m)%R with (INR (m + m)) by (rewrite plus_INR; lra).
    apply le_INR; lia. }
  split.
  - apply Rmult_le_pos; [lra|]. left. now apply Rinv_0_lt_compat.
  - apply (Rmult_le_reg_r (INR (length a + length b))); [exact Hpos|].
    unfold Rdiv. rewrite Rmult_assoc, Rinv_l by lra. lra.
Qed.

End DifflibBlocks.

(** ** A sequence matched against itself is matched whole *)

Section DifflibIdentical.

Context {A : Type}.
Variable eqb : A -> A -> bool.
Hypothesis eqb_eq : forall x y, eqb x y = true <-> x = y.
Variable isjunk : A -> bool.
Variable autojunk : bool.
Variable s : list A.

Local Notation "'get'" := Difflib.j2len_get.
Local Notation "'scan_row'" := Difflib.scan_row.
Local Notation "'scan_rows'" := (Difflib.scan_rows eqb isjunk autojunk s s).
Local Notation "'extend_left'" := (Difflib.extend_left eqb isjunk s s).
Local Notation "'extend_right'" := (Difflib.extend_right eqb isjunk s s).
Local Notation "'flm'" :=
  (Difflib.find_longest_match eqb isjunk autojunk s s).
Local Notation "'blocks'" := (Difflib.blocks eqb isjunk autojunk s s).
Local Notation "'total'" := DifflibSpec.total.
Local Notation "'keyed_at'" := (DifflibSpec.keyed_at isjunk autojunk s eqb).
Local Notation "'D'" := (DifflibSpec.diag_run isjunk autojunk s eqb).
Local Notation "'Dp'" := (DifflibSpec.diag_prev isjunk autojunk s eqb).

Lemma indices_In (x : A) (l : list A) :
  forall n j, In j (Difflib.indices eqb x n l) ->
              n <= j /\ nth_error l (j - n) = Some x.
Proof.
  induction l as [|y l IH]; intros n j Hj; simpl in Hj; [contradiction|].
  destruct (eqb x y) eqn:E.
  - destruct Hj as [Hj|Hj].
    + subst j. rewrite Nat.sub_diag. simpl. apply eqb_eq in E.
      subst y. split; [lia|reflexivity].
    + apply IH in Hj. destruct Hj as [H1 H2]. split; [lia|].
      replace (j - n) with (S (j - S n)) by lia. exact H2.
  - apply IH in Hj. destruct Hj as [H1 H2]. split; [lia|].
    replace (j - n) with (S (j - S n)) by lia. exact H2.
Qed.

Lemma indices_complete (x : A) (l : list A) :
  forall n i, nth_error l i = Some x ->
              In (n + i) (Difflib.indices eqb x n l).
Proof.
  induction l as [|y l IH]; intros n i Hi; [destruct i; discriminate|].
  destruct i as [|i]; simpl in Hi.
  - injection Hi as ->. simpl.
    replace (eqb x x) with true by (symmetry; now apply eqb_eq).
    left; lia.
  - simpl. specialize (IH (S n) i Hi).
    replace (n + S i) with (S n + i) by lia.
    destruct (eqb x y); [right|]; exact IH.
Qed.

Lemma indices_sorted (x : A) (l : list A) :
  forall n, StronglySorted lt (Difflib.indices eqb x n l).
Proof.
  induction l as [|y l IH]; intros n; simpl; [constructor|].
  destruct (eqb x y); [|apply IH].
  constructor; [apply IH|].
  apply Forall_forall. intros j Hj. apply indices_In in Hj. lia.
Qed.

Lemma diag_run_eq (lo i : nat) :
  D lo i = if keyed_at i && (lo <=? i) then S (Dp lo i) else 0.
Proof. destruct i; reflexivity. Qed.

Variables lo hi : nat.

Local Notation "'prev_row_ok'" :=
  (DifflibSpec.prev_row_ok isjunk autojunk s eqb lo).
Local Notation "'best_diag'" :=
  (DifflibSpec.best_diag isjunk autojunk s eqb lo).

Lemma scan_row_diag (i : nat) (x : A) (j2len : list (nat * nat)) :
  lo <= i < hi ->
  nth_error s i = Some x ->
  isjunk x || Difflib.popular eqb autojunk s x = false ->
  prev_row_ok i j2len ->
  forall js nd best,
    StronglySorted lt js ->
    (forall j, In j js -> nth_error s j = Some x) ->
    best_diag i best ->
    (forall j, get nd j <= D lo i /\ get nd j <= D lo j) ->
    (In i js \/ (get nd i = D lo i /\ D lo i <= snd best)) ->
    let r := scan_row i lo hi j2len js nd best in
    best_diag (S i) (snd r) /\ prev_row_ok (S i) (fst r).
Proof.
  intros Hi Hx Hkey [Hprev Hprev'].
  assert (Hk_at : forall j, nth_error s j = Some x -> keyed_at j = true).
  { intros j Hj. unfold DifflibSpec.keyed_at. rewrite Hj, Hkey.
    reflexivity. }
  assert (HDi : D lo i = S (Dp lo i)).
  { rewrite diag_run_eq, (Hk_at i Hx).
    replace (lo <=? i) with true by (symmetry; apply Nat.leb_le; lia).
    reflexivity. }
  assert (Hdone : forall nd best,
             best_diag i best ->
             (forall j, get nd j <= D lo i /\ get nd j <= D lo j) ->
             get nd i = D lo i /\ D lo i <= snd best ->
             best_diag (S i) best /\ prev_row_ok (S i) nd).
  { intros nd best [B1 [B2 B3]] Hn [G1 G2]. split.
    - split; [exact B1|split; [|exact B3]].
      intros y Hy. destruct (Nat.eq_dec y i) as [->|Hne]; [exact G2|].
      apply B2; lia.
    - split; [|exact G1]. intros j. simpl. apply Hn. }
  induction js as [|j js IH]; intros nd best Hs Hjs Hb Hn Hor; simpl.
  - destruct Hor as [[]|Hor]. now apply Hdone.
  - assert (Htl : forall j', In j' js -> j < j').
    { inversion Hs as [|? ? _ Hall]; subst.
      intros j' Hj'. rewrite Forall_forall in Hall. now apply Hall. }
    assert (Hs' : StronglySorted lt js) by (inversion Hs; assumption).
    assert (Hjs' : forall j', In j' js -> nth_error s j' = Some x)
      by (intros j' Hj'; apply Hjs; now right).
    destruct (j <? lo) eqn:Ejl.
    + apply Nat.ltb_lt in Ejl. apply IH; auto.
      destruct Hor as [[Hor|Hor]|Hor]; [lia|now left|now right].
    + apply Nat.ltb_ge in Ejl. destruct (hi <=? j) eqn:Ejh.
      * apply Nat.leb_le in Ejh. simpl. apply Hdone; auto.
        destruct Hor as [[Hor|Hor]|Hor]; [lia| |exact Hor].
        apply Htl in Hor. lia.
      * apply Nat.leb_gt in Ejh.
        assert (HDj : D lo j = S (Dp lo j)).
        { rewrite diag_run_eq, (Hk_at j (Hjs j (or_introl eq_refl))).
          replace (lo <=? j) with true
            by (symmetry; apply Nat.leb_le; lia).
          reflexivity. }
        assert (Hk : S (match j with O => 0 | S j' => get j2len j' end)
                     <= D lo i
                     /\ S (match j with O => 0 | S j' => get j2len j' end)
                        <= D lo j).
        { rewrite HDi, HDj. destruct j as [|j']; [lia|].
          destruct (Hprev j') as [H1 H2]. simpl. lia. }
        assert (Hki : j = i ->
                      S (match j with O => 0 | S j' => get j2len j' end)
                      = D lo i).
        { intros ->. rewrite HDi. destruct i as [|i']; [reflexivity|].
          simpl. now rewrite Hprev'. }
        set (k := S (match j with O => 0 | S j' => get j2len j' end)) in *.
        destruct Hb as [B1 [B2 B3]]. destruct best as [[bi bj] bs].
        simpl in B1, B2, B3. subst bj.
        assert (Hn' : forall j', get ((j, k) :: nd) j' <= D lo i
                                 /\ get ((j, k) :: nd) j' <= D lo j').
        { intros j'. rewrite get_cons. destruct (j =? j') eqn:E;
            [apply Nat.eqb_eq in E; subst j'; lia|apply Hn]. }
        destruct (Nat.lt_trichotomy j i) as [Hlt|[Heq|Hgt]].
        -- (* to the left of the diagonal: the run is not longer than
              the diagonal run that ended at [j] *)
           assert (Hno : (Difflib.size_of (bi, bi, bs) <? k) = false).
           { apply Nat.ltb_ge. unfold Difflib.size_of; simpl.
             specialize (B2 j). lia. }
           rewrite Hno. apply IH; auto.
           ++ repeat split; auto.
           ++ destruct Hor as [[Hor|Hor]|Hor]; [lia|now left|right].
              rewrite get_cons.
              replace (j =? i) with false
                by (symmetry; apply Nat.eqb_neq; lia).
              exact Hor.
        -- (* on the diagonal *)
           specialize (Hki Heq). subst j.
           apply IH; auto.
           ++ unfold Difflib.size_of; simpl.
              destruct (bs <? k) eqn:E; simpl.
              ** apply Nat.ltb_lt in E. repeat split; auto; cbn [snd].
                 --- intros y Hy. specialize (B2 y Hy). lia.
                 --- left; lia.
              ** repeat split; auto.
           ++ right. rewrite get_cons, Nat.eqb_refl. split; [exact Hki|].
              unfold Difflib.size_of; simpl.
              destruct (bs <? k) eqn:E; simpl;
                [lia|apply Nat.ltb_ge in E; lia].
        -- (* to the right: the diagonal entry of this row came first *)
           assert (Hd : get nd i = D lo i /\ D lo i <= bs).
           { destruct Hor as [[Hor|Hor]|Hor]; [lia| |exact Hor].
             apply Htl in Hor. lia. }
           assert (Hno : (Difflib.size_of (bi, bi, bs) <? k) = false).
           { apply Nat.ltb_ge. unfold Difflib.size_of; simpl. lia. }
           rewrite Hno. apply IH; auto.
           ++ repeat split; auto.
           ++ right. rewrite get_cons.
              replace (j =? i) with false
                by (symmetry; apply Nat.eqb_neq; lia).
              exact Hd.
Qed.

Lemma get_nil (j : nat) : get [] j = 0.
Proof. reflexivity. Qed.

Lemma scan_rows_diag (n : nat) :
  forall i j2len best,
    lo <= i -> i + n <= hi -> hi <= length s ->
    prev_row_ok i j2len -> best_diag i best ->
    best_diag (i + n) (scan_rows (seq i n) lo hi j2len best).
Proof.
  induction n as [|n IH]; intros i d best Hlo Hhi Hlen Hd Hb.
  - rewrite Nat.add_0_r. exact Hb.
  - cbn [seq Difflib.scan_rows].
    destruct (nth_error s i) as [x|] eqn:Hx;
      [|apply nth_error_None in Hx; lia].
    replace (i + S n) with (S i + n) by lia.
    unfold Difflib.b2j.
    destruct (isjunk x || Difflib.popular eqb autojunk s x) eqn:Hkey.
    + (* [a[i]] is no key of [b2j]: an empty row *)
      cbn [Difflib.scan_row].
      assert (HD : D lo i = 0).
      { rewrite diag_run_eq. unfold DifflibSpec.keyed_at.
        rewrite Hx, Hkey. reflexivity. }
      apply IH; try lia.
      * split; [|rewrite get_nil; now rewrite HD].
        intros j. rewrite get_nil. lia.
      * destruct Hb as [B1 [B2 B3]]. repeat split; auto.
        intros y Hy. destruct (Nat.eq_dec y i) as [->|Hne]; [lia|].
        apply B2; lia.
    + assert (Hw : lo <= i < hi) by lia.
      pose proof (scan_row_diag i x d Hw Hx Hkey Hd
                    (Difflib.indices eqb x 0 s) [] best
                    (indices_sorted x s 0)) as Hrow.
      destruct (scan_row i lo hi d (Difflib.indices eqb x 0 s) [] best)
        as [nd best'].
      destruct Hrow as [R1 R2]; auto.
      * intros j Hj. apply indices_In in Hj.
        rewrite Nat.sub_0_r in Hj. apply Hj.
      * intros j. rewrite get_nil. lia.
      * left. apply (indices_complete x s 0 i Hx).
      * apply IH; try lia; auto.
Qed.

Lemma extend_left_diag (junk : bool) (alo : nat) :
  forall i k, fst (fst (extend_left junk alo alo i i k))
              = snd (fst (extend_left junk alo alo i i k)).
Proof.
  induction i as [|i IH]; intros k; simpl; [reflexivity|].
  destruct ((alo <? S i) && (alo <? S i)
            && Difflib.step_ok eqb isjunk s s junk i i);
    [apply IH|reflexivity].
Qed.

Lemma extend_left_stay (junk : bool) (k : nat) :
  extend_left junk lo lo lo lo k = (lo, lo, k).
Proof.
  destruct lo as [|l]; simpl; [reflexivity|].
  rewrite Nat.ltb_irrefl. reflexivity.
Qed.

Lemma extend_right_ge (junk : bool) (ahi bhi n : nat) :
  forall i j k, k <= extend_right junk ahi bhi n i j k.
Proof.
  induction n as [|n IH]; intros i j k; simpl; [lia|].
  destruct ((i + k <? ahi) && (j + k <? bhi)
            && Difflib.step_ok eqb isjunk s s junk (i + k) (j + k));
    [|lia].
  specialize (IH i j (S k)). lia.
Qed.

(** In a window of [s] against itself that is not empty, the longest
    match lies on the diagonal and is not empty. *)
Lemma find_longest_match_diag :
  lo < hi -> hi <= length s ->
  exists d k, flm lo hi lo hi = (d, d, k)
              /\ 1 <= k /\ lo <= d /\ d + k <= hi.
Proof.
  intros Hlt Hlen.
  assert (Hle : lo <= hi) by lia.
  pose proof (find_longest_match_ok eqb isjunk autojunk s s
                lo hi lo hi Hle Hle) as Hok.
  unfold Difflib.find_longest_match in *.
  assert (H0 : best_diag (lo + (hi - lo))
                 (scan_rows (seq lo (hi - lo)) lo hi [] (lo, lo, 0))).
  { apply scan_rows_diag; try lia.
    - split.
      + intros j. rewrite get_nil. lia.
      + destruct lo as [|l]; [exact I|]. rewrite get_nil.
        rewrite diag_run_eq.
        replace (S l <=? l) with false
          by (symmetry; apply Nat.leb_gt; lia).
        now rewrite andb_false_r.
    - repeat split; simpl; [intros; lia|now right]. }
  destruct (scan_rows _ _ _ _ _) as [[i0 j0] k0].
  destruct H0 as [B1 [_ B3]]. simpl in B1, B3. subst j0.
  pose proof (extend_left_diag false lo i0 k0) as E1.
  pose proof (extend_left_size eqb isjunk s s lo lo false i0 i0 k0) as S1.
  assert (St1 : k0 = 0 -> extend_left false lo lo i0 i0 k0 = (lo, lo, 0)).
  { intros ->. destruct B3 as [B3|B3]; [lia|].
    assert (Hi0 : i0 = lo) by (inversion B3; auto).
    rewrite Hi0. apply extend_left_stay. }
  destruct (extend_left false lo lo i0 i0 k0) as [[i1 j1] k1].
  simpl in E1, S1. subst j1.
  pose proof (extend_right_ge false hi hi (hi - (i1 + k1)) i1 i1 k1) as S2.
  assert (St2 : k0 = 0 ->
                extend_right false hi hi (hi - (i1 + k1)) i1 i1 k1 = 0 ->
                i1 = lo
                /\ Difflib.step_ok eqb isjunk s s false lo lo = false).
  { intros Hk Hz. specialize (St1 Hk).
    assert (Hi1 : i1 = lo /\ k1 = 0) by (inversion St1; auto).
    destruct Hi1 as [-> ->]. split; [reflexivity|].
    rewrite Nat.add_0_r in Hz.
    destruct (hi - lo) as [|m] eqn:Em; [lia|]. simpl in Hz.
    rewrite !Nat.add_0_r in Hz.
    replace (lo <? hi) with true in Hz
      by (symmetry; apply Nat.ltb_lt; lia).
    simpl in Hz.
    destruct (Difflib.step_ok eqb isjunk s s false lo lo);
      [|reflexivity].
    pose proof (extend_right_ge false hi hi m lo lo 1). lia. }
  set (k2 := extend_right false hi hi (hi - (i1 + k1)) i1 i1 k1) in *.
  pose proof (extend_left_diag true lo i1 k2) as E3.
  pose proof (extend_left_size eqb isjunk s s lo lo true i1 i1 k2) as S3.
  assert (St3 : k0 = 0 -> k2 = 0 ->
                extend_left true lo lo i1 i1 k2 = (lo, lo, 0)).
  { intros Hk Hz. destruct (St2 Hk Hz) as [-> _]. rewrite Hz.
    apply extend_left_stay. }
  destruct (extend_left true lo lo i1 i1 k2) as [[i3 j3] k3].
  simpl in E3, S3. subst j3.
  pose proof (extend_right_ge true hi hi (hi - (i3 + k3)) i3 i3 k3) as S4.
  exists i3, (extend_right true hi hi (hi - (i3 + k3)) i3 i3 k3).
  simpl in Hok. split; [reflexivity|].
  split; [|lia].
  destruct (Nat.eq_dec k0 0) as [Hk|Hk]; [|lia].
  destruct (Nat.eq_dec k2 0) as [Hz|Hz]; [|lia].
  destruct (St2 Hk Hz) as [_ Hstep].
  specialize (St3 Hk Hz).
  assert (Hi3 : i3 = lo /\ k3 = 0) by (inversion St3; auto).
  destruct Hi3 as [-> ->]. rewrite Nat.add_0_r.
  destruct (hi - lo) as [|m] eqn:Em; [lia|]. simpl.
  rewrite !Nat.add_0_r.
  replace (lo <? hi) with true by (symmetry; apply Nat.ltb_lt; lia).
  simpl.
  assert (Hstep' : Difflib.step_ok eqb isjunk s s true lo lo = true).
  { unfold Difflib.step_ok in *.
    destruct (nth_error s lo) as [x|] eqn:Hx;
      [|apply nth_error_None in Hx; lia].
    replace (eqb x x) with true in * by (symmetry; now apply eqb_eq).
    destruct (Difflib.isbjunk eqb isjunk s x); [reflexivity|].
    discriminate. }
  rewrite Hstep'.
  pose proof (extend_right_ge true hi hi m lo lo 1). lia.
Qed.

End DifflibIdentical.

Section DifflibSelf.

Context {A : Type}.
Variable eqb : A -> A -> bool.
Hypothesis eqb_eq : forall x y, eqb x y = true <-> x = y.
Variable isjunk : A -> bool.
Variable autojunk : bool.
Variable s : list A.

Local Notation "'flm'" :=
  (Difflib.find_longest_match eqb isjunk autojunk s s).
Local Notation "'blocks'" := (Difflib.blocks eqb isjunk autojunk s s).
Local Notation "'total'" := DifflibSpec.total.

Lemma blocks_total_self (fuel : nat) :
  forall lo hi,
    lo <= hi -> hi <= length s -> hi - lo <= fuel ->
    total (blocks fuel lo hi lo hi) = hi - lo.
Proof.
  induction fuel as [|fuel IH]; intros lo hi Hle Hlen Hfuel.
  - simpl. lia.
  - cbn [Difflib.blocks].
    destruct (Nat.eq_dec lo hi) as [->|Hne].
    + pose proof (find_longest_match_ok eqb isjunk autojunk s s
                    hi hi hi hi Hle Hle) as Hok.
      destruct (flm hi hi hi hi) as [[i j] k]. simpl in Hok.
      replace k with 0 by lia. simpl. lia.
    + destruct (find_longest_match_diag eqb eqb_eq isjunk autojunk s
                  lo hi) as (d & k & Hm & Hk & Hd & Hdk); try lia.
      rewrite Hm.
      replace (k =? 0) with false by (symmetry; apply Nat.eqb_neq; lia).
      rewrite total_app, total_cons.
      unfold Difflib.size_of; cbn [snd].
      pose proof (IH lo d) as IL. pose proof (IH (d + k) hi) as IR.
      destruct (lo <? d) eqn:E1; destruct (d + k <? hi) eqn:E2;
        cbn [andb]; change (total []) with 0;
        try apply Nat.ltb_lt in E1; try apply Nat.ltb_ge in E1;
        try apply Nat.ltb_lt in E2; try apply Nat.ltb_ge in E2;
        rewrite ?IL, ?IR by lia; lia.
Qed.

Lemma matches_self :
  Difflib.matches eqb isjunk autojunk s s = length s.
Proof.
  rewrite matches_total, blocks_total_self; lia.
Qed.

Lemma ratio_self : Difflib.ratio eqb isjunk autojunk s s = 1%R.
Proof.
  unfold Difflib.ratio, Difflib.calculate_ratio. rewrite matches_self.
  destruct (length s + length s =? 0) eqn:E; [reflexivity|].
  apply Nat.eqb_neq in E. rewrite plus_INR.
  assert (0 < INR (length s))%R by (apply lt_0_INR; lia).
  field. lra.
Qed.

End DifflibSelf.

Section DifflibEmpty.

Context {A : Type}.
Variable eqb : A -> A -> bool.
Variable isjunk : A -> bool.
Variable autojunk : bool.

Lemma ratio_nil_nil : Difflib.ratio eqb isjunk autojunk [] [] = 1%R.
Proof. reflexivity. Qed.

Lemma ratio_nil_l (b : list A) :
  b <> [] -> Difflib.ratio eqb isjunk autojunk [] b = 0%R.
Proof.
  intros Hb. unfold Difflib.ratio, Difflib.calculate_ratio.
  destruct (matches_le eqb isjunk autojunk [] b) as [H _].
  simpl in H. replace (Difflib.matches eqb isjunk autojunk [] b) with 0
    by lia.
  destruct b as [|x b]; [contradiction|]. simpl (_ =? _).
  cbn iota. unfold Rdiv. simpl INR at 1. lra.
Qed.

Lemma ratio_nil_r (a : list A) :
  a <> [] -> Difflib.ratio eqb isjunk autojunk a [] = 0%R.
Proof.
  intros Ha. unfold Difflib.ratio, Difflib.calculate_ratio.
  destruct (matches_le eqb isjunk autojunk a []) as [_ H].
  simpl in H. replace (Difflib.matches eqb isjunk autojunk a []) with 0
    by lia.
  destruct a as [|x a]; [contradiction|]. simpl (_ =? _).
  cbn iota. unfold Rdiv. simpl INR at 1. lra.
Qed.

End DifflibEmpty.

(** ** The saturating transform of the day gap *)

Section Temporal.

Local Open Scope R_scope.

Lemma ln_nondecreasing (x y : R) : 1 <= x -> x <= y -> ln x <= ln y.
Proof.
  intros Hx [Hlt|Heq].
  - left. apply ln_increasing; lra.
  - subst y. lra.
Qed.

Lemma ln_nonneg (x : R) : 1 <= x -> 0 <= ln x.
Proof.
  intros Hx. rewrite <- ln_1. apply ln_nondecreasing; lra.
Qed.

Lemma saturate_range (u : R) : 0 <= u -> 0 <= u / (1 + u) < 1.
Proof.
  intros Hu. assert (Hpos : 0 < / (1 + u))
    by (apply Rinv_0_lt_compat; lra).
  split.
  - apply Rmult_le_pos; lra.
  - apply (Rmult_lt_reg_r (1 + u)); [lra|].
    unfold Rdiv. rewrite Rmult_assoc, Rinv_l by lra. lra.
Qed.

Lemma saturate_mono (u v : R) :
  0 <= u -> u <= v -> u / (1 + u) <= v / (1 + v).
Proof.
  intros Hu Huv.
  assert (Hd : v / (1 + v) - u / (1 + u)
               = (v - u) * (/ (1 + u) * / (1 + v))) by (field; lra).
  assert (Hp : 0 < / (1 + u) * / (1 + v)).
  { apply Rmult_lt_0_compat; apply Rinv_0_lt_compat; lra. }
  assert (0 <= (v - u) * (/ (1 + u) * / (1 + v)))
    by (apply Rmult_le_pos; lra).
  lra.
Qed.

Lemma delta_nonneg (n : Z) : 0 <= Rabs (IZR n) / 365.
Proof.
  pose proof (Rabs_pos (IZR n)).
  apply Rmult_le_pos; [assumption|lra].
Qed.

Lemma aceh_of_days_0 : aceh_of_days 0 = 0.
Proof.
  unfold aceh_of_days. rewrite Rabs_R0.
  replace (1 + 0 / 365) with 1 by field. rewrite ln_1. field.
Qed.

Lemma aceh_of_days_range (n : Z) : 0 <= aceh_of_days n < 1.
Proof.
  unfold aceh_of_days. apply saturate_range, ln_nonneg.
  pose proof (delta_nonneg n). lra.
Qed.

Lemma aceh_of_days_mono (n m : Z) :
  (Z.abs n <= Z.abs m)%Z -> aceh_of_days n <= aceh_of_days m.
Proof.
  intros Hnm. unfold aceh_of_days.
  pose proof (delta_nonneg n) as Hn.
  assert (Hd : Rabs (IZR n) / 365 <= Rabs (IZR m) / 365).
  { rewrite <- !abs_IZR. apply IZR_le in Hnm.
    apply Rmult_le_compat_r; lra. }
  apply saturate_mono.
  - apply ln_nonneg; lra.
  - apply ln_nondecreasing; lra.
Qed.

(** A gap of one day already counts. *)
Lemma aceh_of_days_pos (n : Z) : n <> 0%Z -> 0 < aceh_of_days n.
Proof.
  intros Hn. unfold aceh_of_days.
  assert (Hd : 0 < Rabs (IZR n) / 365).
  { apply Rmult_lt_0_compat; [|lra]. apply Rabs_pos_lt.
    intros H. apply eq_IZR in H. contradiction. }
  assert (Hl : 0 < ln (1 + Rabs (IZR n) / 365)).
  { rewrite <- ln_1. apply ln_increasing; lra. }
  apply Rmult_lt_0_compat; [exact Hl|].
  apply Rinv_0_lt_compat; lra.
Qed.

End Temporal.

(** ** Lexical sub-distance *)

Section Lexical.

Lemma ascii_eqb_iff (x y : ascii) : Ascii.eqb x y = true <-> x = y.
Proof. apply Ascii.eqb_eq. Qed.

Lemma chars_upper_nil (s : string) : chars (upper s) = [] <-> s = EmptyString.
Proof.
  destruct s; simpl; split; intros H; try reflexivity; discriminate.
Qed.

Lemma ro_distance_range (a b : string) :
  (0 <= ro_distance a b <= 1)%R.
Proof.
  unfold ro_distance, ro_ratio.
  pose proof (ratio_bounds Ascii.eqb junk true
                (chars (upper a)) (chars (upper b))).
  lra.
Qed.

Lemma ro_distance_refl (a : string) : ro_distance a a = 0%R.
Proof.
  unfold ro_distance, ro_ratio.
  rewrite (ratio_self Ascii.eqb ascii_eqb_iff). lra.
Qed.

Lemma ro_distance_sq_range (a b : string) :
  (0 <= ro_distance a b ^ 2 <= 1)%R.
Proof.
  pose proof (ro_distance_range a b) as [H0 H1]. split.
  - apply pow2_ge_0.
  - replace 1%R with (1 ^ 2)%R by ring.
    apply pow_incr. lra.
Qed.

End Lexical.

(** ** [sorted] is the stable sort by key *)

Section Sorting.

Context {A : Type}.

Local Notation "'fkey'" := (fun k => (fun p : R * A => Reqb (fst p) k)).

Lemma Rltb_true (x y : R) : Rltb x y = true <-> (x < y)%R.
Proof.
  unfold Rltb. destruct (Rlt_dec x y); split; intros; auto; discriminate.
Qed.

Lemma Rltb_false (x y : R) : Rltb x y = false <-> (y <= x)%R.
Proof.
  unfold Rltb. destruct (Rlt_dec x y); split; intros; auto;
    try discriminate; lra.
Qed.

Lemma Reqb_true (x y : R) : Reqb x y = true <-> x = y.
Proof.
  unfold Reqb. destruct (Req_dec_T x y); split; intros; auto; discriminate.
Qed.

Lemma insert_keyed_perm (x : R * A) (l : list (R * A)) :
  Permutation (x :: l) (insert_keyed x l).
Proof.
  induction l as [|y l IH]; simpl; [apply Permutation_refl|].
  destruct (Rltb (fst y) (fst x)); [|apply Permutation_refl].
  eapply perm_trans; [apply perm_swap|]. now apply perm_skip.
Qed.

Lemma insert_keyed_sorted (x : R * A) (l : list (R * A)) :
  StronglySorted (fun p q => (fst p <= fst q)%R) l ->
  StronglySorted (fun p q => (fst p <= fst q)%R) (insert_keyed x l).
Proof.
  induction l as [|y l IH]; intros Hs; simpl.
  - constructor; [constructor|constructor].
  - inversion Hs as [|? ? Hs' Hall]; subst.
    destruct (Rltb (fst y) (fst x)) eqn:E.
    + apply Rltb_true in E. constructor; [now apply IH|].
      apply Forall_forall. intros z Hz.
      apply (Permutation_in _ (Permutation_sym (insert_keyed_perm x l)))
        in Hz.
      destruct Hz as [<-|Hz]; [lra|].
      rewrite Forall_forall in Hall. now apply Hall.
    + apply Rltb_false in E. constructor; [exact Hs|].
      constructor; [exact E|].
      rewrite Forall_forall in Hall |- *. intros z Hz.
      specialize (Hall z Hz). lra.
Qed.

(** Insertion puts [x] in front of the entries of its own key. *)
Lemma insert_keyed_filter (k : R) (x : R * A) (l : list (R * A)) :
  filter (fkey k) (insert_keyed x l) = filter (fkey k) (x :: l).
Proof.
  induction l as [|y l IH]; [reflexivity|].
  cbn [insert_keyed]. destruct (Rltb (fst y) (fst x)) eqn:E;
    [|reflexivity].
  apply Rltb_true in E. cbn [filter] in *. rewrite IH.
  destruct (Reqb (fst x) k) eqn:Ex; [|reflexivity].
  apply Reqb_true in Ex.
  destruct (Reqb (fst y) k) eqn:Ey; [|reflexivity].
  apply Reqb_true in Ey. lra.
Qed.

Lemma sort_keyed_perm (l : list (R * A)) : Permutation l (sort_keyed l).
Proof.
  induction l as [|x l IH]; simpl; [constructor|].
  eapply perm_trans; [apply perm_skip, IH|apply insert_keyed_perm].
Qed.

Lemma sort_keyed_sorted (l : list (R * A)) :
  StronglySorted (fun p q => (fst p <= fst q)%R) (sort_keyed l).
Proof.
  induction l as [|x l IH]; simpl; [constructor|].
  now apply insert_keyed_sorted.
Qed.

Lemma sort_keyed_filter (k : R) (l : list (R * A)) :
  filter (fkey k) (sort_keyed l) = filter (fkey k) l.
Proof.
  induction l as [|x l IH]; [reflexivity|].
  cbn [sort_keyed fold_right]. fold (sort_keyed l).
  rewrite insert_keyed_filter. cbn [filter]. now rewrite IH.
Qed.

Variable f : A -> result R.
Variable key : A -> R.

Lemma decorate_ok (l : list A) :
  (forall x, In x l -> f x = Ok (key x)) ->
  decorate f l = Ok (map (fun x => (key x, x)) l).
Proof.
  induction l as [|x l IH]; intros H; simpl; [reflexivity|].
  rewrite (H x (or_introl eq_refl)). simpl.
  rewrite IH by (intros y Hy; apply H; now right). reflexivity.
Qed.

(** The first key that fails is the exception of the whole. *)
Lemma decorate_raise (l1 l2 : list A) (c : A) (e : exn) :
  (forall x, In x l1 -> f x = Ok (key x)) ->
  f c = Raise e ->
  decorate f (l1 ++ c :: l2) = Raise e.
Proof.
  induction l1 as [|x l1 IH]; intros H Hc; simpl.
  - now rewrite Hc.
  - rewrite (H x (or_introl eq_refl)). simpl.
    rewrite IH; auto. intros y Hy; apply H; now right.
Qed.

Lemma keyed_all (l : list A) (m : list (R * A)) :
  Permutation (map (fun x => (key x, x)) l) m ->
  Forall (fun p => fst p = key (snd p)) m.
Proof.
  intros Hp. apply Forall_forall. intros p Hp'.
  apply (Permutation_in _ (Permutation_sym Hp)) in Hp'.
  apply in_map_iff in Hp'. destruct Hp' as [x [<- _]]. reflexivity.
Qed.

Lemma keyed_filter (k : R) (m : list (R * A)) :
  Forall (fun p => fst p = key (snd p)) m ->
  map snd (filter (fkey k) m)
  = filter (fun x => Reqb (key x) k) (map snd m).
Proof.
  induction 1 as [|p m Hp _ IH]; [reflexivity|].
  cbn [filter map]. rewrite <- Hp.
  destruct (Reqb (fst p) k); cbn [map]; now rewrite IH.
Qed.

Lemma keyed_sorted (m : list (R * A)) :
  Forall (fun p => fst p = key (snd p)) m ->
  StronglySorted (fun p q => (fst p <= fst q)%R) m ->
  StronglySorted (fun x y => (key x <= key y)%R) (map snd m).
Proof.
  intros Hk Hs. induction Hs as [|p m Hs IH Hall]; [constructor|].
  inversion Hk as [|? ? Hp Hk']; subst.
  cbn [map]. constructor; [now apply IH|].
  apply Forall_forall. intros y Hy. apply in_map_iff in Hy.
  destruct Hy as [q [<- Hq]].
  rewrite Forall_forall in Hall, Hk'.
  rewrite <- Hp, <- (Hk' q Hq). now apply Hall.
Qed.

Lemma map_snd_keyed (l : list A) : map snd (map (fun x => (key x, x)) l) = l.
Proof.
  rewrite map_map. simpl. apply map_id.
Qed.

(** With every key defined, [sorted] returns the stable ranking. *)
Lemma sorted_stable (l : list A) :
  (forall x, In x l -> f x = Ok (key x)) ->
  exists ranked, sorted f l = Ok ranked /\ stable_ranking key l ranked.
Proof.
  intros H. unfold sorted. rewrite (decorate_ok l H). simpl.
  set (kl := map (fun x => (key x, x)) l).
  exists (map snd (sort_keyed kl)). split; [reflexivity|].
  pose proof (keyed_all l (sort_keyed kl) (sort_keyed_perm kl)) as Hall.
  pose proof (keyed_all l kl (Permutation_refl _)) as Hall0.
  repeat split.
  - rewrite <- (map_snd_keyed l) at 1.
    apply Permutation_map, sort_keyed_perm.
  - apply keyed_sorted; [exact Hall|apply sort_keyed_sorted].
  - intros k. rewrite <- (keyed_filter k _ Hall), sort_keyed_filter.
    rewrite (keyed_filter k _ Hall0). unfold kl.
    now rewrite map_snd_keyed.
Qed.

Lemma stable_ranking_length (l ranked : list A) :
  stable_ranking key l ranked -> length ranked = length l.
Proof.
  intros [Hp _]. symmetry. now apply Permutation_length.
Qed.

Lemma filter_key_head (x : A) (l : list A) :
  filter (fun y => Reqb (key y) (key x)) (x :: l)
  = x :: filter (fun y => Reqb (key y) (key x)) l.
Proof.
  cbn [filter]. replace (Reqb (key x) (key x)) with true
    by (symmetry; now apply Reqb_true).
  reflexivity.
Qed.

(** A list has at most one stable ranking: whatever stable sort is run,
    the result is the same. *)
Lemma sorted_same_filters (r1 : list A) :
  forall r2,
    StronglySorted (fun x y => (key x <= key y)%R) r1 ->
    StronglySorted (fun x y => (key x <= key y)%R) r2 ->
    (forall k, filter (fun y => Reqb (key y) k) r1
               = filter (fun y => Reqb (key y) k) r2) ->
    r1 = r2.
Proof.
  induction r1 as [|x r1 IH]; intros r2 S1 S2 Hf.
  - destruct r2 as [|y r2]; [reflexivity|].
    specialize (Hf (key y)). rewrite filter_key_head in Hf. discriminate.
  - destruct r2 as [|y r2].
    { specialize (Hf (key x)). rewrite filter_key_head in Hf.
      discriminate. }
    inversion S1 as [|? ? S1' A1]; inversion S2 as [|? ? S2' A2]; subst.
    rewrite Forall_forall in A1, A2.
    assert (Hxy : (key x <= key y)%R).
    { assert (Hin : In y (x :: r1)).
      { apply (proj1 (filter_In (fun z => Reqb (key z) (key y)) y _)).
        rewrite (Hf (key y)), filter_key_head. now left. }
      destruct Hin as [->|Hin]; [lra|now apply A1]. }
    assert (Hyx : (key y <= key x)%R).
    { assert (Hin : In x (y :: r2)).
      { apply (proj1 (filter_In (fun z => Reqb (key z) (key x)) x _)).
        rewrite <- (Hf (key x)), filter_key_head. now left. }
      destruct Hin as [->|Hin]; [lra|now apply A2]. }
    assert (Hk : key y = key x) by lra.
    pose proof (Hf (key x)) as H0. rewrite filter_key_head in H0.
    cbn [filter] in H0. rewrite Hk in H0.
    replace (Reqb (key x) (key x)) with true in H0
      by (symmetry; now apply Reqb_true).
    injection H0 as Hhd Htl. subst y. f_equal.
    apply IH; auto. intros k. specialize (Hf k). cbn [filter] in Hf.
    destruct (Reqb (key x) k) eqn:E.
    + now injection Hf.
    + exact Hf.
Qed.

Lemma stable_ranking_unique (l r1 r2 : list A) :
  stable_ranking key l r1 -> stable_ranking key l r2 -> r1 = r2.
Proof.
  intros (_ & S1 & F1) (_ & S2 & F2).
  apply sorted_same_filters; auto. intros k. now rewrite F1, F2.
Qed.

End Sorting.

(** ** The distance of two tracks *)

Section Distance.

Variable arrow_get : string -> result Z.

Lemma aceh_distance_ok (a b : string) (ad bd : Z) :
  arrow_get a = Ok ad -> arrow_get b = Ok bd ->
  aceh_distance arrow_get a b
  = Ok (aceh_of_days (timedelta_days (ad - bd))).
Proof.
  intros Ha Hb. unfold aceh_distance. rewrite Ha, Hb. reflexivity.
Qed.

Lemma aceh_distance_raise_l (a b : string) (e : exn) :
  arrow_get a = Raise e -> aceh_distance arrow_get a b = Raise e.
Proof. intros Ha. unfold aceh_distance. now rewrite Ha. Qed.

Lemma aceh_distance_raise_r (a b : string) (ad : Z) (e : exn) :
  arrow_get a = Ok ad -> arrow_get b = Raise e ->
  aceh_distance arrow_get a b = Raise e.
Proof. intros Ha Hb. unfold aceh_distance. now rewrite Ha, Hb. Qed.

Lemma get_tracks_distance_ok
    (a_track a_artist a_album a_year
     b_track b_artist b_album b_year : string) (ad bd : Z) :
  arrow_get a_year = Ok ad -> arrow_get b_year = Ok bd ->
  get_tracks_distance arrow_get a_track a_artist a_album a_year
                      b_track b_artist b_album b_year
  = Ok (sqrt (ro_distance a_track b_track ^ 2
              + ro_distance a_artist b_artist ^ 2
              + ro_distance a_album b_album ^ 2
              + aceh_of_days (timedelta_days (ad - bd)) ^ 2) / 2)%R.
Proof.
  intros Ha Hb. unfold get_tracks_distance.
  rewrite (aceh_distance_ok _ _ _ _ Ha Hb). reflexivity.
Qed.

Lemma get_tracks_distance_raise
    (a_track a_artist a_album a_year
     b_track b_artist b_album b_year : string) (e : exn) :
  aceh_distance arrow_get a_year b_year = Raise e ->
  get_tracks_distance arrow_get a_track a_artist a_album a_year
                      b_track b_artist b_album b_year = Raise e.
Proof. intros H. unfold get_tracks_distance. now rewrite H. Qed.

(** The four squares add up to less than 4. *)
Lemma squares_range (a_track a_artist a_album
                     b_track b_artist b_album : string) (days : Z) :
  (0 <= ro_distance a_track b_track ^ 2
        + ro_distance a_artist b_artist ^ 2
        + ro_distance a_album b_album ^ 2
        + aceh_of_days days ^ 2 < 4)%R.
Proof.
  pose proof (ro_distance_sq_range a_track b_track) as Ht.
  pose proof (ro_distance_sq_range a_artist b_artist) as Ha.
  pose proof (ro_distance_sq_range a_album b_album) as Hl.
  pose proof (aceh_of_days_range days) as [Hy0 Hy1].
  assert (Hy : (0 <= aceh_of_days days ^ 2 < 1)%R).
  { split; [apply pow2_ge_0|]. nra. }
  lra.
Qed.

Lemma half_sqrt_range (x : R) :
  (0 <= x < 4 -> 0 <= sqrt x / 2 < 1)%R.
Proof.
  intros [H0 H4]. pose proof (sqrt_pos x) as Hp.
  assert (Hlt : (sqrt x < sqrt 4)%R) by (apply sqrt_lt_1_alt; lra).
  replace 4%R with (2 ^ 2)%R in Hlt by ring.
  rewrite sqrt_pow2 in Hlt by lra. lra.
Qed.

Lemma get_tracks_distance_same (track artist album year : string) (t : Z) :
  arrow_get year = Ok t ->
  get_tracks_distance arrow_get track artist album year
                      track artist album year = Ok 0%R.
Proof.
  intros Ht.
  rewrite (get_tracks_distance_ok _ _ _ _ _ _ _ _ t t Ht Ht).
  rewrite !ro_distance_refl, Z.sub_diag.
  unfold timedelta_days. rewrite Z.div_0_l by discriminate.
  rewrite aceh_of_days_0.
  replace (0 ^ 2 + 0 ^ 2 + 0 ^ 2 + 0 ^ 2)%R with 0%R by ring.
  rewrite sqrt_0. f_equal. field.
Qed.

Lemma distance_raises (song : Song) (c : AMTrack) (e : exn) :
  arrow_get (releaseDate c) = Raise e
  \/ arrow_get (release_date song) = Raise e ->
  exists e', distance arrow_get c song = Raise e'.
Proof.
  intros H. unfold distance.
  destruct (arrow_get (releaseDate c)) as [ad|e1] eqn:Ea.
  - destruct H as [H|H]; [discriminate|]. exists e.
    apply get_tracks_distance_raise.
    now apply aceh_distance_raise_r with (ad := ad).
  - exists e1. apply get_tracks_distance_raise.
    now apply aceh_distance_raise_l.
Qed.

Lemma distance_score (song : Song) (c : AMTrack) (d : R) :
  distance arrow_get c song = Ok d -> score arrow_get song c = d.
Proof. intros H. unfold score. now rewrite H. Qed.

Lemma distance_scored (song : Song) (l : list AMTrack) :
  (forall c, In c l -> exists d, distance arrow_get c song = Ok d) ->
  forall c, In c l ->
            distance arrow_get c song = Ok (score arrow_get song c).
Proof.
  intros H c Hc. destruct (H c Hc) as [d Hd].
  now rewrite (distance_score _ _ _ Hd).
Qed.

End Distance.

(** C5. Two tracks with the same title, artist and album strings and the
    same release date string (one that parses) are at distance exactly 0. *)
Theorem get_tracks_distance_identical :
  forall (arrow_get : string -> result Z)
         (track artist album year : string) (t : Z),
    arrow_get year = Ok t ->
    get_tracks_distance arrow_get track artist album year
                        track artist album year = Ok 0%R.
Proof.
  intros arrow_get track artist album year t Ht.
  now apply get_tracks_distance_same with (t := t).
Qed.

Lemma get_tracks_distance_identical_witness :
  get_tracks_distance Iso.iso_get "Hello" "Adele" "25" "2015-10-23"
                      "Hello" "Adele" "25" "2015-10-23" = Ok 0%R.
Proof.
  apply (get_tracks_distance_identical Iso.iso_get
           "Hello" "Adele" "25" "2015-10-23" 63581155200000000%Z).
  vm_compute. reflexivity.
Defined.

(** C6. With both dates parsed, the distance is the square root of the
    sum of the four squared sub-distances, divided by 2; it is never
    negative and at most 1.2. *)
Theorem get_tracks_distance_range :
  forall (arrow_get : string -> result Z)
         (a_track a_artist a_album a_year
          b_track b_artist b_album b_year : string) (ad bd : Z),
    arrow_get a_year = Ok ad -> arrow_get b_year = Ok bd ->
    exists d : R,
      get_tracks_distance arrow_get a_track a_artist a_album a_year
                          b_track b_artist b_album b_year = Ok d
      /\ d = (sqrt (ro_distance a_track b_track ^ 2
                    + ro_distance a_artist b_artist ^ 2
                    + ro_distance a_album b_album ^ 2
                    + aceh_of_days (timedelta_days (ad - bd)) ^ 2) / 2)%R
      /\ (0 <= d <= 12 / 10)%R.
Proof.
  intros arrow_get a_track a_artist a_album a_year
         b_track b_artist b_album b_year ad bd Ha Hb.
  eexists. split; [now apply get_tracks_distance_ok with (ad := ad) (bd := bd)|].
  split; [reflexivity|].
  pose proof (half_sqrt_range _
                (squares_range a_track a_artist a_album
                               b_track b_artist b_album
                               (timedelta_days (ad - bd)))).
  lra.
Qed.

Lemma get_tracks_distance_range_witness :
  exists d : R,
    get_tracks_distance Iso.iso_get "Hello" "Adele" "25" "2015-10-23"
                        "Hello" "Adele" "25 (Deluxe)" "2015-11-20" = Ok d
    /\ d = (sqrt (ro_distance "Hello" "Hello" ^ 2
                  + ro_distance "Adele" "Adele" ^ 2
                  + ro_distance "25" "25 (Deluxe)" ^ 2
                  + aceh_of_days
                      (timedelta_days (63581155200000000
                                       - 63583574400000000)) ^ 2) / 2)%R
    /\ (0 <= d <= 12 / 10)%R.
Proof.
  apply (get_tracks_distance_range Iso.iso_get
           "Hello" "Adele" "25" "2015-10-23"
           "Hello" "Adele" "25 (Deluxe)" "2015-11-20"
           63581155200000000%Z 63583574400000000%Z);
    vm_compute; reflexivity.
Defined.

(** X24. In the gap the code measures, [(ad - bd).days], a floor of the
    signed difference, the temporal sub-distance does not decrease when
    the absolute value of that gap grows, is 0 when that gap is 0, and
    stays strictly below 1 whatever the gap. *)
Theorem aceh_distance_saturates :
  forall (arrow_get : string -> result Z)
         (a b a' b' : string) (ad bd ad' bd' : Z),
    arrow_get a = Ok ad -> arrow_get b = Ok bd ->
    arrow_get a' = Ok ad' -> arrow_get b' = Ok bd' ->
    exists x y : R,
      aceh_distance arrow_get a b = Ok x
      /\ aceh_distance arrow_get a' b' = Ok y
      /\ ((Z.abs (timedelta_days (ad - bd))
           <= Z.abs (timedelta_days (ad' - bd')))%Z -> (x <= y)%R)
      /\ (timedelta_days (ad - bd) = 0%Z -> x = 0%R)
      /\ (0 <= x < 1)%R.
Proof.
  intros arrow_get a b a' b' ad bd ad' bd' Ha Hb Ha' Hb'.
  exists (aceh_of_days (timedelta_days (ad - bd))),
         (aceh_of_days (timedelta_days (ad' - bd'))).
  split; [now apply aceh_distance_ok|].
  split; [now apply aceh_distance_ok|].
  split; [apply aceh_of_days_mono|].
  split; [|apply aceh_of_days_range].
  intros ->. apply aceh_of_days_0.
Qed.

Lemma aceh_distance_saturates_witness :
  exists x y : R,
    aceh_distance Iso.iso_get "2015-10-23" "2015-10-23" = Ok x
    /\ aceh_distance Iso.iso_get "2015-10-23" "2015-11-20" = Ok y
    /\ ((Z.abs (timedelta_days (63581155200000000 - 63581155200000000))
         <= Z.abs (timedelta_days (63581155200000000 - 63583574400000000)))%Z
        -> (x <= y)%R)
    /\ (timedelta_days (63581155200000000 - 63581155200000000) = 0%Z
        -> x = 0%R)
    /\ (0 <= x < 1)%R.
Proof.
  apply (aceh_distance_saturates Iso.iso_get
           "2015-10-23" "2015-10-23" "2015-10-23" "2015-11-20"
           63581155200000000%Z 63581155200000000%Z
           63581155200000000%Z 63583574400000000%Z);
    vm_compute; reflexivity.
Defined.

(** C7, at the failing input: two dates of the same calendar day, the
    first written without a time of day and the second 7 hours into
    that day.  [(ad - bd).days] is the floor [-1] of minus 7 hours, so
    the sub-distance is positive where the claim has 0 for the same day;
    and for two dates 23 hours apart, the later one first, it is 0: the
    dates nearer to each other score above the ones farther apart. *)
Theorem aceh_distance_same_day :
  exists x y : R,
    aceh_distance Iso.iso_get "2015-10-23" "2015-10-23T07:00:00Z" = Ok x
    /\ aceh_distance Iso.iso_get "2015-10-23T23:00:00Z" "2015-10-23" = Ok y
    /\ (0 < x)%R
    /\ y = 0%R.
Proof.
  exists (aceh_of_days (-1)), (aceh_of_days 0).
  split; [|split; [|split]].
  - rewrite (aceh_distance_ok Iso.iso_get _ _
               63581155200000000%Z 63581180400000000%Z);
      [reflexivity|vm_compute; reflexivity|vm_compute; reflexivity].
  - rewrite (aceh_distance_ok Iso.iso_get _ _
               63581238000000000%Z 63581155200000000%Z);
      [reflexivity|vm_compute; reflexivity|vm_compute; reflexivity].
  - apply aceh_of_days_pos. discriminate.
  - apply aceh_of_days_0.
Qed.

(** The day gap is the floor of the signed difference: an instant a few
    hours before another one of the same calendar day is one day away. *)
Remark timedelta_days_floor :
  aceh_distance Iso.iso_get "2005-03-01" "2005-03-01T08:00:00Z"
  = Ok (aceh_of_days (-1))
  /\ aceh_distance Iso.iso_get "2005-03-01T08:00:00Z" "2005-03-01"
     = Ok (aceh_of_days 0)
  /\ (0 < aceh_of_days (-1))%R.
Proof.
  split; [|split].
  - rewrite (aceh_distance_ok Iso.iso_get _ _
               63245232000000000%Z 63245260800000000%Z);
      [reflexivity|vm_compute; reflexivity|vm_compute; reflexivity].
  - rewrite (aceh_distance_ok Iso.iso_get _ _
               63245260800000000%Z 63245232000000000%Z);
      [reflexivity|vm_compute; reflexivity|vm_compute; reflexivity].
  - apply aceh_of_days_pos. discriminate.
Qed.

(** C8. The lexical sub-distance is defined on empty strings: two empty
    strings have ratio 1 and sub-distance 0; an empty string against one
    that is not has ratio 0 and sub-distance 1. *)
Theorem ro_distance_empty :
  forall a b : string,
    (a = EmptyString -> b = EmptyString ->
     ro_ratio a b = 1%R /\ ro_distance a b = 0%R)
    /\ (a = EmptyString -> b <> EmptyString ->
        ro_ratio a b = 0%R /\ ro_distance a b = 1%R)
    /\ (a <> EmptyString -> b = EmptyString ->
        ro_ratio a b = 0%R /\ ro_distance a b = 1%R).
Proof.
  intros a b. unfold ro_distance, ro_ratio. repeat split.
  - subst. apply ratio_nil_nil.
  - subst. simpl. rewrite ratio_nil_nil. lra.
  - subst. apply ratio_nil_l. now rewrite chars_upper_nil.
  - subst. simpl (chars (upper "")). rewrite ratio_nil_l; [lra|].
    now rewrite chars_upper_nil.
  - subst. apply ratio_nil_r. now rewrite chars_upper_nil.
  - subst. simpl (chars (upper "")). rewrite ratio_nil_r; [lra|].
    now rewrite chars_upper_nil.
Qed.

Lemma ro_distance_empty_witness :
  (ro_ratio "" "" = 1%R /\ ro_distance "" "" = 0%R)
  /\ (ro_ratio "" "Hello" = 0%R /\ ro_distance "" "Hello" = 1%R)
  /\ (ro_ratio "Hello" "" = 0%R /\ ro_distance "Hello" "" = 1%R).
Proof.
  split; [|split].
  - apply (proj1 (ro_distance_empty "" "")); reflexivity.
  - apply (proj1 (proj2 (ro_distance_empty "" "Hello")));
      [reflexivity|discriminate].
  - apply (proj2 (proj2 (ro_distance_empty "Hello" "")));
      [discriminate|reflexivity].
Defined.

(** C4. A single candidate is selected as it is: no distance is computed,
    so neither its distance nor the state of its date matters. *)
Theorem resolve_single_candidate :
  forall (arrow_get : string -> result Z) (_err : R) (_auto : bool)
         (_treshold : R) (song : Song) (c : AMTrack) (stdin : list string),
    resolve arrow_get _err _auto _treshold song [c] stdin
    = Ok (Selected c, stdin).
Proof.
  intros. unfold resolve. reflexivity.
Qed.

(** An instance of C4: the one candidate has no readable date. *)
Example resolve_single_undated :
  distance Iso.iso_get Sample.hello_undated Sample.hello = Raise ParserError
  /\ resolve Iso.iso_get (11 / 100) true (4 / 10) Sample.hello
             [Sample.hello_undated] []
     = Ok (Selected Sample.hello_undated, []).
Proof.
  split; [|reflexivity].
  unfold distance. apply get_tracks_distance_raise.
  apply aceh_distance_raise_l. vm_compute. reflexivity.
Qed.

(** ** The decision for one row *)

Section Policy.

Variable arrow_get : string -> result Z.

Lemma decorate_raise_in {A : Type} (f : A -> result R) (l : list A)
    (c : A) (e : exn) :
  In c l -> f c = Raise e ->
  exists c' e', In c' l /\ f c' = Raise e' /\ decorate f l = Raise e'.
Proof.
  induction l as [|x l IH]; intros Hin Hc; [contradiction|]. simpl.
  destruct (f x) as [d|e'] eqn:Ex; simpl.
  - destruct Hin as [->|Hin]; [congruence|].
    destruct (IH Hin Hc) as (c' & e' & H1 & H2 & H3).
    exists c', e'. rewrite H3. auto.
  - exists x, e'. auto.
Qed.

(** With two candidates or more, a distance that raises ends the row. *)
Lemma resolve_raise (_err : R) (_auto : bool) (_treshold : R)
    (song : Song) (candidates : list AMTrack) (stdin : list string)
    (c : AMTrack) (e : exn) :
  2 <= length candidates ->
  In c candidates -> distance arrow_get c song = Raise e ->
  exists c' e',
    In c' candidates /\ distance arrow_get c' song = Raise e'
    /\ resolve arrow_get _err _auto _treshold song candidates stdin
       = Raise e'.
Proof.
  intros Hlen Hin Hc.
  destruct (decorate_raise_in (fun x => distance arrow_get x song)
              candidates c e Hin Hc) as (c' & e' & H1 & H2 & H3).
  exists c', e'. split; [exact H1|]. split; [exact H2|].
  destruct candidates as [|c1 [|c2 l]]; simpl in Hlen; try lia.
  unfold resolve, sorted. rewrite H3. reflexivity.
Qed.

Lemma resolve_scored (_err : R) (_auto : bool) (_treshold : R)
    (song : Song) (candidates : list AMTrack) (stdin : list string) :
  2 <= length candidates ->
  (forall c, In c candidates ->
             distance arrow_get c song = Ok (score arrow_get song c)) ->
  exists top rest,
    stable_ranking (score arrow_get song) candidates (top :: rest)
    /\ resolve arrow_get _err _auto _treshold song candidates stdin
       = if Rltb (score arrow_get song top) _err
         then Ok (Selected top, stdin)
         else if _auto && Rltb (score arrow_get song top) _treshold
              then Ok (Selected top, stdin)
              else defer (selectSong arrow_get (top :: rest) song stdin).
Proof.
  intros Hlen Hk.
  destruct (sorted_stable (fun x => distance arrow_get x song)
              (score arrow_get song) candidates Hk) as [ranked [Hs Hr]].
  pose proof (stable_ranking_length _ _ _ Hr) as Hl.
  assert (Hk' : forall c, In c ranked ->
                  distance arrow_get c song = Ok (score arrow_get song c)).
  { intros c Hc. apply Hk. destruct Hr as [Hp _].
    now apply (Permutation_in _ (Permutation_sym Hp)). }
  destruct ranked as [|top rest]; [simpl in Hl; lia|].
  exists top, rest. split; [exact Hr|].
  destruct candidates as [|c1 [|c2 l]]; simpl in Hlen; try lia.
  unfold resolve. rewrite Hs. cbn [bind].
  rewrite (decorate_ok _ (score arrow_get song) _ Hk'). cbn [bind].
  unfold item. cbn [nth_error bind].
  rewrite (Hk' top (or_introl eq_refl)). reflexivity.
Qed.

(** An exception of a row is the exception of the whole run: nothing in
    [add_tracks_from_CSV] catches it. *)
Lemma add_tracks_from_CSV_raise (addTrack : Z -> bool) (_add_tracks : bool)
    (_err : R) (_auto : bool) (_treshold : R) (song : Song)
    (candidates : list AMTrack) (rows : list (Song * list AMTrack))
    (stdin : list string) (e : exn) :
  resolve arrow_get _err _auto _treshold song candidates stdin = Raise e ->
  add_tracks_from_CSV arrow_get addTrack _add_tracks _err _auto _treshold
    ((song, candidates) :: rows) stdin = Raise e.
Proof.
  intros H. cbn [add_tracks_from_CSV]. rewrite H. reflexivity.
Qed.

End Policy.

(** C1. With two candidates or more, all of them scored, the candidates
    are ranked by ascending distance, ties in their original order; the top
    one is selected when its distance is below [_err], or when [_auto] is
    set and its distance is below [_treshold]; otherwise the decision is
    what the chooser answers on the whole ranking. *)
Theorem resolve_ranked_tiers :
  forall (arrow_get : string -> result Z) (_err : R) (_auto : bool)
         (_treshold : R) (song : Song) (candidates : list AMTrack)
         (stdin : list string),
    2 <= length candidates ->
    (forall c, In c candidates ->
               exists d, distance arrow_get c song = Ok d) ->
    exists top rest,
      stable_ranking (score arrow_get song) candidates (top :: rest)
      /\ distance arrow_get top song = Ok (score arrow_get song top)
      /\ resolve arrow_get _err _auto _treshold song candidates stdin
         = if Rltb (score arrow_get song top) _err
           then Ok (Selected top, stdin)
           else if _auto && Rltb (score arrow_get song top) _treshold
                then Ok (Selected top, stdin)
                else defer (selectSong arrow_get (top :: rest) song stdin).
Proof.
  intros arrow_get _err _auto _treshold song candidates stdin Hlen Hd.
  pose proof (distance_scored arrow_get song candidates Hd) as Hk.
  destruct (resolve_scored arrow_get _err _auto _treshold song candidates
              stdin Hlen Hk) as (top & rest & Hr & Hres).
  exists top, rest. split; [exact Hr|]. split; [|exact Hres].
  apply Hk. destruct Hr as [Hp _].
  apply (Permutation_in _ (Permutation_sym Hp)). now left.
Qed.

Lemma resolve_ranked_tiers_witness :
  exists top rest,
    stable_ranking (score Iso.iso_get Sample.hello)
                   [Sample.hello_deluxe; Sample.hello_am] (top :: rest)
    /\ distance Iso.iso_get top Sample.hello
       = Ok (score Iso.iso_get Sample.hello top)
    /\ resolve Iso.iso_get (11 / 100) false (4 / 10) Sample.hello
               [Sample.hello_deluxe; Sample.hello_am] []
       = if Rltb (score Iso.iso_get Sample.hello top) (11 / 100)
         then Ok (Selected top, [])
         else if false && Rltb (score Iso.iso_get Sample.hello top) (4 / 10)
              then Ok (Selected top, [])
              else defer (selectSong Iso.iso_get (top :: rest)
                                     Sample.hello []).
Proof.
  apply (resolve_ranked_tiers Iso.iso_get (11 / 100) false (4 / 10)
           Sample.hello [Sample.hello_deluxe; Sample.hello_am] []).
  - simpl. lia.
  - intros c [<-|[<-|[]]]; eexists; unfold distance;
      eapply get_tracks_distance_ok; vm_compute; reflexivity.
Defined.

(** The sample row, worked out: the nearer candidate comes first in the
    ranking and is within the rounding error. *)
Example resolve_sample_row :
  resolve Iso.iso_get (11 / 100) false (4 / 10) Sample.hello
          [Sample.hello_deluxe; Sample.hello_am] []
  = Ok (Selected Sample.hello_am, []).
Proof.
  assert (Ham : distance Iso.iso_get Sample.hello_am Sample.hello = Ok 0%R).
  { unfold distance. apply get_tracks_distance_same
      with (t := 63581155200000000%Z). vm_compute. reflexivity. }
  assert (Hdl : exists d, distance Iso.iso_get Sample.hello_deluxe
                            Sample.hello = Ok d /\ (0 < d)%R).
  { eexists. split.
    - unfold distance. eapply get_tracks_distance_ok; vm_compute; reflexivity.
    - set (days := timedelta_days _).
      assert (Hy : (0 < aceh_of_days days)%R)
        by (apply aceh_of_days_pos; vm_compute; discriminate).
      apply Rdiv_lt_0_compat; [|lra]. apply sqrt_lt_R0.
      pose proof (pow2_ge_0 (ro_distance "Hello" "Hello")).
      pose proof (pow2_ge_0 (ro_distance "Adele" "Adele")).
      pose proof (pow2_ge_0 (ro_distance "25 (Deluxe)" "25")).
      assert (0 < aceh_of_days days ^ 2)%R by nra.
      simpl trackName; simpl artistName; simpl collectionName;
        simpl title; simpl artist; simpl album. lra. }
  destruct Hdl as [d [Hdl Hd]].
  assert (Hk : forall c, In c [Sample.hello_deluxe; Sample.hello_am] ->
                 distance Iso.iso_get c Sample.hello
                 = Ok (score Iso.iso_get Sample.hello c)).
  { intros c [<-|[<-|[]]]; unfold score.
    - now rewrite Hdl.
    - now rewrite Ham. }
  destruct (resolve_scored Iso.iso_get (11 / 100) false (4 / 10)
              Sample.hello [Sample.hello_deluxe; Sample.hello_am] []
              (le_n 2) Hk)
    as (top & rest & (Hp & Hs & _) & Hres).
  rewrite Hres.
  assert (Htop : top = Sample.hello_am).
  { assert (Hin : In Sample.hello_am (top :: rest))
      by (apply (Permutation_in _ Hp); right; now left).
    destruct Hin as [Hin|Hin]; [exact Hin|].
    inversion Hs as [|? ? _ Hall]; subst.
    rewrite Forall_forall in Hall. specialize (Hall _ Hin).
    assert (Hin' : In top [Sample.hello_deluxe; Sample.hello_am])
      by (apply (Permutation_in _ (Permutation_sym Hp)); now left).
    destruct Hin' as [<-|[<-|[]]]; [|reflexivity].
    unfold score in Hall. rewrite Hdl, Ham in Hall. lra. }
  subst top. unfold score. rewrite Ham.
  replace (Rltb 0 (11 / 100)) with true
    by (symmetry; apply Rltb_true; lra).
  reflexivity.
Qed.

(** C2, as stated, fails: with one undated candidate among two, no
    decision comes out, where leaving that candidate aside would select
    the other one; and with two undated candidates the outcome is not
    the skip that leaving both aside would give. *)
Lemma resolve_isolation_counterexample :
  resolve Iso.iso_get (11 / 100) true (4 / 10) Sample.hello
          [Sample.hello_undated; Sample.hello_am] []
  = Raise ParserError
  /\ resolve_isolating Iso.iso_get (11 / 100) true (4 / 10) Sample.hello
                       [Sample.hello_undated; Sample.hello_am] []
     = Ok (Selected Sample.hello_am, [])
  /\ resolve Iso.iso_get (11 / 100) true (4 / 10) Sample.hello
             [Sample.hello_undated; Sample.hello_undated] []
     = Raise ParserError
  /\ resolve_isolating Iso.iso_get (11 / 100) true (4 / 10) Sample.hello
                       [Sample.hello_undated; Sample.hello_undated] []
     = Ok (Skipped, []).
Proof.
  assert (Ham : distance Iso.iso_get Sample.hello_am Sample.hello = Ok 0%R).
  { unfold distance. apply get_tracks_distance_same
      with (t := 63581155200000000%Z). vm_compute. reflexivity. }
  assert (Hun : distance Iso.iso_get Sample.hello_undated Sample.hello
                = Raise ParserError).
  { unfold distance. apply get_tracks_distance_raise.
    apply aceh_distance_raise_l. vm_compute. reflexivity. }
  split; [|split; [|split]].
  - unfold resolve, sorted. cbn [decorate]. rewrite Hun. reflexivity.
  - unfold resolve_isolating, scoreable. cbn [filter].
    rewrite Hun, Ham. unfold sorted. cbn [decorate]. rewrite Ham.
    cbn [bind sort_keyed fold_right insert_keyed map snd item nth_error].
    rewrite Ham. cbn [bind].
    replace (Rltb 0 (11 / 100)) with true
      by (symmetry; apply Rltb_true; lra).
    reflexivity.
  - unfold resolve, sorted. cbn [decorate]. rewrite Hun. reflexivity.
  - unfold resolve_isolating, scoreable. cbn [filter].
    rewrite Hun. reflexivity.
Qed.

(** C2, amended. With two candidates or more, a release date that fails
    to parse, of some candidate or of the source track, is not isolated
    to one candidate: the others are not ranked without it, and no
    candidate is selected for the row, whatever the parameters and the
    replies at hand. *)
Theorem resolve_parse_failure_selects_nothing :
  forall (arrow_get : string -> result Z) (_err : R) (_auto : bool)
         (_treshold : R) (song : Song) (candidates : list AMTrack)
         (stdin : list string) (c : AMTrack) (e : exn),
    2 <= length candidates ->
    In c candidates ->
    arrow_get (releaseDate c) = Raise e
    \/ arrow_get (release_date song) = Raise e ->
    forall (selected : AMTrack) (rest : list string),
      resolve arrow_get _err _auto _treshold song candidates stdin
      <> Ok (Selected selected, rest).
Proof.
  intros arrow_get _err _auto _treshold song candidates stdin c e
         Hlen Hin Hparse selected rest H.
  destruct (distance_raises arrow_get song c e Hparse) as [e0 He0].
  destruct (resolve_raise arrow_get _err _auto _treshold song candidates
              stdin c e0 Hlen Hin He0) as [c' [e' [_ [_ Hr]]]].
  rewrite Hr in H. discriminate.
Qed.

Lemma resolve_parse_failure_selects_nothing_witness :
  resolve Iso.iso_get (11 / 100) true (4 / 10) Sample.hello
          [Sample.hello_am; Sample.hello_undated] []
  <> Ok (Selected Sample.hello_am, []).
Proof.
  apply (resolve_parse_failure_selects_nothing Iso.iso_get (11 / 100) true
           (4 / 10) Sample.hello [Sample.hello_am; Sample.hello_undated] []
           Sample.hello_undated ParserError).
  - simpl. lia.
  - simpl. right. left. reflexivity.
  - left. vm_compute. reflexivity.
Defined.

(** The failure as the code has it: nothing in [add_tracks_from_CSV]
    catches the exception of a candidate whose distance raises, and it
    leaves the row decision ([getBestMatch] catches the same exception
    and gives the track up). *)
Lemma resolve_parse_failure_propagates :
  forall (arrow_get : string -> result Z) (_err : R) (_auto : bool)
         (_treshold : R) (song : Song) (candidates : list AMTrack)
         (stdin : list string) (c : AMTrack) (e : exn),
    2 <= length candidates ->
    In c candidates ->
    arrow_get (releaseDate c) = Raise e
    \/ arrow_get (release_date song) = Raise e ->
    exists c' e',
      In c' candidates
      /\ distance arrow_get c' song = Raise e'
      /\ resolve arrow_get _err _auto _treshold song candidates stdin
         = Raise e'.
Proof.
  intros arrow_get _err _auto _treshold song candidates stdin c e
         Hlen Hin Hparse.
  destruct (distance_raises arrow_get song c e Hparse) as [e0 He0].
  now apply resolve_raise with (c := c) (e := e0).
Qed.

(** ** The best match of the export path *)

Section BestMatch.

Variable arrow_get : string -> result Z.
Variables a_track a_artist a_album a_year : string.
Variable key : AMTrack -> R.

Local Notation "'dist'" :=
  (fun tr => get_tracks_distance arrow_get a_track a_artist a_album a_year
               (trackName tr) (artistName tr) (collectionName tr)
               (releaseDate tr)).

(** The loop either keeps its accumulators, no track being nearer, or
    ends on the first track of least distance. *)
Lemma best_match_loop_spec (tracks : list AMTrack) :
  forall (nearest : R) (best_match : option AMTrack),
    (forall tr, In tr tracks -> dist tr = Ok (key tr)) ->
    exists n' b',
      best_match_loop arrow_get a_track a_artist a_album a_year
                      tracks nearest best_match = Ok (n', b')
      /\ ((n' = nearest /\ b' = best_match
           /\ forall tr, In tr tracks -> (nearest <= key tr)%R)
          \/ exists l1 tr l2,
               tracks = l1 ++ tr :: l2
               /\ n' = key tr /\ b' = Some tr
               /\ (key tr < nearest)%R
               /\ (forall c, In c l1 -> (key tr < key c)%R)
               /\ (forall c, In c l2 -> (key tr <= key c)%R)).
Proof.
  induction tracks as [|t tracks IH]; intros nearest best Hk.
  - exists nearest, best. split; [reflexivity|]. left.
    repeat split. intros tr [].
  - cbn [best_match_loop]. rewrite (Hk t (or_introl eq_refl)). cbn [bind].
    assert (Hk' : forall tr, In tr tracks -> dist tr = Ok (key tr))
      by (intros tr Htr; apply Hk; now right).
    destruct (Rltb (key t) nearest) eqn:E.
    + apply Rltb_true in E.
      destruct (IH (key t) (Some t) Hk') as (n' & b' & Hrun & Hcase).
      exists n', b'. split; [exact Hrun|]. right.
      destruct Hcase as [(-> & -> & Hall)
                        |(l1 & tr & l2 & -> & -> & -> & Hlt & H1 & H2)].
      * exists [], t, tracks. repeat split; auto. intros c [].
      * exists (t :: l1), tr, l2. repeat split; auto; [lra|].
        intros c [<-|Hc]; [exact Hlt|now apply H1].
    + apply Rltb_false in E.
      destruct (IH nearest best Hk') as (n' & b' & Hrun & Hcase).
      exists n', b'. split; [exact Hrun|].
      destruct Hcase as [(-> & -> & Hall)
                        |(l1 & tr & l2 & -> & -> & -> & Hlt & H1 & H2)].
      * left. repeat split. intros tr [<-|Htr]; [exact E|now apply Hall].
      * right. exists (t :: l1), tr, l2. repeat split; auto.
        intros c [<-|Hc]; [lra|now apply H1].
Qed.

End BestMatch.

Lemma result_ok_value (r : result R) :
  (exists d, r = Ok d) ->
  r = Ok (match r with Ok d => d | Raise _ => 0%R end).
Proof. intros [d ->]. reflexivity. Qed.

(** C9. With every candidate scored, [get_best_match] returns either
    [(1.0, None)], when no candidate is below 1.0 (an empty list
    included), or the first candidate of least distance together with
    that distance, which is below 1.0. *)
Theorem get_best_match_nearest :
  forall (arrow_get : string -> result Z)
         (a_track a_artist a_album a_year : string)
         (tracks : list AMTrack) (key : AMTrack -> R),
    (forall tr, In tr tracks ->
       get_tracks_distance arrow_get a_track a_artist a_album a_year
         (trackName tr) (artistName tr) (collectionName tr) (releaseDate tr)
       = Ok (key tr)) ->
    exists (nearest : R) (best_match : option AMTrack),
      get_best_match arrow_get a_track a_artist a_album a_year tracks
      = Ok (nearest, best_match)
      /\ match best_match with
         | None =>
           nearest = 1%R /\ forall tr, In tr tracks -> (1 <= key tr)%R
         | Some tr =>
           nearest = key tr /\ (key tr < 1)%R
           /\ exists l1 l2,
                tracks = l1 ++ tr :: l2
                /\ (forall c, In c l1 -> (key tr < key c)%R)
                /\ (forall c, In c l2 -> (key tr <= key c)%R)
         end.
Proof.
  intros arrow_get a_track a_artist a_album a_year tracks key Hk.
  destruct (best_match_loop_spec arrow_get a_track a_artist a_album a_year
              key tracks 1%R None Hk) as (n' & b' & Hrun & Hcase).
  exists n', b'. split; [exact Hrun|].
  destruct Hcase as [(-> & -> & Hall)
                    |(l1 & tr & l2 & -> & -> & -> & Hlt & H1 & H2)].
  - split; [reflexivity|exact Hall].
  - split; [reflexivity|]. split; [exact Hlt|]. now exists l1, l2.
Qed.

Lemma get_best_match_nearest_witness :
  exists (nearest : R) (best_match : option AMTrack),
    get_best_match Iso.iso_get "Hello" "Adele" "25" "2015-10-23"
                   [Sample.hello_deluxe; Sample.hello_am]
    = Ok (nearest, best_match)
    /\ match best_match with
       | None =>
         nearest = 1%R
         /\ forall tr, In tr [Sample.hello_deluxe; Sample.hello_am] ->
              (1 <= match_score Iso.iso_get
                      "Hello" "Adele" "25" "2015-10-23" tr)%R
       | Some tr =>
         nearest = match_score Iso.iso_get
                     "Hello" "Adele" "25" "2015-10-23" tr
         /\ (match_score Iso.iso_get
               "Hello" "Adele" "25" "2015-10-23" tr < 1)%R
         /\ exists l1 l2,
              [Sample.hello_deluxe; Sample.hello_am] = l1 ++ tr :: l2
              /\ (forall c, In c l1 ->
                    (match_score Iso.iso_get
                       "Hello" "Adele" "25" "2015-10-23" tr
                     < match_score Iso.iso_get
                         "Hello" "Adele" "25" "2015-10-23" c)%R)
              /\ (forall c, In c l2 ->
                    (match_score Iso.iso_get
                       "Hello" "Adele" "25" "2015-10-23" tr
                     <= match_score Iso.iso_get
                          "Hello" "Adele" "25" "2015-10-23" c)%R)
       end.
Proof.
  apply (get_best_match_nearest Iso.iso_get
           "Hello" "Adele" "25" "2015-10-23"
           [Sample.hello_deluxe; Sample.hello_am]
           (match_score Iso.iso_get "Hello" "Adele" "25" "2015-10-23")).
  intros tr [<-|[<-|[]]]; unfold match_score; apply result_ok_value;
    eexists; eapply get_tracks_distance_ok; vm_compute; reflexivity.
Defined.

(** ** The interactive chooser *)

Section Chooser.

Variable arrow_get : string -> result Z.

Lemma displayCandidates_ok (song : Song) (candidates : list AMTrack) :
  (forall s, In s candidates ->
     exists d,
       get_tracks_distance arrow_get (trackName s) (artistName s)
         (collectionCensoredName s) (releaseDate s)
         (title song) (artist song) (album song) (release_date song)
       = Ok d) ->
  forall pageStart nSongs,
    exists rows,
      displayCandidates arrow_get candidates song pageStart nSongs = Ok rows
      /\ map (fun r => fst (fst r)) rows = seq pageStart (length candidates)
      /\ map snd rows = candidates.
Proof.
  induction candidates as [|s l IH]; intros H start n.
  - exists []. auto.
  - destruct (H s (or_introl eq_refl)) as [d Hd].
    destruct (IH (fun x Hx => H x (or_intror Hx)) (S start) n)
      as (rows & Hrows & Hnum & Hsnd).
    exists ((start, d, s) :: rows). cbn [displayCandidates].
    rewrite Hd. cbn [bind]. rewrite Hrows. cbn [bind map fst snd length seq].
    rewrite Hnum, Hsnd. auto.
Qed.

(** One turn of the loop, the page once displayed. *)
Lemma selectSong_loop_turn (songs : list AMTrack) (desiredSong : Song)
    (page : nat) (ans : string) (rest : list string) :
  (exists rows,
     displayCandidates arrow_get
       (firstn pageSize (skipn (page * pageSize) songs))
       desiredSong (page * pageSize) (length songs) = Ok rows) ->
  selectSong_loop arrow_get songs desiredSong page (ans :: rest)
  = if String.eqb (lower ans) "s" then Ok (None, rest)
    else if String.eqb (lower ans) "n" then
      if length songs / pageSize <? page + 1
      then selectSong_loop arrow_get songs desiredSong page rest
      else selectSong_loop arrow_get songs desiredSong (page + 1) rest
    else if String.eqb (lower ans) "p" then
      if page =? 0
      then selectSong_loop arrow_get songs desiredSong page rest
      else selectSong_loop arrow_get songs desiredSong (page - 1) rest
    else if isdigit ans then
      n <- int ans ;; s <- item songs n ;; Ok (Some s, rest)
    else
      s <- item songs 0 ;; Ok (Some s, rest).
Proof.
  intros [rows Hrows]. cbn [selectSong_loop]. rewrite Hrows. reflexivity.
Qed.

Lemma lower_char_digit (c : ascii) : is_digit c = true -> lower_char c = c.
Proof.
  unfold is_digit, lower_char. intros H.
  apply andb_prop in H. destruct H as [_ H]. apply Nat.leb_le in H.
  replace (65 <=? nat_of_ascii c) with false
    by (symmetry; apply Nat.leb_gt; lia).
  reflexivity.
Qed.

(** A text of one byte that [isdigit] accepts is an ASCII digit. *)
Lemma isdigit_one_byte (x : ascii) :
  isdigit (String x EmptyString) = true -> is_digit x = true.
Proof.
  destruct x as [[] [] [] [] [] [] [] []]; vm_compute; exact (fun H => H).
Qed.

(** A string of digits is none of the commands. *)
Lemma isdigit_not_letter (ans : string) (c : ascii) :
  isdigit ans = true -> is_digit c = false ->
  String.eqb (lower ans) (String c EmptyString) = false.
Proof.
  intros Hd Hc. destruct ans as [|x r]; [discriminate|].
  destruct r as [|y r].
  - apply isdigit_one_byte in Hd.
    simpl. rewrite (lower_char_digit x Hd).
    destruct (Ascii.eqb x c) eqn:E; [|reflexivity].
    apply Ascii.eqb_eq in E. subst x. congruence.
  - simpl. destruct (Ascii.eqb (lower_char x) c); reflexivity.
Qed.

(** A number past the end of the list is no default: it raises. *)
Lemma selectSong_loop_past_end (songs : list AMTrack) (desiredSong : Song)
    (page : nat) (ans : string) (rest : list string) :
  (exists rows,
     displayCandidates arrow_get
       (firstn pageSize (skipn (page * pageSize) songs))
       desiredSong (page * pageSize) (length songs) = Ok rows) ->
  forall n,
    isdigit ans = true -> int ans = Ok n -> length songs <= n ->
    selectSong_loop arrow_get songs desiredSong page (ans :: rest)
    = Raise IndexError.
Proof.
  intros Hrows n Hd Hn Hlen. rewrite selectSong_loop_turn by exact Hrows.
  rewrite !(isdigit_not_letter ans _ Hd) by reflexivity. rewrite Hd, Hn.
  cbn [bind]. unfold item. apply nth_error_None in Hlen. now rewrite Hlen.
Qed.

(** A digit that [int] does not read is no default either: the
    exception of [int] leaves the chooser. *)
Lemma selectSong_loop_unread (songs : list AMTrack) (desiredSong : Song)
    (page : nat) (ans : string) (rest : list string) :
  (exists rows,
     displayCandidates arrow_get
       (firstn pageSize (skipn (page * pageSize) songs))
       desiredSong (page * pageSize) (length songs) = Ok rows) ->
  forall e,
    isdigit ans = true -> int ans = Raise e ->
    selectSong_loop arrow_get songs desiredSong page (ans :: rest)
    = Raise e.
Proof.
  intros Hrows e Hd He. rewrite selectSong_loop_turn by exact Hrows.
  rewrite !(isdigit_not_letter ans _ Hd) by reflexivity. rewrite Hd, He.
  reflexivity.
Qed.

End Chooser.

(** X25. Whatever page is displayed, a reply made of digits is answered
    from the whole ranking: the candidate of the number [int] reads
    ([IndexError] past the end), or the [ValueError] of [int] for digits
    it does not read; a reply that is neither digits nor one of the
    commands [s], [n], [p] selects candidate 0 of the whole ranking. *)
Theorem selectSong_absolute_index :
  forall (arrow_get : string -> result Z) (songs : list AMTrack)
         (desiredSong : Song) (page : nat) (ans : string)
         (rest : list string),
    (exists rows,
       displayCandidates arrow_get
         (firstn pageSize (skipn (page * pageSize) songs))
         desiredSong (page * pageSize) (length songs) = Ok rows) ->
    (isdigit ans = true ->
     selectSong_loop arrow_get songs desiredSong page (ans :: rest)
     = match int ans with
       | Ok n =>
         match nth_error songs n with
         | Some s => Ok (Some s, rest)
         | None => Raise IndexError
         end
       | Raise e => Raise e
       end)
    /\ (isdigit ans = false ->
        lower ans <> "s"%string -> lower ans <> "n"%string ->
        lower ans <> "p"%string ->
        selectSong_loop arrow_get songs desiredSong page (ans :: rest)
        = match nth_error songs 0 with
          | Some s => Ok (Some s, rest)
          | None => Raise IndexError
          end).
Proof.
  intros arrow_get songs desiredSong page ans rest Hrows.
  rewrite (selectSong_loop_turn arrow_get songs desiredSong page ans rest
             Hrows).
  split.
  - intros Hd.
    rewrite !(isdigit_not_letter ans _ Hd) by reflexivity.
    rewrite Hd. destruct (int ans) as [n|e]; [|reflexivity].
    cbn [bind]. unfold item. destruct (nth_error songs n); reflexivity.
  - intros Hd Hs Hn Hp.
    apply String.eqb_neq in Hs, Hn, Hp. rewrite Hs, Hn, Hp, Hd.
    unfold item. destruct (nth_error songs 0); reflexivity.
Qed.

Lemma selectSong_absolute_index_witness :
  selectSong_loop Iso.iso_get Sample.long_list Sample.hello 1 ["1"%string]
  = Ok (Some Sample.hello_deluxe, [])
  /\ selectSong_loop Iso.iso_get Sample.long_list Sample.hello 1
                     [""%string]
     = Ok (Some Sample.hello_am, []).
Proof.
  assert (Hpage : exists rows,
             displayCandidates Iso.iso_get
               (firstn pageSize (skipn (1 * pageSize) Sample.long_list))
               Sample.hello (1 * pageSize) (length Sample.long_list)
             = Ok rows).
  { destruct (displayCandidates_ok Iso.iso_get Sample.hello
                (firstn pageSize (skipn (1 * pageSize) Sample.long_list)))
      with (pageStart := 1 * pageSize)
           (nSongs := length Sample.long_list) as (rows & Hrows & _).
    - intros s Hs. simpl in Hs.
      destruct Hs as [<-|[<-|[]]]; eexists;
        eapply get_tracks_distance_ok; vm_compute; reflexivity.
    - now exists rows. }
  split.
  - apply (proj1 (selectSong_absolute_index Iso.iso_get Sample.long_list
                    Sample.hello 1 "1" [] Hpage)).
    reflexivity.
  - apply (proj2 (selectSong_absolute_index Iso.iso_get Sample.long_list
                    Sample.hello 1 "" [] Hpage));
      [reflexivity|discriminate|discriminate|discriminate].
Defined.

(** C10, at the failing input: the reply [²] is a digit for [isdigit]
    that [int] does not read.  With three candidates on display the
    chooser raises [ValueError], where the claim has a digit reply select
    the candidate of that index. *)
Theorem selectSong_digit_unread :
  isdigit Sample.superscript_two = true
  /\ selectSong Iso.iso_get
       [Sample.hello_am; Sample.hello_deluxe; Sample.hello_am]
       Sample.hello [Sample.superscript_two]
     = Raise ValueError.
Proof.
  split; [reflexivity|].
  unfold selectSong. rewrite selectSong_loop_turn.
  - reflexivity.
  - destruct (displayCandidates_ok Iso.iso_get Sample.hello
                (firstn pageSize
                   (skipn (0 * pageSize)
                      [Sample.hello_am; Sample.hello_deluxe;
                       Sample.hello_am])))
      with (pageStart := 0 * pageSize)
           (nSongs := length [Sample.hello_am; Sample.hello_deluxe;
                              Sample.hello_am])
      as (rows & Hrows & _).
    + intros s Hs. simpl in Hs.
      destruct Hs as [<-|[<-|[<-|[]]]]; eexists;
        eapply get_tracks_distance_ok; vm_compute; reflexivity.
    + now exists rows.
Qed.

(** A decimal digit of another script is read as its value: the
    fullwidth [1] selects candidate 1. *)
Example selectSong_fullwidth_one :
  selectSong Iso.iso_get [Sample.hello_am; Sample.hello_deluxe]
             Sample.hello [Sample.fullwidth_one]
  = Ok (Some Sample.hello_deluxe, []).
Proof.
  unfold selectSong. rewrite selectSong_loop_turn.
  - reflexivity.
  - destruct (displayCandidates_ok Iso.iso_get Sample.hello
                (firstn pageSize
                   (skipn (0 * pageSize)
                      [Sample.hello_am; Sample.hello_deluxe])))
      with (pageStart := 0 * pageSize)
           (nSongs := length [Sample.hello_am; Sample.hello_deluxe])
      as (rows & Hrows & _).
    + intros s Hs. simpl in Hs.
      destruct Hs as [<-|[<-|[]]]; eexists;
        eapply get_tracks_distance_ok; vm_compute; reflexivity.
    + now exists rows.
Qed.

(** C3, at the failing input: with two candidates on display, the reply
    [2] is a number past the end of the list and the chooser raises
    [IndexError]. *)
Theorem selectSong_index_out_of_range :
  selectSong Iso.iso_get [Sample.hello_am; Sample.hello_deluxe]
             Sample.hello ["2"%string]
  = Raise IndexError.
Proof.
  unfold selectSong. rewrite selectSong_loop_turn.
  - reflexivity.
  - destruct (displayCandidates_ok Iso.iso_get Sample.hello
                (firstn pageSize
                   (skipn (0 * pageSize)
                      [Sample.hello_am; Sample.hello_deluxe])))
      with (pageStart := 0 * pageSize)
           (nSongs := length [Sample.hello_am; Sample.hello_deluxe])
      as (rows & Hrows & _).
    + intros s Hs. simpl in Hs.
      destruct Hs as [<-|[<-|[]]]; eexists;
        eapply get_tracks_distance_ok; vm_compute; reflexivity.
    + now exists rows.
Qed.

(** What the chooser does on the other replies of C3: a reply that is no
    number and no command selects candidate 0, [s] skips. *)
Example selectSong_default_and_skip :
  selectSong Iso.iso_get [Sample.hello_am; Sample.hello_deluxe]
             Sample.hello ["x"%string]
  = Ok (Some Sample.hello_am, [])
  /\ selectSong Iso.iso_get [Sample.hello_am; Sample.hello_deluxe]
                Sample.hello ["S"%string]
     = Ok (None, []).
Proof.
  assert (Hpage : exists rows,
             displayCandidates Iso.iso_get
               (firstn pageSize
                  (skipn (0 * pageSize)
                     [Sample.hello_am; Sample.hello_deluxe]))
               Sample.hello (0 * pageSize)
               (length [Sample.hello_am; Sample.hello_deluxe])
             = Ok rows).
  { destruct (displayCandidates_ok Iso.iso_get Sample.hello
                (firstn pageSize
                   (skipn (0 * pageSize)
                      [Sample.hello_am; Sample.hello_deluxe])))
      with (pageStart := 0 * pageSize)
           (nSongs := length [Sample.hello_am; Sample.hello_deluxe])
      as (rows & Hrows & _).
    - intros s Hs. simpl in Hs.
      destruct Hs as [<-|[<-|[]]]; eexists;
        eapply get_tracks_distance_ok; vm_compute; reflexivity.
    - now exists rows. }
  unfold selectSong. split; rewrite selectSong_loop_turn by exact Hpage;
    reflexivity.
Qed.

(** * Part III: further properties of the code *)

(** ** What a row can select *)

Section Soundness.

Variable arrow_get : string -> result Z.

Lemma decorate_snd {A : Type} (f : A -> result R) (l : list A) :
  forall kl, decorate f l = Ok kl -> map snd kl = l.
Proof.
  induction l as [|x l IH]; intros kl H; simpl in H.
  - injection H as <-. reflexivity.
  - destruct (f x) as [k|e]; [|discriminate]. simpl in H.
    destruct (decorate f l) as [kl'|e]; [|discriminate]. simpl in H.
    injection H as <-. simpl. now rewrite (IH kl' eq_refl).
Qed.

Lemma sorted_perm {A : Type} (f : A -> result R) (l r : list A) :
  sorted f l = Ok r -> Permutation l r.
Proof.
  unfold sorted. intros H.
  destruct (decorate f l) as [kl|e] eqn:Hd; [|discriminate].
  simpl in H. injection H as <-.
  rewrite <- (decorate_snd f l kl Hd).
  apply Permutation_map, sort_keyed_perm.
Qed.

Lemma item_In (songs : list AMTrack) (n : nat) (s : AMTrack) :
  item songs n = Ok s -> In s songs.
Proof.
  unfold item. destruct (nth_error songs n) as [x|] eqn:E; [|discriminate].
  intros H. injection H as <-. now apply nth_error_In with (n := n).
Qed.

(** The chooser hands back a candidate of its list, and the lines it did
    not read. *)
Lemma selectSong_loop_sound (songs : list AMTrack) (song : Song) :
  forall stdin page sel rest,
    selectSong_loop arrow_get songs song page stdin = Ok (sel, rest) ->
    (exists used, stdin = used ++ rest)
    /\ (forall s, sel = Some s -> In s songs).
Proof.
  induction stdin as [|ans stdin IH]; intros page sel rest H;
    cbn [selectSong_loop] in H;
    destruct (displayCandidates arrow_get _ song _ _) as [rows|e];
    cbn [bind] in H; try discriminate.
  assert (Hrec : forall page',
             selectSong_loop arrow_get songs song page' stdin
             = Ok (sel, rest) ->
             (exists used, ans :: stdin = used ++ rest)
             /\ (forall s, sel = Some s -> In s songs)).
  { intros page' H'. destruct (IH page' sel rest H') as [[used ->] Hin].
    split; [now exists (ans :: used)|exact Hin]. }
  assert (Hitem : forall n,
             (s <- item songs n ;; Ok (Some s, stdin)) = Ok (sel, rest) ->
             (exists used, ans :: stdin = used ++ rest)
             /\ (forall s, sel = Some s -> In s songs)).
  { intros n H'. destruct (item songs n) as [x|e] eqn:Ex; [|discriminate].
    cbn [bind] in H'. injection H' as <- <-.
    split; [now exists [ans]|].
    intros s Hs. injection Hs as <-. now apply item_In with (n := n). }
  destruct (String.eqb (lower ans) "s").
  { injection H as <- <-. split; [now exists [ans]|discriminate]. }
  destruct (String.eqb (lower ans) "n").
  { destruct (length songs / pageSize <? page + 1); now apply Hrec in H. }
  destruct (String.eqb (lower ans) "p").
  { destruct (page =? 0); now apply Hrec in H. }
  destruct (isdigit ans); [|now apply Hitem in H].
  destruct (int ans) as [n|e]; [|discriminate]. now apply Hitem in H.
Qed.

Lemma resolve_sound (_err : R) (_auto : bool) (_treshold : R)
    (song : Song) (candidates : list AMTrack) (stdin : list string)
    (d : Decision) (rest : list string) :
  resolve arrow_get _err _auto _treshold song candidates stdin
  = Ok (d, rest) ->
  (exists used, stdin = used ++ rest)
  /\ (forall c, d = Selected c -> In c candidates).
Proof.
  intros H. destruct candidates as [|c1 [|c2 l]].
  - injection H as <- <-. split; [now exists []|discriminate].
  - injection H as <- <-. split; [now exists []|].
    intros c Hc. injection Hc as <-. now left.
  - unfold resolve in H.
    destruct (sorted _ (c1 :: c2 :: l)) as [ranked|e] eqn:Hs;
      [|discriminate].
    apply sorted_perm in Hs. cbn [bind] in H.
    destruct (decorate _ ranked) as [kl|e]; [|discriminate].
    cbn [bind] in H.
    destruct (item ranked 0) as [top|e] eqn:Htop; [|discriminate].
    apply item_In in Htop. cbn [bind] in H.
    destruct (distance arrow_get top song) as [dist|e]; [|discriminate].
    cbn [bind] in H.
    assert (Hauto : Ok (Selected top, stdin) = Ok (d, rest) ->
                    (exists used, stdin = used ++ rest)
                    /\ (forall c, d = Selected c ->
                                  In c (c1 :: c2 :: l))).
    { intros H'. injection H' as <- <-. split; [now exists []|].
      intros c Hc. injection Hc as <-.
      now apply (Permutation_in _ (Permutation_sym Hs)). }
    destruct (Rltb dist _err); [now apply Hauto|].
    destruct (_auto && Rltb dist _treshold); [now apply Hauto|].
    unfold defer, selectSong in H.
    destruct (selectSong_loop arrow_get ranked song 0 stdin)
      as [[sel rest']|e] eqn:Hsel; [|discriminate].
    cbn [bind] in H.
    destruct (selectSong_loop_sound ranked song stdin 0 sel rest' Hsel)
      as [Hused Hin].
    destruct sel as [s|]; injection H as <- <-; (split; [exact Hused|]).
    + intros c Hc. injection Hc as <-.
      apply (Permutation_in _ (Permutation_sym Hs)). now apply Hin.
    + discriminate.
Qed.


End Soundness.

(** The ranking of the sample row: the nearer candidate first. *)
Lemma sample_ranking (top : AMTrack) (rest : list AMTrack) :
  stable_ranking (score Iso.iso_get Sample.hello)
    [Sample.hello_deluxe; Sample.hello_am] (top :: rest) ->
  top :: rest = [Sample.hello_am; Sample.hello_deluxe].
Proof.
  intros (Hp & Hs & _).
  assert (Ham : distance Iso.iso_get Sample.hello_am Sample.hello = Ok 0%R).
  { unfold distance. apply get_tracks_distance_same
      with (t := 63581155200000000%Z). vm_compute. reflexivity. }
  assert (Hdl : exists d, distance Iso.iso_get Sample.hello_deluxe
                            Sample.hello = Ok d /\ (0 < d)%R).
  { eexists. split.
    - unfold distance. eapply get_tracks_distance_ok; vm_compute; reflexivity.
    - set (days := timedelta_days _).
      assert (Hy : (0 < aceh_of_days days)%R)
        by (apply aceh_of_days_pos; vm_compute; discriminate).
      apply Rdiv_lt_0_compat; [|lra]. apply sqrt_lt_R0.
      pose proof (pow2_ge_0 (ro_distance "Hello" "Hello")).
      pose proof (pow2_ge_0 (ro_distance "Adele" "Adele")).
      pose proof (pow2_ge_0 (ro_distance "25 (Deluxe)" "25")).
      assert (0 < aceh_of_days days ^ 2)%R by nra.
      simpl trackName; simpl artistName; simpl collectionName;
        simpl title; simpl artist; simpl album. lra. }
  destruct Hdl as [d [Hdl Hd]].
  pose proof (Permutation_length Hp) as Hl.
  destruct rest as [|second [|third rest]]; try discriminate Hl.
  apply Permutation_length_2 in Hp.
  destruct Hp as [[<- <-]|[<- <-]]; [|reflexivity].
  inversion Hs as [|? ? _ Hall]; subst.
  inversion Hall as [|? ? Hle _]; subst.
  unfold score in Hle. rewrite Hdl, Ham in Hle. lra.
Qed.

(** The sample row before the chooser: with no rounding error allowed
    and no automatic choice, the ranking is shown, nearer candidate
    first; the reply [s] skips the row and the reply [1] selects the
    second of the ranking, which came first in the search result. *)
Example resolve_sample_replies :
  forall rest : list string,
    resolve Iso.iso_get 0 false (4 / 10) Sample.hello
            [Sample.hello_deluxe; Sample.hello_am] ("s"%string :: rest)
    = Ok (Skipped, rest)
    /\ resolve Iso.iso_get 0 false (4 / 10) Sample.hello
               [Sample.hello_deluxe; Sample.hello_am] ("1"%string :: rest)
       = Ok (Selected Sample.hello_deluxe, rest).
Proof.
  intros rest.
  assert (Hparse : forall c,
             In c [Sample.hello_deluxe; Sample.hello_am] ->
             exists t, Iso.iso_get (releaseDate c) = Ok t).
  { intros c [<-|[<-|[]]]; eexists; vm_compute; reflexivity. }
  assert (Hsong : Iso.iso_get (release_date Sample.hello)
                  = Ok 63581155200000000%Z) by (vm_compute; reflexivity).
  assert (Hk : forall c, In c [Sample.hello_deluxe; Sample.hello_am] ->
                 distance Iso.iso_get c Sample.hello
                 = Ok (score Iso.iso_get Sample.hello c)).
  { apply distance_scored. intros c Hc. destruct (Hparse c Hc) as [t Ht].
    eexists. unfold distance.
    now apply get_tracks_distance_ok with (ad := t)
                                          (bd := 63581155200000000%Z). }
  assert (Hpos : (0 <= score Iso.iso_get Sample.hello Sample.hello_am)%R).
  { unfold score, distance.
    destruct (Hparse Sample.hello_am) as [t Ht]; [right; now left|].
    rewrite (get_tracks_distance_ok Iso.iso_get _ _ _ _ _ _ _ _ t
               63581155200000000%Z Ht Hsong).
    apply Rmult_le_pos; [apply sqrt_pos|lra]. }
  assert (Hpage : exists rows,
             displayCandidates Iso.iso_get
               (firstn pageSize
                  (skipn (0 * pageSize)
                     [Sample.hello_am; Sample.hello_deluxe]))
               Sample.hello (0 * pageSize)
               (length [Sample.hello_am; Sample.hello_deluxe]) = Ok rows).
  { destruct (displayCandidates_ok Iso.iso_get Sample.hello
                (firstn pageSize
                   (skipn (0 * pageSize)
                      [Sample.hello_am; Sample.hello_deluxe])))
      with (pageStart := 0 * pageSize)
           (nSongs := length [Sample.hello_am; Sample.hello_deluxe])
      as (rows & Hrows & _).
    - intros s Hs. simpl in Hs.
      destruct Hs as [<-|[<-|[]]]; eexists;
        eapply get_tracks_distance_ok; vm_compute; reflexivity.
    - now exists rows. }
  split.
  - destruct (resolve_scored Iso.iso_get 0 false (4 / 10) Sample.hello
                [Sample.hello_deluxe; Sample.hello_am] ("s"%string :: rest)
                (le_n 2) Hk) as (top & tl & Hr & ->).
    apply sample_ranking in Hr. injection Hr as -> ->.
    replace (Rltb (score Iso.iso_get Sample.hello Sample.hello_am) 0)
      with false by (symmetry; apply Rltb_false; exact Hpos).
    cbn [andb]. unfold selectSong.
    rewrite selectSong_loop_turn by exact Hpage. reflexivity.
  - destruct (resolve_scored Iso.iso_get 0 false (4 / 10) Sample.hello
                [Sample.hello_deluxe; Sample.hello_am] ("1"%string :: rest)
                (le_n 2) Hk) as (top & tl & Hr & ->).
    apply sample_ranking in Hr. injection Hr as -> ->.
    replace (Rltb (score Iso.iso_get Sample.hello Sample.hello_am) 0)
      with false by (symmetry; apply Rltb_false; exact Hpos).
    cbn [andb]. unfold selectSong.
    rewrite selectSong_loop_turn by exact Hpage. reflexivity.
Qed.


(** X1. A row never selects a track that is not one of its candidates:
    whichever way the decision is reached, by a tier or by the chooser. *)
Theorem resolve_selects_candidate :
  forall (arrow_get : string -> result Z) (_err : R) (_auto : bool)
         (_treshold : R) (song : Song) (candidates : list AMTrack)
         (stdin rest : list string) (c : AMTrack),
    resolve arrow_get _err _auto _treshold song candidates stdin
    = Ok (Selected c, rest) ->
    In c candidates.
Proof.
  intros arrow_get _err _auto _treshold song candidates stdin rest c H.
  destruct (resolve_sound arrow_get _ _ _ _ _ _ _ _ H) as [_ Hin].
  now apply Hin.
Qed.

Lemma resolve_selects_candidate_witness :
  In Sample.hello_am [Sample.hello_deluxe; Sample.hello_am]
  /\ In Sample.hello_deluxe [Sample.hello_deluxe; Sample.hello_am].
Proof.
  split.
  - apply (resolve_selects_candidate Iso.iso_get (11 / 100) false (4 / 10)
             Sample.hello [Sample.hello_deluxe; Sample.hello_am] [] []
             Sample.hello_am).
    exact resolve_sample_row.
  - apply (resolve_selects_candidate Iso.iso_get 0 false (4 / 10)
             Sample.hello [Sample.hello_deluxe; Sample.hello_am]
             ["1"%string] [] Sample.hello_deluxe).
    exact (proj2 (resolve_sample_replies [])).
Defined.



(** ** Pages and numbers of the chooser *)

Section Pages.

Variable arrow_get : string -> result Z.

Lemma displayCandidates_rows (song : Song) (candidates : list AMTrack) :
  forall pageStart nSongs rows,
    displayCandidates arrow_get candidates song pageStart nSongs = Ok rows ->
    map (fun r => fst (fst r)) rows = seq pageStart (length candidates)
    /\ map snd rows = candidates.
Proof.
  induction candidates as [|s l IH]; intros start n rows H;
    cbn [displayCandidates] in H.
  - injection H as <-. auto.
  - destruct (get_tracks_distance arrow_get _ _ _ _ _ _ _ _) as [d|e];
      [|discriminate].
    cbn [bind] in H.
    destruct (displayCandidates arrow_get l song (S start) n)
      as [rows'|e] eqn:Hr; [|discriminate].
    cbn [bind] in H. injection H as <-.
    destruct (IH (S start) n rows' Hr) as [H1 H2].
    cbn [map fst snd length seq]. now rewrite H1, H2.
Qed.

Lemma In_page (songs : list AMTrack) (start : nat) (s : AMTrack) :
  In s (firstn pageSize (skipn start songs)) -> In s songs.
Proof.
  intros H.
  rewrite <- (firstn_skipn start songs). apply in_or_app. right.
  rewrite <- (firstn_skipn pageSize (skipn start songs)).
  apply in_or_app. now left.
Qed.

Lemma displayable_page (song : Song) (songs : list AMTrack) (page : nat) :
  displayable arrow_get song songs ->
  exists rows,
    displayCandidates arrow_get
      (firstn pageSize (skipn (page * pageSize) songs))
      song (page * pageSize) (length songs) = Ok rows.
Proof.
  intros Hd.
  destruct (displayCandidates_ok arrow_get song
              (firstn pageSize (skipn (page * pageSize) songs)))
    with (pageStart := page * pageSize) (nSongs := length songs)
    as (rows & Hrows & _).
  - intros s Hs. apply Hd. now apply In_page with (start := page * pageSize).
  - now exists rows.
Qed.

(** A displayed row carries the number of its candidate in the whole
    list. *)
Lemma displayed_row_index (song : Song) (songs : list AMTrack)
    (page : nat) (rows : list (nat * R * AMTrack))
    (num : nat) (d : R) (s : AMTrack) :
  displayCandidates arrow_get
    (firstn pageSize (skipn (page * pageSize) songs))
    song (page * pageSize) (length songs) = Ok rows ->
  In (num, d, s) rows ->
  nth_error songs num = Some s.
Proof.
  intros Hrows Hin.
  destruct (displayCandidates_rows _ _ _ _ _ Hrows) as [Hnum Hsnd].
  destruct (In_nth_error _ _ Hin) as [i Hi].
  assert (H1 : nth_error (map (fun r => fst (fst r)) rows) i = Some num)
    by (rewrite nth_error_map, Hi; reflexivity).
  assert (H2 : nth_error (map snd rows) i = Some s)
    by (rewrite nth_error_map, Hi; reflexivity).
  rewrite Hnum, nth_error_seq in H1. rewrite Hsnd in H2.
  destruct (i <? _); [|discriminate]. injection H1 as <-.
  rewrite nth_error_firstn in H2.
  destruct (i <? pageSize); [|discriminate].
  now rewrite nth_error_skipn in H2.
Qed.

Lemma paging_not_skip (ans : string) :
  paging ans -> String.eqb (lower ans) "s" = false.
Proof.
  intros [H|H]; rewrite H; reflexivity.
Qed.

(** A reply that does not turn the page is answered alike on all
    pages. *)
Lemma decisive_any_page (songs : list AMTrack) (song : Song)
    (ans : string) (rest : list string) (page page' : nat) :
  displayable arrow_get song songs -> ~ paging ans ->
  selectSong_loop arrow_get songs song page (ans :: rest)
  = selectSong_loop arrow_get songs song page' (ans :: rest).
Proof.
  intros Hd Hp.
  rewrite !selectSong_loop_turn by now apply displayable_page.
  replace (String.eqb (lower ans) "n") with false.
  - replace (String.eqb (lower ans) "p") with false; [reflexivity|].
    symmetry. apply String.eqb_neq. intros H. apply Hp. now right.
  - symmetry. apply String.eqb_neq. intros H. apply Hp. now left.
Qed.

Lemma paging_turn (songs : list AMTrack) (song : Song)
    (ans : string) (stdin : list string) (page : nat) :
  displayable arrow_get song songs -> paging ans ->
  exists page',
    selectSong_loop arrow_get songs song page (ans :: stdin)
    = selectSong_loop arrow_get songs song page' stdin.
Proof.
  intros Hd Hp.
  rewrite selectSong_loop_turn by now apply displayable_page.
  rewrite (paging_not_skip ans Hp).
  destruct Hp as [Hp|Hp]; rewrite Hp.
  - rewrite String.eqb_refl.
    destruct (length songs / pageSize <? page + 1); eauto.
  - replace (String.eqb "p" "n") with false by reflexivity.
    rewrite String.eqb_refl.
    destruct (page =? 0); eauto.
Qed.

Lemma paging_prefix_any_page (songs : list AMTrack) (song : Song)
    (ans : string) (rest : list string) :
  displayable arrow_get song songs -> ~ paging ans ->
  forall prefix page page',
    Forall paging prefix ->
    selectSong_loop arrow_get songs song page (prefix ++ ans :: rest)
    = selectSong_loop arrow_get songs song page' (ans :: rest).
Proof.
  intros Hd Hp. induction prefix as [|a prefix IH]; intros page page' Hall.
  - now apply decisive_any_page.
  - inversion Hall as [|? ? Ha Hall']; subst. cbn [app].
    destruct (paging_turn songs song a (prefix ++ ans :: rest) page Hd Ha)
      as [page'' ->].
    now apply IH.
Qed.

Lemma paging_only_eof (songs : list AMTrack) (song : Song) :
  displayable arrow_get song songs ->
  forall stdin page,
    Forall paging stdin ->
    selectSong_loop arrow_get songs song page stdin = Raise EOFError.
Proof.
  intros Hd. induction stdin as [|a stdin IH]; intros page Hall.
  - cbn [selectSong_loop].
    destruct (displayable_page song songs page Hd) as [rows ->].
    reflexivity.
  - inversion Hall as [|? ? Ha Hall']; subst.
    destruct (paging_turn songs song a stdin page Hd Ha) as [page' ->].
    now apply IH.
Qed.

End Pages.

Lemma sample_displayable :
  displayable Iso.iso_get Sample.hello Sample.long_list.
Proof.
  intros s Hs. unfold Sample.long_list in Hs. simpl in Hs.
  repeat (destruct Hs as [<-|Hs];
          [eexists; eapply get_tracks_distance_ok; vm_compute; reflexivity|]).
  contradiction.
Qed.

(** X3. The number printed beside a candidate on the page on display is
    its index in the whole list: read on any page and typed back, it
    selects that very candidate. *)
Theorem displayed_number_selects :
  forall (arrow_get : string -> result Z) (songs : list AMTrack)
         (song : Song) (page : nat) (rows : list (nat * R * AMTrack))
         (num : nat) (d : R) (s : AMTrack),
    displayCandidates arrow_get
      (firstn pageSize (skipn (page * pageSize) songs))
      song (page * pageSize) (length songs) = Ok rows ->
    In (num, d, s) rows ->
    nth_error songs num = Some s
    /\ forall ans rest,
         isdigit ans = true -> int ans = Ok num ->
         selectSong_loop arrow_get songs song page (ans :: rest)
         = Ok (Some s, rest).
Proof.
  intros arrow_get songs song page rows num d s Hrows Hin.
  pose proof (displayed_row_index arrow_get song songs page rows num d s
                Hrows Hin) as Hnth.
  split; [exact Hnth|]. intros ans rest Hd Hn.
  rewrite selectSong_loop_turn by now exists rows.
  rewrite !(isdigit_not_letter ans _ Hd) by reflexivity.
  rewrite Hd, Hn. cbn [bind]. unfold item. now rewrite Hnth.
Qed.

Lemma displayed_number_selects_witness :
  nth_error [Sample.hello_deluxe; Sample.hello_am] 1 = Some Sample.hello_am
  /\ forall ans rest,
       isdigit ans = true -> int ans = Ok 1 ->
       selectSong_loop Iso.iso_get [Sample.hello_deluxe; Sample.hello_am]
                       Sample.hello 0 (ans :: rest)
       = Ok (Some Sample.hello_am, rest).
Proof.
  assert (Hrows : exists rows,
             displayCandidates Iso.iso_get
               (firstn pageSize
                  (skipn (0 * pageSize)
                     [Sample.hello_deluxe; Sample.hello_am]))
               Sample.hello (0 * pageSize)
               (length [Sample.hello_deluxe; Sample.hello_am]) = Ok rows
             /\ exists d, In (1, d, Sample.hello_am) rows).
  { cbn [firstn skipn Nat.mul pageSize displayCandidates length].
    erewrite get_tracks_distance_ok by (vm_compute; reflexivity).
    cbn [bind].
    erewrite get_tracks_distance_ok by (vm_compute; reflexivity).
    cbn [bind]. eexists. split; [reflexivity|].
    eexists. right. left. reflexivity. }
  destruct Hrows as (rows & Hrows & d & Hin).
  exact (displayed_number_selects Iso.iso_get
           [Sample.hello_deluxe; Sample.hello_am] Sample.hello 0 rows
           1 d Sample.hello_am Hrows Hin).
Defined.

(** X4. Replies that only turn the page ([n], [p], in either case) do
    not change the outcome: the chooser answers the first other reply as
    if it had come first. *)
Theorem selectSong_paging_prefix :
  forall (arrow_get : string -> result Z) (songs : list AMTrack)
         (song : Song) (prefix : list string) (ans : string)
         (rest : list string),
    displayable arrow_get song songs ->
    Forall paging prefix -> ~ paging ans ->
    selectSong arrow_get songs song (prefix ++ ans :: rest)
    = selectSong arrow_get songs song (ans :: rest).
Proof.
  intros arrow_get songs song prefix ans rest Hd Hall Hp.
  unfold selectSong. now apply paging_prefix_any_page.
Qed.

Lemma selectSong_paging_prefix_witness :
  selectSong Iso.iso_get Sample.long_list Sample.hello
             (["n"%string; "N"%string; "p"%string] ++ ["1"%string])
  = selectSong Iso.iso_get Sample.long_list Sample.hello ["1"%string].
Proof.
  apply (selectSong_paging_prefix Iso.iso_get Sample.long_list Sample.hello
           ["n"%string; "N"%string; "p"%string] "1"%string []).
  - exact sample_displayable.
  - repeat (apply Forall_cons;
            [unfold paging; (left; reflexivity) || (right; reflexivity)|]).
    apply Forall_nil.
  - unfold paging. simpl. intros [H|H]; discriminate.
Defined.

(** X5. When the input ends before any reply other than page turns, the
    chooser ends with [EOFError]: it makes no choice of its own. *)
Theorem selectSong_input_exhausted :
  forall (arrow_get : string -> result Z) (songs : list AMTrack)
         (song : Song) (stdin : list string),
    displayable arrow_get song songs ->
    Forall paging stdin ->
    selectSong arrow_get songs song stdin = Raise EOFError.
Proof.
  intros arrow_get songs song stdin Hd Hall.
  unfold selectSong. now apply paging_only_eof.
Qed.

Lemma selectSong_input_exhausted_witness :
  selectSong Iso.iso_get Sample.long_list Sample.hello
             ["n"%string; "p"%string]
  = Raise EOFError.
Proof.
  apply (selectSong_input_exhausted Iso.iso_get Sample.long_list
           Sample.hello ["n"%string; "p"%string]).
  - exact sample_displayable.
  - repeat (apply Forall_cons;
            [unfold paging; (left; reflexivity) || (right; reflexivity)|]).
    apply Forall_nil.
Defined.

(** ** [getBestMatch] *)

Section GetBestMatch.

Variable arrow_get : string -> result Z.
Variables title artist album year : string.

Lemma best_match_loop_raise (tracks : list AMTrack) (c : AMTrack) (e : exn) :
  In c tracks ->
  get_tracks_distance arrow_get title artist album year
    (trackName c) (artistName c) (collectionName c) (releaseDate c)
  = Raise e ->
  forall nearest best_match,
    exists e',
      best_match_loop arrow_get title artist album year tracks
                      nearest best_match = Raise e'.
Proof.
  induction tracks as [|t tracks IH]; intros Hin Hc nearest best;
    [contradiction|].
  cbn [best_match_loop].
  destruct (get_tracks_distance arrow_get title artist album year
              (trackName t) (artistName t) (collectionName t)
              (releaseDate t)) as [d|e'] eqn:Et; cbn [bind].
  - destruct Hin as [->|Hin]; [congruence|].
    destruct (Rltb d nearest); now apply IH.
  - now exists e'.
Qed.

Lemma match_score_range (t : Z) (tr : AMTrack) (t' : Z) :
  arrow_get year = Ok t -> arrow_get (releaseDate tr) = Ok t' ->
  get_tracks_distance arrow_get title artist album year
    (trackName tr) (artistName tr) (collectionName tr) (releaseDate tr)
  = Ok (match_score arrow_get title artist album year tr)
  /\ (0 <= match_score arrow_get title artist album year tr < 1)%R.
Proof.
  intros Hy Ht. unfold match_score.
  rewrite (get_tracks_distance_ok arrow_get _ _ _ _ _ _ _ _ t t' Hy Ht).
  split; [reflexivity|].
  apply half_sqrt_range, squares_range.
Qed.

End GetBestMatch.

(** X6. [getBestMatch] gives up the whole track, answering [(None, None)],
    as soon as the release date of the source track or of one candidate
    fails to parse, however near the other candidates are. *)
Theorem getBestMatch_gives_up :
  forall (arrow_get : string -> result Z) (songs : list AMTrack)
         (title artist album year : string) (c : AMTrack) (e : exn),
    In c songs ->
    arrow_get year = Raise e \/ arrow_get (releaseDate c) = Raise e ->
    getBestMatch arrow_get songs title artist album year = None.
Proof.
  intros arrow_get songs title artist album year c e Hin Hparse.
  assert (Hc : exists e',
             get_tracks_distance arrow_get title artist album year
               (trackName c) (artistName c) (collectionName c)
               (releaseDate c) = Raise e').
  { destruct (arrow_get year) as [t|e1] eqn:Ey.
    - destruct Hparse as [H|H]; [discriminate|]. exists e.
      apply get_tracks_distance_raise.
      now apply aceh_distance_raise_r with (ad := t).
    - exists e1. apply get_tracks_distance_raise.
      now apply aceh_distance_raise_l. }
  destruct Hc as [e' Hc].
  destruct (best_match_loop_raise arrow_get title artist album year
              songs c e' Hin Hc 1%R None) as [e'' Hraise].
  unfold getBestMatch, get_best_match. rewrite Hraise.
  now destruct songs.
Qed.

Lemma getBestMatch_gives_up_witness :
  getBestMatch Iso.iso_get [Sample.hello_am; Sample.hello_undated]
               "Hello" "Adele" "25" "2015-10-23" = None.
Proof.
  apply (getBestMatch_gives_up Iso.iso_get
           [Sample.hello_am; Sample.hello_undated]
           "Hello" "Adele" "25" "2015-10-23"
           Sample.hello_undated ParserError).
  - simpl. right. left. reflexivity.
  - right. vm_compute. reflexivity.
Defined.

(** X7. When the search returned something and every date parses,
    [getBestMatch] always answers with a match: every distance is below
    1.0, so the initial bound [nearest = 1.0] rejects no candidate.  The
    match is the first candidate of least distance. *)
Theorem getBestMatch_finds :
  forall (arrow_get : string -> result Z) (songs : list AMTrack)
         (title artist album year : string) (t : Z),
    songs <> [] ->
    arrow_get year = Ok t ->
    (forall c, In c songs -> exists t', arrow_get (releaseDate c) = Ok t') ->
    exists (d : R) (m : AMTrack) (l1 l2 : list AMTrack),
      getBestMatch arrow_get songs title artist album year = Some (d, m)
      /\ songs = l1 ++ m :: l2
      /\ d = match_score arrow_get title artist album year m
      /\ (0 <= d < 1)%R
      /\ (forall c, In c l1 ->
            (d < match_score arrow_get title artist album year c)%R)
      /\ (forall c, In c l2 ->
            (d <= match_score arrow_get title artist album year c)%R).
Proof.
  intros arrow_get songs title artist album year t Hne Hy Hall.
  assert (Hk : forall tr, In tr songs ->
             get_tracks_distance arrow_get title artist album year
               (trackName tr) (artistName tr) (collectionName tr)
               (releaseDate tr)
             = Ok (match_score arrow_get title artist album year tr)).
  { intros tr Htr. destruct (Hall tr Htr) as [t' Ht'].
    apply (match_score_range arrow_get title artist album year t tr t'
             Hy Ht'). }
  destruct (best_match_loop_spec arrow_get title artist album year
              (match_score arrow_get title artist album year)
              songs 1%R None Hk) as (n' & b' & Hrun & Hcase).
  destruct Hcase as [(-> & -> & Hge)
                    |(l1 & m & l2 & -> & -> & -> & Hlt & H1 & H2)].
  - destruct songs as [|c songs]; [contradiction|].
    destruct (Hall c (or_introl eq_refl)) as [t' Ht'].
    pose proof (match_score_range arrow_get title artist album year t c t'
                  Hy Ht') as [_ Hr].
    specialize (Hge c (or_introl eq_refl)). lra.
  - exists (match_score arrow_get title artist album year m), m, l1, l2.
    assert (Hin : In m (l1 ++ m :: l2))
      by (apply in_or_app; right; now left).
    destruct (Hall m Hin) as [t' Ht'].
    pose proof (match_score_range arrow_get title artist album year t m t'
                  Hy Ht') as [_ Hr].
    repeat split; auto; try lra.
    unfold getBestMatch, get_best_match. rewrite Hrun.
    now destruct l1.
Qed.

Lemma getBestMatch_finds_witness :
  exists (d : R) (m : AMTrack) (l1 l2 : list AMTrack),
    getBestMatch Iso.iso_get [Sample.hello_deluxe; Sample.hello_am]
                 "Hello" "Adele" "25" "2015-10-23" = Some (d, m)
    /\ [Sample.hello_deluxe; Sample.hello_am] = l1 ++ m :: l2
    /\ d = match_score Iso.iso_get "Hello" "Adele" "25" "2015-10-23" m
    /\ (0 <= d < 1)%R
    /\ (forall c, In c l1 ->
          (d < match_score Iso.iso_get
                 "Hello" "Adele" "25" "2015-10-23" c)%R)
    /\ (forall c, In c l2 ->
          (d <= match_score Iso.iso_get
                  "Hello" "Adele" "25" "2015-10-23" c)%R).
Proof.
  apply (getBestMatch_finds Iso.iso_get
           [Sample.hello_deluxe; Sample.hello_am]
           "Hello" "Adele" "25" "2015-10-23" 63581155200000000%Z).
  - discriminate.
  - vm_compute. reflexivity.
  - intros c [<-|[<-|[]]]; eexists; vm_compute; reflexivity.
Defined.

(** ** Matching blocks are equal slices *)

Section DifflibCorrect.

Context {A : Type}.
Variable eqb : A -> A -> bool.
Hypothesis eqb_eq : forall x y, eqb x y = true <-> x = y.
Variable isjunk : A -> bool.
Variable autojunk : bool.
Variables a b : list A.

Local Notation "'get'" := Difflib.j2len_get.
Local Notation "'same_run'" := (BlockSpec.same_run a b).
Local Notation "'runs_ok'" := (BlockSpec.runs_ok a b).
Local Notation "'block_valid'" := (BlockSpec.block_valid a b).
Local Notation "'flm'" :=
  (Difflib.find_longest_match eqb isjunk autojunk a b).
Local Notation "'blocks'" := (Difflib.blocks eqb isjunk autojunk a b).
Local Notation "'total'" := DifflibSpec.total.

Lemma same_run_0 (i j : nat) : same_run i j 0.
Proof. intros t Ht. lia. Qed.

Lemma same_run_snoc (i j k : nat) (x : A) :
  same_run i j k ->
  nth_error a (i + k) = Some x -> nth_error b (j + k) = Some x ->
  same_run i j (S k).
Proof.
  intros Hr Ha Hb t Ht. destruct (Nat.eq_dec t k) as [->|Hne].
  - now exists x.
  - apply Hr. lia.
Qed.

Lemma same_run_cons (i j k : nat) (x : A) :
  same_run (S i) (S j) k ->
  nth_error a i = Some x -> nth_error b j = Some x ->
  same_run i j (S k).
Proof.
  intros Hr Ha Hb t Ht. destruct t as [|t].
  - rewrite !Nat.add_0_r. now exists x.
  - replace (i + S t) with (S i + t) by lia.
    replace (j + S t) with (S j + t) by lia. apply Hr. lia.
Qed.

Lemma runs_ok_nil (r : nat) : runs_ok r [].
Proof.
  intros j. change (get [] j) with 0. repeat split; try lia.
  apply same_run_0.
Qed.

Lemma step_ok_same (junk : bool) (i j : nat) :
  Difflib.step_ok eqb isjunk a b junk i j = true ->
  exists x, nth_error a i = Some x /\ nth_error b j = Some x.
Proof.
  unfold Difflib.step_ok.
  destruct (nth_error a i) as [x|]; [|discriminate].
  destruct (nth_error b j) as [y|]; [|discriminate].
  intros H. apply andb_prop in H. destruct H as [_ H].
  apply eqb_eq in H. subst y. now exists x.
Qed.

Lemma scan_row_valid (i : nat) (x : A) (j2len : list (nat * nat)) :
  nth_error a i = Some x ->
  runs_ok i j2len ->
  forall blo bhi js nd best,
    (forall j, In j js -> nth_error b j = Some x) ->
    runs_ok (S i) nd -> block_valid best ->
    runs_ok (S i) (fst (Difflib.scan_row i blo bhi j2len js nd best))
    /\ block_valid (snd (Difflib.scan_row i blo bhi j2len js nd best)).
Proof.
  intros Hx Hprev blo bhi js.
  induction js as [|j js IH]; intros nd best Hjs Hnd Hbest;
    cbn [Difflib.scan_row]; [auto|].
  destruct (j <? blo); [apply IH; auto; intros j' Hj'; apply Hjs; now right|].
  destruct (bhi <=? j); [auto|].
  assert (Hk : S (match j with O => 0 | S j' => get j2len j' end) <= S i
               /\ S (match j with O => 0 | S j' => get j2len j' end) <= j + 1
               /\ same_run
                    (S i - S (match j with O => 0 | S j' => get j2len j' end))
                    (j + 1 - S (match j with O => 0 | S j' => get j2len j' end))
                    (S (match j with O => 0 | S j' => get j2len j' end))).
  { pose proof (Hjs j (or_introl eq_refl)) as Hbj.
    destruct j as [|j'].
    - repeat split; try lia.
      replace (S i - 1) with i by lia. replace (0 + 1 - 1) with 0 by lia.
      apply same_run_snoc with (x := x);
        [apply same_run_0|now rewrite Nat.add_0_r|exact Hbj].
    - destruct (Hprev j') as (H1 & H2 & H3).
      repeat split; try lia.
      replace (S i - S (get j2len j')) with (i - get j2len j') by lia.
      replace (S j' + 1 - S (get j2len j'))
        with (j' + 1 - get j2len j') by lia.
      apply same_run_snoc with (x := x); [exact H3| |].
      + now replace (i - get j2len j' + get j2len j') with i by lia.
      + now replace (j' + 1 - get j2len j' + get j2len j')
          with (S j') by lia. }
  set (k := S (match j with O => 0 | S j' => get j2len j' end)) in *.
  destruct Hk as (K1 & K2 & K3).
  apply IH.
  - intros j' Hj'. apply Hjs. now right.
  - intros j'. rewrite get_cons. destruct (j =? j') eqn:E; [|apply Hnd].
    apply Nat.eqb_eq in E. subst j'. repeat split; auto.
  - destruct (Difflib.size_of best <? k); [|exact Hbest].
    unfold BlockSpec.block_valid. cbn [fst snd].
    replace (i + 1 - k) with (S i - k) by lia. exact K3.
Qed.

Lemma b2j_In (x : A) (j : nat) :
  In j (Difflib.b2j eqb isjunk autojunk b x) -> nth_error b j = Some x.
Proof.
  unfold Difflib.b2j.
  destruct (isjunk x || Difflib.popular eqb autojunk b x); [intros []|].
  intros H. apply (indices_In eqb eqb_eq) in H.
  rewrite Nat.sub_0_r in H. apply H.
Qed.

Lemma scan_rows_valid (blo bhi n : nat) :
  forall i j2len best,
    runs_ok i j2len -> block_valid best ->
    block_valid
      (Difflib.scan_rows eqb isjunk autojunk a b (seq i n) blo bhi
                         j2len best).
Proof.
  induction n as [|n IH]; intros i d best Hd Hb; [exact Hb|].
  cbn [seq Difflib.scan_rows].
  destruct (nth_error a i) as [x|] eqn:Hx.
  - pose proof (scan_row_valid i x d Hx Hd blo bhi
                  (Difflib.b2j eqb isjunk autojunk b x) [] best
                  (b2j_In x) (runs_ok_nil (S i)) Hb) as [H1 H2].
    destruct (Difflib.scan_row i blo bhi d _ [] best) as [nd best'].
    now apply IH.
  - cbn [Difflib.scan_row]. apply IH; [apply runs_ok_nil|exact Hb].
Qed.

Lemma extend_left_valid (junk : bool) (alo blo : nat) :
  forall i j k,
    same_run i j k ->
    block_valid (Difflib.extend_left eqb isjunk a b junk alo blo i j k).
Proof.
  induction i as [|i IH]; intros j k Hr; cbn [Difflib.extend_left];
    [exact Hr|].
  destruct j as [|j]; [exact Hr|].
  destruct ((alo <? S i) && (blo <? S j)
            && Difflib.step_ok eqb isjunk a b junk i j) eqn:E; [|exact Hr].
  apply andb_prop in E. destruct E as [_ E].
  destruct (step_ok_same junk i j E) as (x & Ha & Hb).
  apply IH. now apply same_run_cons with (x := x).
Qed.

Lemma extend_right_valid (junk : bool) (ahi bhi n : nat) :
  forall i j k,
    same_run i j k ->
    same_run i j (Difflib.extend_right eqb isjunk a b junk ahi bhi n i j k).
Proof.
  induction n as [|n IH]; intros i j k Hr; cbn [Difflib.extend_right];
    [exact Hr|].
  destruct ((i + k <? ahi) && (j + k <? bhi)
            && Difflib.step_ok eqb isjunk a b junk (i + k) (j + k)) eqn:E;
    [|exact Hr].
  apply andb_prop in E. destruct E as [_ E].
  destruct (step_ok_same junk _ _ E) as (x & Ha & Hb).
  apply IH. now apply same_run_snoc with (x := x).
Qed.

(** The block [find_longest_match] returns is a pair of equal slices. *)
Lemma find_longest_match_valid (alo ahi blo bhi : nat) :
  block_valid (flm alo ahi blo bhi).
Proof.
  unfold Difflib.find_longest_match.
  pose proof (scan_rows_valid blo bhi (ahi - alo) alo [] (alo, blo, 0)
                (runs_ok_nil alo) (same_run_0 alo blo)) as H0.
  destruct (Difflib.scan_rows _ _ _ _ _ _ _ _ _ _) as [[i0 j0] k0].
  pose proof (extend_left_valid false alo blo i0 j0 k0 H0) as H1.
  destruct (Difflib.extend_left _ _ _ _ false alo blo i0 j0 k0)
    as [[i1 j1] k1].
  pose proof (extend_right_valid false ahi bhi (ahi - (i1 + k1))
                i1 j1 k1 H1) as H2.
  pose proof (extend_left_valid true alo blo i1 j1 _ H2) as H3.
  destruct (Difflib.extend_left _ _ _ _ true alo blo i1 j1 _)
    as [[i3 j3] k3].
  exact (extend_right_valid true ahi bhi (ahi - (i3 + k3)) i3 j3 k3 H3).
Qed.

(** Blocks that fill a window leave no room for a difference. *)
Lemma blocks_cover (fuel : nat) :
  forall alo ahi blo bhi,
    alo <= ahi -> blo <= bhi ->
    total (blocks fuel alo ahi blo bhi) = ahi - alo ->
    total (blocks fuel alo ahi blo bhi) = bhi - blo ->
    same_run alo blo (ahi - alo).
Proof.
  induction fuel as [|fuel IH]; intros alo ahi blo bhi Ha Hb Ta Tb.
  - cbn in Ta. rewrite <- Ta. apply same_run_0.
  - cbn [Difflib.blocks] in Ta, Tb.
    pose proof (find_longest_match_ok eqb isjunk autojunk a b
                  alo ahi blo bhi Ha Hb) as Hok.
    pose proof (find_longest_match_valid alo ahi blo bhi) as Hv.
    destruct (flm alo ahi blo bhi) as [[i j] k].
    unfold BlockSpec.block_valid in Hv. cbn [fst snd] in Hv.
    cbn in Hok. destruct Hok as (O1 & O2 & O3 & O4).
    destruct (k =? 0) eqn:Ek.
    { cbn in Ta. rewrite <- Ta. apply same_run_0. }
    rewrite total_app, total_cons in Ta, Tb.
    unfold Difflib.size_of in Ta, Tb. cbn [snd] in Ta, Tb.
    destruct (blocks_total eqb isjunk autojunk a b fuel alo i blo j O1 O3)
      as [L1 L2].
    assert (O2' : i + k <= ahi) by lia. assert (O4' : j + k <= bhi) by lia.
    destruct (blocks_total eqb isjunk autojunk a b fuel
                (i + k) ahi (j + k) bhi O2' O4') as [U1 U2].
    pose proof (IH alo i blo j O1 O3) as IL.
    pose proof (IH (i + k) ahi (j + k) bhi O2' O4') as IU.
    assert (HL : same_run alo blo (i - alo) /\ i - alo = j - blo).
    { destruct ((alo <? i) && (blo <? j)) eqn:EL;
        destruct ((i + k <? ahi) && (j + k <? bhi)) eqn:EU;
        change (total []) with 0 in *.
      - split; [apply IL|]; lia.
      - split; [apply IL|]; lia.
      - assert (i - alo = 0) by lia. assert (j - blo = 0) by lia.
        split; [|lia]. replace (i - alo) with 0 by lia. apply same_run_0.
      - assert (i - alo = 0) by lia. assert (j - blo = 0) by lia.
        split; [|lia]. replace (i - alo) with 0 by lia. apply same_run_0. }
    assert (HU : same_run (i + k) (j + k) (ahi - (i + k))).
    { destruct ((alo <? i) && (blo <? j)) eqn:EL;
        destruct ((i + k <? ahi) && (j + k <? bhi)) eqn:EU;
        change (total []) with 0 in *.
      - apply IU; lia.
      - replace (ahi - (i + k)) with 0 by lia. apply same_run_0.
      - apply IU; lia.
      - replace (ahi - (i + k)) with 0 by lia. apply same_run_0. }
    destruct HL as [HL Heq].
    intros t Ht.
    destruct (Nat.lt_ge_cases t (i - alo)) as [Hlt|Hge]; [now apply HL|].
    destruct (Nat.lt_ge_cases t (i - alo + k)) as [Hmid|Hhi].
    + destruct (Hv (t - (i - alo))) as (x & X1 & X2); [lia|].
      exists x. split.
      * now replace (alo + t) with (i + (t - (i - alo))) by lia.
      * now replace (blo + t) with (j + (t - (i - alo))) by lia.
    + destruct (HU (t - (i - alo + k))) as (x & X1 & X2); [lia|].
      exists x. split.
      * now replace (alo + t) with (i + k + (t - (i - alo + k))) by lia.
      * now replace (blo + t) with (j + k + (t - (i - alo + k))) by lia.
Qed.

(** The ratio is 1 for equal sequences only. *)
Lemma ratio_one_eq :
  Difflib.ratio eqb isjunk autojunk a b = 1%R -> a = b.
Proof.
  unfold Difflib.ratio, Difflib.calculate_ratio.
  destruct (length a + length b =? 0) eqn:E.
  - intros _. apply Nat.eqb_eq in E.
    destruct a; destruct b; try reflexivity; simpl in E; lia.
  - apply Nat.eqb_neq in E. intros H.
    destruct (matches_le eqb isjunk autojunk a b) as [Ma Mb].
    assert (Hpos : (0 < INR (length a + length b))%R)
      by (apply lt_0_INR; lia).
    assert (H2 : (2 * INR (Difflib.matches eqb isjunk autojunk a b)
                  = INR (length a + length b))%R).
    { apply (Rmult_eq_compat_r (INR (length a + length b))) in H.
      unfold Rdiv in H. rewrite Rmult_assoc, Rinv_l in H by lra. lra. }
    replace (2 * INR (Difflib.matches eqb isjunk autojunk a b))%R
      with (INR (Difflib.matches eqb isjunk autojunk a b
                 + Difflib.matches eqb isjunk autojunk a b))
      in H2 by (rewrite plus_INR; lra).
    apply INR_eq in H2.
    rewrite matches_total in Ma, Mb, H2.
    assert (Ta : total (blocks (length a) 0 (length a) 0 (length b))
                 = length a - 0) by lia.
    assert (Tb : total (blocks (length a) 0 (length a) 0 (length b))
                 = length b - 0) by lia.
    pose proof (blocks_cover (length a) 0 (length a) 0 (length b)
                  (Nat.le_0_l _) (Nat.le_0_l _) Ta Tb) as Hrun.
    assert (Hlen : length a = length b) by lia.
    apply nth_error_ext. intros n.
    destruct (Nat.lt_ge_cases n (length a)) as [Hlt|Hge].
    + destruct (Hrun n) as (x & X1 & X2); [lia|].
      simpl in X1, X2. now rewrite X1, X2.
    + rewrite (proj2 (nth_error_None a n)) by lia.
      rewrite (proj2 (nth_error_None b n)) by lia. reflexivity.
Qed.

End DifflibCorrect.

(** ** Distance zero *)

Section Zero.

Lemma chars_inj (s1 s2 : string) : chars s1 = chars s2 -> s1 = s2.
Proof.
  unfold chars. intros H.
  rewrite <- (string_of_list_ascii_of_string s1),
          <- (string_of_list_ascii_of_string s2).
  now rewrite H.
Qed.

Lemma ro_distance_zero_iff (a b : string) :
  ro_distance a b = 0%R <-> upper a = upper b.
Proof.
  split.
  - unfold ro_distance, ro_ratio. intros H.
    apply chars_inj, (ratio_one_eq Ascii.eqb ascii_eqb_iff junk true). lra.
  - unfold ro_distance, ro_ratio. intros ->.
    rewrite (ratio_self Ascii.eqb ascii_eqb_iff). lra.
Qed.

Lemma aceh_of_days_zero_iff (n : Z) : aceh_of_days n = 0%R <-> n = 0%Z.
Proof.
  split.
  - intros H. destruct (Z.eq_dec n 0) as [Hn|Hn]; [exact Hn|].
    pose proof (aceh_of_days_pos n Hn). lra.
  - intros ->. apply aceh_of_days_0.
Qed.

Lemma four_squares_zero (x y z w : R) :
  (sqrt (x ^ 2 + y ^ 2 + z ^ 2 + w ^ 2) / 2 = 0
   <-> x = 0 /\ y = 0 /\ z = 0 /\ w = 0)%R.
Proof.
  pose proof (pow2_ge_0 x). pose proof (pow2_ge_0 y).
  pose proof (pow2_ge_0 z). pose proof (pow2_ge_0 w).
  split.
  - intros H3.
    assert (Hs : sqrt (x ^ 2 + y ^ 2 + z ^ 2 + w ^ 2) = 0%R) by lra.
    apply sqrt_eq_0 in Hs; [|lra].
    assert (x ^ 2 = 0 /\ y ^ 2 = 0 /\ z ^ 2 = 0 /\ w ^ 2 = 0)%R
      as (Hx & Hy & Hz & Hw) by lra.
    repeat split; nra.
  - intros (-> & -> & -> & ->).
    replace (0 ^ 2 + 0 ^ 2 + 0 ^ 2 + 0 ^ 2)%R with 0%R by ring.
    rewrite sqrt_0. field.
Qed.

End Zero.

(** X8. The lexical sub-distance of two strings is 0 exactly when they
    are equal once uppercased: [ro_distance] tells apart any two strings
    that differ by more than letter case, junk characters and the
    popularity heuristic of long strings notwithstanding. *)
Theorem ro_distance_zero :
  forall a b : string, ro_distance a b = 0%R <-> upper a = upper b.
Proof.
  intros a b. apply ro_distance_zero_iff.
Qed.

(** X9. With both dates parsed, the distance of two tracks is 0 exactly
    when their titles, artists and albums are equal up to letter case and
    their release dates are 0 days apart. *)
Theorem get_tracks_distance_zero :
  forall (arrow_get : string -> result Z)
         (a_track a_artist a_album a_year
          b_track b_artist b_album b_year : string) (ad bd : Z),
    arrow_get a_year = Ok ad -> arrow_get b_year = Ok bd ->
    (get_tracks_distance arrow_get a_track a_artist a_album a_year
                         b_track b_artist b_album b_year = Ok 0%R
     <-> upper a_track = upper b_track
         /\ upper a_artist = upper b_artist
         /\ upper a_album = upper b_album
         /\ timedelta_days (ad - bd) = 0%Z).
Proof.
  intros arrow_get a_track a_artist a_album a_year
         b_track b_artist b_album b_year ad bd Ha Hb.
  rewrite (get_tracks_distance_ok arrow_get _ _ _ _ _ _ _ _ ad bd Ha Hb).
  rewrite <- !ro_distance_zero_iff, <- aceh_of_days_zero_iff.
  rewrite <- four_squares_zero. split.
  - intros H. now injection H.
  - intros ->. reflexivity.
Qed.

Lemma get_tracks_distance_zero_witness :
  get_tracks_distance Iso.iso_get "Hello" "ADELE" "25" "2015-10-23"
                      "hello" "Adele" "25" "2015-10-23" = Ok 0%R
  <-> upper "Hello" = upper "hello"
      /\ upper "ADELE" = upper "Adele"
      /\ upper "25" = upper "25"
      /\ timedelta_days (63581155200000000 - 63581155200000000) = 0%Z.
Proof.
  apply (get_tracks_distance_zero Iso.iso_get
           "Hello" "ADELE" "25" "2015-10-23"
           "hello" "Adele" "25" "2015-10-23"
           63581155200000000%Z 63581155200000000%Z);
    vm_compute; reflexivity.
Defined.

(** ** Swapping the two dates *)

Section Swap.

Local Open Scope Z_scope.

Lemma timedelta_days_opp_exact (x : Z) :
  x mod 86400000000 = 0 -> timedelta_days (- x) = - timedelta_days x.
Proof.
  intros H. unfold timedelta_days. now apply Z_div_zero_opp_full.
Qed.

Lemma timedelta_days_opp_floor (x : Z) :
  x mod 86400000000 <> 0 -> timedelta_days (- x) = - timedelta_days x - 1.
Proof.
  intros H. unfold timedelta_days. now apply Z_div_nz_opp_full.
Qed.

Lemma timedelta_days_nonneg (x : Z) : 0 <= x -> 0 <= timedelta_days x.
Proof.
  intros H. unfold timedelta_days. apply Z.div_pos; lia.
Qed.

(** The gap counted backwards is the same or one day more. *)
Lemma timedelta_days_swap (x : Z) :
  0 <= x ->
  Z.abs (timedelta_days x) <= Z.abs (timedelta_days (- x))
  <= Z.abs (timedelta_days x) + 1.
Proof.
  intros Hx. pose proof (timedelta_days_nonneg x Hx) as Hd.
  destruct (Z.eq_dec (x mod 86400000000) 0) as [E|E].
  - rewrite (timedelta_days_opp_exact x E). lia.
  - rewrite (timedelta_days_opp_floor x E). lia.
Qed.

End Swap.

(** X10. Swapping the two dates of [aceh_distance] changes the day gap
    by one day at most; the later date given first yields the smaller
    (or equal) sub-distance, and the two orders agree when the instants
    are a whole number of days apart. *)
Theorem aceh_distance_swap :
  forall (arrow_get : string -> result Z) (a b : string) (ad bd : Z),
    arrow_get a = Ok ad -> arrow_get b = Ok bd -> (bd <= ad)%Z ->
    aceh_distance arrow_get a b
    = Ok (aceh_of_days (timedelta_days (ad - bd)))
    /\ aceh_distance arrow_get b a
       = Ok (aceh_of_days (timedelta_days (bd - ad)))
    /\ (Z.abs (timedelta_days (ad - bd))
        <= Z.abs (timedelta_days (bd - ad))
        <= Z.abs (timedelta_days (ad - bd)) + 1)%Z
    /\ (aceh_of_days (timedelta_days (ad - bd))
        <= aceh_of_days (timedelta_days (bd - ad)))%R
    /\ (((ad - bd) mod 86400000000 = 0)%Z ->
        aceh_distance arrow_get a b = aceh_distance arrow_get b a).
Proof.
  intros arrow_get a b ad bd Ha Hb Hle.
  rewrite (aceh_distance_ok arrow_get a b ad bd Ha Hb).
  rewrite (aceh_distance_ok arrow_get b a bd ad Hb Ha).
  assert (Hx : (0 <= ad - bd)%Z) by lia.
  pose proof (timedelta_days_swap (ad - bd) Hx) as Hswap.
  replace (- (ad - bd))%Z with (bd - ad)%Z in Hswap by lia.
  repeat split; try lia.
  - apply aceh_of_days_mono. lia.
  - intros Hmod. f_equal.
    pose proof (timedelta_days_opp_exact (ad - bd) Hmod) as Hopp.
    replace (- (ad - bd))%Z with (bd - ad)%Z in Hopp by lia.
    rewrite Hopp. apply Rle_antisym; apply aceh_of_days_mono; lia.
Qed.

Lemma aceh_distance_swap_witness :
  aceh_distance Iso.iso_get "2005-03-01T08:00:00Z" "2005-03-01"
  = Ok (aceh_of_days
          (timedelta_days (63245260800000000 - 63245232000000000)))
  /\ aceh_distance Iso.iso_get "2005-03-01" "2005-03-01T08:00:00Z"
     = Ok (aceh_of_days
             (timedelta_days (63245232000000000 - 63245260800000000)))
  /\ (Z.abs (timedelta_days (63245260800000000 - 63245232000000000))
      <= Z.abs (timedelta_days (63245232000000000 - 63245260800000000))
      <= Z.abs (timedelta_days (63245260800000000 - 63245232000000000))
         + 1)%Z
  /\ (aceh_of_days
        (timedelta_days (63245260800000000 - 63245232000000000))
      <= aceh_of_days
           (timedelta_days (63245232000000000 - 63245260800000000)))%R
  /\ (((63245260800000000 - 63245232000000000) mod 86400000000 = 0)%Z ->
      aceh_distance Iso.iso_get "2005-03-01T08:00:00Z" "2005-03-01"
      = aceh_distance Iso.iso_get "2005-03-01" "2005-03-01T08:00:00Z").
Proof.
  apply (aceh_distance_swap Iso.iso_get
           "2005-03-01T08:00:00Z" "2005-03-01"
           63245260800000000%Z 63245232000000000%Z).
  - vm_compute. reflexivity.
  - vm_compute. reflexivity.
  - lia.
Defined.

(** ** The request body *)

Section RequestBody.

Local Open Scope Z_scope.

Lemma pack_I_in_range (x : Z) :
  0 <= x < 2 ^ 32 ->
  pack_I x = Done [Z.land (Z.shiftr x 24) 255; Z.land (Z.shiftr x 16) 255;
                   Z.land (Z.shiftr x 8) 255; Z.land x 255].
Proof.
  intros [H0 H1]. unfold pack_I.
  replace (0 <=? x) with true by (symmetry; now apply Z.leb_le).
  replace (x <? 2 ^ 32) with true by (symmetry; now apply Z.ltb_lt).
  reflexivity.
Qed.

Lemma pack_I_out_of_range (x : Z) :
  ~ (0 <= x < 2 ^ 32) -> pack_I x = Fails StructError.
Proof.
  intros H. unfold pack_I.
  destruct (0 <=? x) eqn:E0; [|reflexivity].
  destruct (x <? 2 ^ 32) eqn:E1; [|reflexivity].
  apply Z.leb_le in E0. apply Z.ltb_lt in E1. lia.
Qed.

Lemma byte_of_shift (x : Z) (k : Z) :
  0 <= k -> Z.land (Z.shiftr x k) 255 = (x / 2 ^ k) mod 256.
Proof.
  intros Hk. change 255 with (Z.ones 8).
  rewrite Z.land_ones by lia. rewrite Z.shiftr_div_pow2 by lia.
  reflexivity.
Qed.

Lemma byte_range (x : Z) (k : Z) :
  0 <= k -> 0 <= Z.land (Z.shiftr x k) 255 < 256.
Proof.
  intros Hk. rewrite byte_of_shift by exact Hk.
  apply Z.mod_pos_bound. lia.
Qed.

(** Four bytes packed and read back give the number. *)
Lemma unpack_I_packed (x : Z) :
  0 <= x < 2 ^ 32 ->
  unpack_I [Z.land (Z.shiftr x 24) 255; Z.land (Z.shiftr x 16) 255;
            Z.land (Z.shiftr x 8) 255; Z.land (Z.shiftr x 0) 255] = x.
Proof.
  intros Hx. unfold unpack_I. cbn [fold_left].
  rewrite !byte_of_shift by lia.
  change (2 ^ 24) with 16777216. change (2 ^ 16) with 65536.
  change (2 ^ 8) with 256. change (2 ^ 0) with 1.
  change (2 ^ 32) with 4294967296 in Hx.
  Z.div_mod_to_equations. lia.
Qed.

End RequestBody.

(** X11. For a timestamp and a track id that fit 32 bits,
    [construct_request_body] returns 77 bytes, one less than the
    template: bytes 16 to 19 read back as the timestamp, the last four as
    the track id, every other byte is the byte of the template at the
    same place, and the length field of the header (bytes 4 to 7) counts
    exactly the bytes that follow it. *)
Theorem construct_request_body_layout :
  forall timestamp itunes_identifier : Z,
    (0 <= timestamp < 2 ^ 32)%Z ->
    (0 <= itunes_identifier < 2 ^ 32)%Z ->
    exists template body : list Z,
      fromhex hex = Done template
      /\ length template = 78
      /\ construct_request_body timestamp itunes_identifier = Done body
      /\ length body = 77
      /\ unpack_I (firstn 4 (skipn 16 body)) = timestamp
      /\ unpack_I (skipn 73 body) = itunes_identifier
      /\ (forall n, n < 73 -> n < 16 \/ 20 <= n ->
            nth_error body n = nth_error template n)
      /\ Forall (fun byte => (0 <= byte < 256)%Z) body
      /\ unpack_I (firstn 4 (skipn 4 body))
         = (Z.of_nat (length body) - 8)%Z.
Proof.
  intros ts id Hts Hid.
  destruct (fromhex hex) as [template|e] eqn:ET; vm_compute in ET;
    [|discriminate].
  injection ET as <-.
  unfold construct_request_body.
  assert (ET' : fromhex hex
                = Done [97; 106; 67; 65; 0; 0; 0; 69; 109; 115; 116; 99; 0;
                        0; 0; 4; 85; 148; 23; 163; 109; 108; 105; 100; 0; 0;
                        0; 4; 0; 0; 0; 0; 109; 117; 115; 114; 0; 0; 0; 4; 0;
                        0; 0; 129; 109; 105; 107; 100; 0; 0; 0; 1; 2; 109;
                        105; 100; 97; 0; 0; 0; 16; 97; 101; 65; 105; 0; 0;
                        0; 8; 0; 0; 0; 0; 17; 140; 217; 44; 0]%Z)
    by (vm_compute; reflexivity).
  rewrite ET'. cbn [and_then].
  rewrite (pack_I_in_range ts Hts), (pack_I_in_range id Hid).
  cbn [and_then].
  pose proof (unpack_I_packed ts Hts) as Rts.
  pose proof (unpack_I_packed id Hid) as Rid.
  pose proof (byte_range ts 24 ltac:(lia)) as T3.
  pose proof (byte_range ts 16 ltac:(lia)) as T2.
  pose proof (byte_range ts 8 ltac:(lia)) as T1.
  pose proof (byte_range ts 0 ltac:(lia)) as T0.
  pose proof (byte_range id 24 ltac:(lia)) as I3.
  pose proof (byte_range id 16 ltac:(lia)) as I2.
  pose proof (byte_range id 8 ltac:(lia)) as I1.
  pose proof (byte_range id 0 ltac:(lia)) as I0.
  change (Z.land ts 255) with (Z.land (Z.shiftr ts 0) 255).
  change (Z.land id 255) with (Z.land (Z.shiftr id 0) 255).
  set (t3 := Z.land (Z.shiftr ts 24) 255) in *.
  set (t2 := Z.land (Z.shiftr ts 16) 255) in *.
  set (t1 := Z.land (Z.shiftr ts 8) 255) in *.
  set (t0 := Z.land (Z.shiftr ts 0) 255) in *.
  set (i3 := Z.land (Z.shiftr id 24) 255) in *.
  set (i2 := Z.land (Z.shiftr id 16) 255) in *.
  set (i1 := Z.land (Z.shiftr id 8) 255) in *.
  set (i0 := Z.land (Z.shiftr id 0) 255) in *.
  clearbody t3 t2 t1 t0 i3 i2 i1 i0.
  eexists. eexists. split; [reflexivity|]. split; [reflexivity|].
  split; [reflexivity|].
  cbn [set_slice set_tail firstn skipn app length Nat.sub].
  split; [reflexivity|]. split; [exact Rts|]. split; [exact Rid|].
  split.
  - intros n Hn Hor.
    do 73 (destruct n as [|n]; [try reflexivity; lia|]). lia.
  - split.
    + repeat (apply Forall_cons; [lia|]). apply Forall_nil.
    + reflexivity.
Qed.

Lemma construct_request_body_layout_witness :
  exists template body : list Z,
    fromhex hex = Done template
    /\ length template = 78
    /\ construct_request_body 1762214400 1051394215 = Done body
    /\ length body = 77
    /\ unpack_I (firstn 4 (skipn 16 body)) = 1762214400%Z
    /\ unpack_I (skipn 73 body) = 1051394215%Z
    /\ (forall n, n < 73 -> n < 16 \/ 20 <= n ->
          nth_error body n = nth_error template n)
    /\ Forall (fun byte => (0 <= byte < 256)%Z) body
    /\ unpack_I (firstn 4 (skipn 4 body))
       = (Z.of_nat (length body) - 8)%Z.
Proof.
  apply (construct_request_body_layout 1762214400 1051394215); lia.
Defined.

Lemma construct_request_body_range_error (timestamp itunes_identifier : Z) :
  ~ (0 <= timestamp < 2 ^ 32)%Z
  \/ ~ (0 <= itunes_identifier < 2 ^ 32)%Z ->
  construct_request_body timestamp itunes_identifier = Fails StructError.
Proof.
  revert timestamp itunes_identifier.
  intros ts id H. unfold construct_request_body.
  destruct (fromhex hex) as [template|e] eqn:ET; vm_compute in ET;
    [|discriminate].
  cbn [and_then].
  destruct (pack_I ts) as [pts|e] eqn:Ets.
  - cbn [and_then]. destruct H as [H|H].
    + rewrite (pack_I_out_of_range ts H) in Ets. discriminate.
    + now rewrite (pack_I_out_of_range id H).
  - cbn [and_then]. unfold pack_I in Ets.
    destruct ((0 <=? ts) && (ts <? 2 ^ 32))%Z; [discriminate|].
    symmetry. exact Ets.
Qed.

(** X12. A timestamp or a track id that does not fit 32 bits (negative,
    or 2^32 and more) makes [construct_request_body] raise
    [struct.error]: no body is built. *)
Theorem construct_request_body_out_of_range :
  forall timestamp itunes_identifier : Z,
    ~ (0 <= timestamp < 2 ^ 32)%Z
    \/ ~ (0 <= itunes_identifier < 2 ^ 32)%Z ->
    construct_request_body timestamp itunes_identifier = Fails StructError.
Proof.
  intros ts id H. now apply construct_request_body_range_error.
Qed.

Lemma construct_request_body_out_of_range_witness :
  construct_request_body 1762214400 (-1) = Fails StructError
  /\ construct_request_body 4294967296 1051394215 = Fails StructError.
Proof.
  split.
  - apply (construct_request_body_out_of_range 1762214400 (-1)).
    right. lia.
  - apply (construct_request_body_out_of_range 4294967296 1051394215).
    left. lia.
Defined.

(** ** Adding a track *)

Section AddTrackFacts.

Variable now : Z.
Variable requests_get : list Z -> string -> option Z.

(** A request that raises leaves [add_track_AM] without a response to
    return: its own [try] does not stop the failure. *)
Lemma add_track_AM_unbound (trackId : Z) (_country : string)
    (body : list Z) :
  construct_request_body now trackId = Done body ->
  requests_get body _country = None ->
  add_track_AM now requests_get trackId _country = Fails UnboundLocalError.
Proof.
  intros Hb Hr. unfold add_track_AM. rewrite Hb. cbn [and_then].
  now rewrite Hr.
Qed.

Lemma add_track_AM_status (trackId : Z) (_country : string) (status : Z) :
  add_track_AM now requests_get trackId _country = Done status <->
  exists body,
    construct_request_body now trackId = Done body
    /\ requests_get body _country = Some status.
Proof.
  unfold add_track_AM. split.
  - destruct (construct_request_body now trackId) as [body|e];
      [|discriminate].
    cbn [and_then].
    destruct (requests_get body _country) as [st|] eqn:Er; [|discriminate].
    intros H. injection H as <-. now exists body.
  - intros (body & -> & Hr). cbn [and_then]. now rewrite Hr.
Qed.

Lemma addTrack_iff (_id : Z) (_c : string) :
  addTrack now requests_get _id _c = true <->
  add_track_AM now requests_get _id _c = Done 200%Z.
Proof.
  unfold addTrack.
  destruct (add_track_AM now requests_get _id _c) as [resp|e];
    cbn [and_then]; [|split; discriminate].
  destruct (resp =? 200)%Z eqn:E200.
  - apply Z.eqb_eq in E200. subst resp. split; reflexivity.
  - apply Z.eqb_neq in E200.
    assert (Hno : Done resp <> Done 200%Z :> attempt Z)
      by (intros H; injection H; exact E200).
    destruct (resp =? 403)%Z; [split; [discriminate|contradiction]|].
    destruct (resp =? 404)%Z; [split; [discriminate|contradiction]|].
    destruct (resp =? 400)%Z; split; (discriminate || contradiction).
Qed.

End AddTrackFacts.

(** X13. [addTrack] never raises, and it answers [True] in one case only:
    the timestamp and the track id fit 32 bits, the request was sent with
    the body built from them and the response had status 200.  Any other
    status, a request that raises, or an id that cannot be packed give
    [False]. *)
Theorem addTrack_true_iff :
  forall (now : Z) (requests_get : list Z -> string -> option Z)
         (_id : Z) (_c : string),
    addTrack now requests_get _id _c = true <->
    (0 <= now < 2 ^ 32)%Z /\ (0 <= _id < 2 ^ 32)%Z
    /\ exists body,
         construct_request_body now _id = Done body
         /\ requests_get body _c = Some 200%Z.
Proof.
  intros now requests_get _id _c.
  rewrite addTrack_iff, add_track_AM_status. split.
  - intros (body & Hb & Hr).
    assert (Hrange : (0 <= now < 2 ^ 32)%Z /\ (0 <= _id < 2 ^ 32)%Z).
    { destruct (Z_le_dec 0 now); destruct (Z_lt_dec now (2 ^ 32));
        destruct (Z_le_dec 0 _id); destruct (Z_lt_dec _id (2 ^ 32));
        try (split; lia);
        rewrite construct_request_body_range_error in Hb
          by (lia || (left; lia) || (right; lia));
        discriminate. }
    destruct Hrange as [H1 H2]. repeat split; try lia. now exists body.
  - intros (_ & _ & body & Hb & Hr). now exists body.
Qed.

(** ** Skips, and the order of the candidates *)

Section Skips.

Variable arrow_get : string -> result Z.



(** Sorted lists of the same elements, no two of one key, are equal. *)
Lemma sorted_perm_unique (key : AMTrack -> R) (r1 : list AMTrack) :
  forall r2,
    StronglySorted (fun x y => (key x <= key y)%R) r1 ->
    StronglySorted (fun x y => (key x <= key y)%R) r2 ->
    Permutation r1 r2 ->
    (forall x y, In x r1 -> In y r1 -> key x = key y -> x = y) ->
    r1 = r2.
Proof.
  induction r1 as [|x r1 IH]; intros r2 S1 S2 Hp Hinj.
  - now apply Permutation_nil in Hp.
  - destruct r2 as [|y r2];
      [apply Permutation_sym, Permutation_nil in Hp; discriminate|].
    inversion S1 as [|? ? S1' A1]; inversion S2 as [|? ? S2' A2]; subst.
    rewrite Forall_forall in A1, A2.
    assert (Hy : In y (x :: r1))
      by (apply (Permutation_in _ (Permutation_sym Hp)); now left).
    assert (Hx : In x (y :: r2))
      by (apply (Permutation_in _ Hp); now left).
    assert (Hxy : (key x <= key y)%R)
      by (destruct Hy as [->|Hy]; [lra|now apply A1]).
    assert (Hyx : (key y <= key x)%R)
      by (destruct Hx as [->|Hx]; [lra|now apply A2]).
    assert (Heq : x = y)
      by (apply Hinj; [now left|exact Hy|lra]).
    subst y. f_equal. apply IH; auto.
    + now apply Permutation_cons_inv with (a := x).
    + intros u v Hu Hv. apply Hinj; now right.
Qed.

End Skips.




(** X15. The order in which the search returned the candidates matters
    for ties only: when all candidates are scored and no two of them are
    at the same distance, any reordering of the list leads to the same
    decision. *)
Theorem resolve_order_irrelevant :
  forall (arrow_get : string -> result Z) (_err : R) (_auto : bool)
         (_treshold : R) (song : Song)
         (candidates candidates' : list AMTrack) (stdin : list string),
    Permutation candidates candidates' ->
    (forall c, In c candidates ->
               exists d, distance arrow_get c song = Ok d) ->
    (forall c c', In c candidates -> In c' candidates ->
       score arrow_get song c = score arrow_get song c' -> c = c') ->
    resolve arrow_get _err _auto _treshold song candidates stdin
    = resolve arrow_get _err _auto _treshold song candidates' stdin.
Proof.
  intros arrow_get _err _auto _treshold song l l' stdin Hp Hd Hinj.
  pose proof (Permutation_length Hp) as Hlen.
  destruct (le_lt_dec 2 (length l)) as [H2|H2].
  - pose proof (distance_scored arrow_get song l Hd) as Hk.
    assert (Hk' : forall c, In c l' ->
              distance arrow_get c song = Ok (score arrow_get song c)).
    { intros c Hc. apply Hk.
      now apply (Permutation_in _ (Permutation_sym Hp)). }
    destruct (resolve_scored arrow_get _err _auto _treshold song l stdin
                H2 Hk) as (top & rest & (P1 & S1 & _) & ->).
    assert (H2' : 2 <= length l') by lia.
    destruct (resolve_scored arrow_get _err _auto _treshold song l' stdin
                H2' Hk') as (top' & rest' & (P2 & S2 & _) & ->).
    assert (Heq : top :: rest = top' :: rest').
    { apply (sorted_perm_unique (score arrow_get song)); auto.
      - eapply perm_trans; [apply Permutation_sym, P1|].
        eapply perm_trans; [apply Hp|apply P2].
      - intros x y Hx Hy. apply Hinj;
          now apply (Permutation_in _ (Permutation_sym P1)). }
    injection Heq as -> ->. reflexivity.
  - destruct l as [|c [|c2 l]]; simpl in H2; try lia.
    + apply Permutation_nil in Hp. now subst l'.
    + apply Permutation_length_1_inv in Hp. now subst l'.
Qed.

Lemma resolve_order_irrelevant_witness :
  resolve Iso.iso_get (11 / 100) false (4 / 10) Sample.hello
          [Sample.hello_deluxe; Sample.hello_am] []
  = resolve Iso.iso_get (11 / 100) false (4 / 10) Sample.hello
            [Sample.hello_am; Sample.hello_deluxe] [].
Proof.
  assert (Ham : distance Iso.iso_get Sample.hello_am Sample.hello = Ok 0%R).
  { unfold distance. apply get_tracks_distance_same
      with (t := 63581155200000000%Z). vm_compute. reflexivity. }
  assert (Hdl : exists d, distance Iso.iso_get Sample.hello_deluxe
                            Sample.hello = Ok d /\ (0 < d)%R).
  { eexists. split.
    - unfold distance. eapply get_tracks_distance_ok; vm_compute; reflexivity.
    - set (days := timedelta_days _).
      assert (Hy : (0 < aceh_of_days days)%R)
        by (apply aceh_of_days_pos; vm_compute; discriminate).
      apply Rdiv_lt_0_compat; [|lra]. apply sqrt_lt_R0.
      pose proof (pow2_ge_0 (ro_distance "Hello" "Hello")).
      pose proof (pow2_ge_0 (ro_distance "Adele" "Adele")).
      pose proof (pow2_ge_0 (ro_distance "25 (Deluxe)" "25")).
      assert (0 < aceh_of_days days ^ 2)%R by nra.
      simpl trackName; simpl artistName; simpl collectionName;
        simpl title; simpl artist; simpl album. lra. }
  destruct Hdl as [d [Hdl Hd]].
  apply (resolve_order_irrelevant Iso.iso_get (11 / 100) false (4 / 10)
           Sample.hello [Sample.hello_deluxe; Sample.hello_am]
           [Sample.hello_am; Sample.hello_deluxe] []).
  - apply perm_swap.
  - intros c [<-|[<-|[]]]; [exists d; exact Hdl|exists 0%R; exact Ham].
  - intros c c' [<-|[<-|[]]] [<-|[<-|[]]]; try reflexivity;
      unfold score; rewrite Hdl, Ham; intros H; lra.
Defined.

(** ** The property list of [buildXML] *)

Section BuildXMLFacts.

Variable arrow_get : string -> result Z.
Variable arrow_year : Z -> Z.

Lemma to_int_nonnil (z : Z) :
  Z.to_int z <> Decimal.Pos Decimal.Nil
  /\ Z.to_int z <> Decimal.Neg Decimal.Nil.
Proof.
  destruct z as [|p|p]; cbn; split; try discriminate;
    intros E; injection E; apply DecimalPos.Unsigned.to_uint_nonnil.
Qed.

Lemma str_inj (a b : Z) : str a = str b -> a = b.
Proof.
  unfold str. intros H. apply DecimalZ.to_int_inj.
  destruct (to_int_nonnil a) as [Ha1 Ha2], (to_int_nonnil b) as [Hb1 Hb2].
  pose proof (NilZero.isi _ Ha1 Ha2) as Ea.
  pose proof (NilZero.isi _ Hb1 Hb2) as Eb.
  rewrite H, Eb in Ea. now injection Ea.
Qed.

Lemma track_ids_length (n : nat) :
  forall first, length (track_ids n first) = n.
Proof.
  induction n as [|n IH]; intros first; cbn; [reflexivity|].
  now rewrite IH.
Qed.

Lemma track_ids_nth (n : nat) :
  forall first i, i < n ->
    nth_error (track_ids n first) i = Some (first + 2 * Z.of_nat i)%Z.
Proof.
  induction n as [|n IH]; intros first i Hi; [lia|].
  destruct i as [|i]; cbn [track_ids nth_error].
  - f_equal. lia.
  - rewrite IH by lia. f_equal. lia.
Qed.

Lemma track_ids_ge (n : nat) :
  forall first x, In x (track_ids n first) -> (first <= x)%Z.
Proof.
  induction n as [|n IH]; intros first x Hx; cbn in Hx; [contradiction|].
  destruct Hx as [<-|Hx]; [lia|]. apply IH in Hx. lia.
Qed.

Lemma track_ids_NoDup (n : nat) : forall first, NoDup (track_ids n first).
Proof.
  induction n as [|n IH]; intros first; cbn; constructor.
  - intros H. apply track_ids_ge in H. lia.
  - apply IH.
Qed.

Lemma str_NoDup (l : list Z) : NoDup l -> NoDup (map str l).
Proof.
  induction 1 as [|x l Hx Hl IH]; cbn; constructor; [|exact IH].
  intros H. apply in_map_iff in H. destruct H as [y [Hy Hin]].
  apply str_inj in Hy. now subst y.
Qed.

Lemma buildXML_tracks_ok (playlist : list ITunesSong) :
  Forall (fun song =>
            exists t, arrow_get (releaseDate (am_track song)) = Ok t)
         playlist ->
  forall first, exists _tracks,
    buildXML_tracks arrow_get arrow_year playlist first = Done _tracks
    /\ map fst _tracks = map str (track_ids (length playlist) first)
    /\ playlistItems _tracks
       = Done (map (fun id => PDict [("Track ID"%string, PInt id)])
                   (track_ids (length playlist) first))
    /\ forall i song, nth_error playlist i = Some song ->
         exists t,
           arrow_get (releaseDate (am_track song)) = Ok t
           /\ nth_error _tracks i
              = Some (str (first + 2 * Z.of_nat i),
                      track_entry (first + 2 * Z.of_nat i) song
                                  (arrow_year t)).
Proof.
  induction 1 as [|song playlist [t Ht] _ IH]; intros first.
  - exists []. repeat split. intros [|i] song H; discriminate.
  - destruct (IH (first + 2)%Z) as [_tracks [Hb [Hk [Hi Hn]]]].
    exists ((str first, track_entry first song (arrow_year t)) :: _tracks).
    cbn [buildXML_tracks]. rewrite Ht. cbn [lift and_then].
    rewrite Hb. cbn [and_then]. repeat split.
    + cbn [map fst length track_ids]. now rewrite Hk.
    + cbn [playlistItems]. rewrite Hi. reflexivity.
    + intros [|i] s Hs; cbn [nth_error] in *.
      * injection Hs as <-. exists t. split; [exact Ht|].
        replace (first + 2 * Z.of_nat 0)%Z with first by lia. reflexivity.
      * destruct (Hn i s Hs) as [t' [Ht' Hnth]]. exists t'.
        split; [exact Ht'|]. rewrite Hnth.
        replace (first + 2 + 2 * Z.of_nat i)%Z
          with (first + 2 * Z.of_nat (S i))%Z by lia.
        reflexivity.
Qed.

Lemma buildXML_tracks_raise (playlist : list ITunesSong) :
  forall song e,
    In song playlist ->
    arrow_get (releaseDate (am_track song)) = Raise e ->
    forall first, exists song' e',
      In song' playlist
      /\ arrow_get (releaseDate (am_track song')) = Raise e'
      /\ buildXML_tracks arrow_get arrow_year playlist first
         = Fails (Raised e').
Proof.
  induction playlist as [|s playlist IH]; intros song e Hin He first;
    [contradiction|].
  cbn [buildXML_tracks].
  destruct (arrow_get (releaseDate (am_track s))) as [t|e0] eqn:Hs.
  - destruct Hin as [->|Hin]; [congruence|].
    destruct (IH song e Hin He (first + 2)%Z) as [s' [e' [Hin' [He' Hb]]]].
    exists s', e'. repeat split; [now right|exact He'|].
    cbn [lift and_then]. rewrite Hb. reflexivity.
  - exists s, e0. repeat split; [now left|exact Hs].
Qed.

Lemma buildXML_plist_raise (playlist : list ITunesSong)
    (_title _description : string) (song : ITunesSong) (e : exn) :
  In song playlist ->
  arrow_get (releaseDate (am_track song)) = Raise e ->
  exists song' e',
    In song' playlist
    /\ arrow_get (releaseDate (am_track song')) = Raise e'
    /\ buildXML_plist arrow_get arrow_year playlist _title _description
       = Fails (Raised e').
Proof.
  intros Hin He.
  destruct (buildXML_tracks_raise playlist song e Hin He 10000%Z)
    as [s' [e' [Hin' [He' Hb]]]].
  exists s', e'. repeat split; [exact Hin'|exact He'|].
  unfold buildXML_plist. rewrite Hb. reflexivity.
Qed.

End BuildXMLFacts.


(** X16. When every release date of the playlist is read, [buildXML]
    builds its property list: the tracks are keyed [str(10000)],
    [str(10002)], ... in the order of the playlist, no key twice; the
    track at place [i] is the entry of the song at place [i], with the id
    [10000 + 2 i] and the year of its date; and the playlist items list
    the same ids in the same order. *)
Theorem buildXML_numbers_tracks :
  forall (arrow_get : string -> result Z) (arrow_year : Z -> Z)
         (playlist : list ITunesSong) (_title _description : string),
    Forall (fun song =>
              exists t, arrow_get (releaseDate (am_track song)) = Ok t)
           playlist ->
    exists _tracks items,
      buildXML_plist arrow_get arrow_year playlist _title _description
      = Done (pl _title _description _tracks items)
      /\ map fst _tracks = map str (track_ids (length playlist) 10000)
      /\ NoDup (map fst _tracks)
      /\ items = map (fun id => PDict [("Track ID"%string, PInt id)])
                     (track_ids (length playlist) 10000)
      /\ forall i song, nth_error playlist i = Some song ->
           exists t,
             arrow_get (releaseDate (am_track song)) = Ok t
             /\ nth_error _tracks i
                = Some (str (10000 + 2 * Z.of_nat i),
                        track_entry (10000 + 2 * Z.of_nat i) song
                                    (arrow_year t)).
Proof.
  intros arrow_get arrow_year playlist _title _description H.
  destruct (buildXML_tracks_ok arrow_get arrow_year playlist H 10000%Z)
    as [_tracks [Hb [Hk [Hi Hn]]]].
  exists _tracks. eexists. split; [|split; [exact Hk|split; [|split]]].
  - unfold buildXML_plist. rewrite Hb. cbn [and_then]. rewrite Hi.
    reflexivity.
  - rewrite Hk. apply str_NoDup, track_ids_NoDup.
  - reflexivity.
  - exact Hn.
Qed.

Lemma buildXML_numbers_tracks_witness :
  exists _tracks items,
    buildXML_plist Iso.iso_get IsoYear.iso_year
      [IsoYear.hello_song; IsoYear.hello_deluxe_song] "Adele" ""
    = Done (pl "Adele" "" _tracks items)
    /\ map fst _tracks = ["10000"; "10002"]%string
    /\ items = [ PDict [("Track ID"%string, PInt 10000)];
                 PDict [("Track ID"%string, PInt 10002)] ].
Proof.
  destruct (buildXML_numbers_tracks Iso.iso_get IsoYear.iso_year
              [IsoYear.hello_song; IsoYear.hello_deluxe_song] "Adele" "")
    as [_tracks [items [Hpl [Hk [_ [Hi _]]]]]].
  - repeat constructor; eexists; vm_compute; reflexivity.
  - exists _tracks, items. split; [exact Hpl|]. split; [exact Hk|exact Hi].
Defined.

(** X17. A song of the playlist whose release date [arrow.get] does not
    read makes [buildXML] raise: no property list is built, and the
    exception is the parser's for a song of the playlist. *)
Theorem buildXML_unreadable_date :
  forall (arrow_get : string -> result Z) (arrow_year : Z -> Z)
         (playlist : list ITunesSong) (_title _description : string)
         (song : ITunesSong) (e : exn),
    In song playlist ->
    arrow_get (releaseDate (am_track song)) = Raise e ->
    exists song' e',
      In song' playlist
      /\ arrow_get (releaseDate (am_track song')) = Raise e'
      /\ buildXML_plist arrow_get arrow_year playlist _title _description
         = Fails (Raised e').
Proof.
  intros arrow_get arrow_year playlist _title _description song e Hin He.
  now apply buildXML_plist_raise with (song := song) (e := e).
Qed.

Lemma buildXML_unreadable_date_witness :
  exists song' e',
    In song' [IsoYear.hello_song; IsoYear.hello_undated_song]
    /\ Iso.iso_get (releaseDate (am_track song')) = Raise e'
    /\ buildXML_plist Iso.iso_get IsoYear.iso_year
         [IsoYear.hello_song; IsoYear.hello_undated_song] "Adele" ""
       = Fails (Raised e').
Proof.
  apply (buildXML_unreadable_date Iso.iso_get IsoYear.iso_year
           [IsoYear.hello_song; IsoYear.hello_undated_song] "Adele" ""
           IsoYear.hello_undated_song ParserError).
  - right. left. reflexivity.
  - vm_compute. reflexivity.
Defined.

(** ** From the rows of the file to the export *)

Section Exported.

Variable arrow_get : string -> result Z.
Variable arrow_year : Z -> Z.

Lemma add_tracks_from_CSV_single (addTrack : Z -> bool) (_add_tracks : bool)
    (_err : R) (_auto : bool) (_treshold : R) (song : Song) (c : AMTrack) :
  _add_tracks = false \/ addTrack (trackId c) = true ->
  forall rows stdin am_playlist rest,
    add_tracks_from_CSV arrow_get addTrack _add_tracks _err _auto _treshold
      rows stdin = Ok (am_playlist, rest) ->
    In (song, [c]) rows ->
    In c am_playlist.
Proof.
  intros Hadd.
  assert (Hc : _add_tracks && negb (addTrack (trackId c)) = false).
  { destruct Hadd as [->| ->]; [reflexivity|].
    now rewrite andb_false_r. }
  induction rows as [|[song0 candidates] rows IH];
    intros stdin am_playlist rest H Hin; [contradiction|].
  cbn [add_tracks_from_CSV] in H.
  destruct (resolve arrow_get _err _auto _treshold song0 candidates stdin)
    as [[d stdin']|e] eqn:Hr; [|discriminate].
  cbn [bind] in H.
  destruct (add_tracks_from_CSV arrow_get addTrack _add_tracks _err _auto
              _treshold rows stdin') as [[pl' out]|e] eqn:Hrec;
    [|discriminate].
  cbn [bind] in H.
  destruct Hin as [E|Hin].
  - injection E as -> ->. cbn [resolve] in Hr. injection Hr as <- <-.
    rewrite Hc in H. injection H as <- <-. now left.
  - specialize (IH _ _ _ Hrec Hin).
    destruct d as [selected|].
    + destruct (_add_tracks && negb (addTrack (trackId selected)));
        injection H as <- <-; [exact IH|now right].
    + injection H as <- <-. exact IH.
Qed.

End Exported.

(** X18. A row whose search gave one candidate puts that candidate in
    the playlist of [add_tracks_from_CSV] (when tracks are not added, or
    [addTrack] answers [True]); if its release date is one [arrow.get]
    does not read, [buildXML] raises on the playlist that comes out. *)
Theorem export_fails_on_single_undated_candidate :
  forall (arrow_get : string -> result Z) (arrow_year : Z -> Z)
         (addTrack : Z -> bool) (_add_tracks : bool) (_err : R)
         (_auto : bool) (_treshold : R)
         (rows : list (Song * list AMTrack)) (stdin : list string)
         (am_playlist : list AMTrack) (rest : list string)
         (song : Song) (c : AMTrack) (e : exn),
    add_tracks_from_CSV arrow_get addTrack _add_tracks _err _auto _treshold
      rows stdin = Ok (am_playlist, rest) ->
    In (song, [c]) rows ->
    _add_tracks = false \/ addTrack (trackId c) = true ->
    arrow_get (releaseDate c) = Raise e ->
    In c am_playlist
    /\ forall (playlist : list ITunesSong) (_title _description : string),
         map am_track playlist = am_playlist ->
         exists e',
           buildXML_plist arrow_get arrow_year playlist _title _description
           = Fails (Raised e').
Proof.
  intros arrow_get arrow_year addTrack _add_tracks _err _auto _treshold
         rows stdin am_playlist rest song c e Hrun Hrow Hadd He.
  assert (Hin : In c am_playlist)
    by (eapply add_tracks_from_CSV_single; eassumption).
  split; [exact Hin|].
  intros playlist _title _description Hpl.
  rewrite <- Hpl in Hin. apply in_map_iff in Hin.
  destruct Hin as [s [Hs Hin]].
  destruct (buildXML_plist_raise arrow_get arrow_year playlist _title
              _description s e Hin) as [s' [e' [_ [_ Hb]]]].
  - now rewrite Hs.
  - now exists e'.
Qed.

Lemma export_fails_on_single_undated_candidate_witness :
  In Sample.hello_undated [Sample.hello_undated]
  /\ forall (playlist : list ITunesSong) (_title _description : string),
       map am_track playlist = [Sample.hello_undated] ->
       exists e',
         buildXML_plist Iso.iso_get IsoYear.iso_year playlist _title
           _description
         = Fails (Raised e').
Proof.
  apply (export_fails_on_single_undated_candidate Iso.iso_get
           IsoYear.iso_year (fun _ => true) false (11 / 100) true (4 / 10)
           [(Sample.hello, [Sample.hello_undated])] []
           [Sample.hello_undated] [] Sample.hello Sample.hello_undated
           ParserError).
  - reflexivity.
  - left. reflexivity.
  - left. reflexivity.
  - vm_compute. reflexivity.
Defined.

(** ** The separators of the CSV file *)

Section Separators.

Lemma split_not_nil (sep : ascii) (s : string) : split sep s <> [].
Proof.
  destruct s as [|c s]; cbn; [discriminate|].
  destruct (Ascii.eqb c sep); [discriminate|].
  destruct (split sep s); discriminate.
Qed.

Lemma split_no_sep (sep : ascii) (s : string) :
  contains sep s = false -> split sep s = [s].
Proof.
  induction s as [|c s IH]; cbn; [reflexivity|].
  intros H. apply orb_false_iff in H. destruct H as [Hc Hs].
  rewrite Hc, (IH Hs). reflexivity.
Qed.

Lemma split_app (sep : ascii) (a b : string) :
  contains sep a = false ->
  split sep (a ++ String sep b) = a :: split sep b.
Proof.
  induction a as [|c a IH]; cbn.
  - intros _. now rewrite Ascii.eqb_refl.
  - intros H. apply orb_false_iff in H. destruct H as [Hc Ha].
    rewrite Hc, (IH Ha). reflexivity.
Qed.

Lemma contains_str_replace (old new : ascii) (s : string) :
  old <> new -> contains old (str_replace old new s) = false.
Proof.
  intros Hne. induction s as [|c s IH]; cbn; [reflexivity|].
  rewrite IH, orb_false_r.
  destruct (Ascii.eqb c old) eqn:Hc; [|exact Hc].
  apply Ascii.eqb_neq. congruence.
Qed.

Lemma contains_app (c : ascii) (a b : string) :
  contains c (a ++ b) = contains c a || contains c b.
Proof.
  induction a as [|x a IH]; cbn; [reflexivity|].
  now rewrite IH, orb_assoc.
Qed.

Lemma line_fields (tr : Csv.Item) :
  contains ";" (Csv.spotify_id tr) = false ->
  contains ";" (Csv.track_url tr) = false ->
  contains ";" (Csv.album_url tr) = false ->
  contains ";" (Csv.release_date tr) = false ->
  split ";" (Csv.line tr)
  = [ Csv.spotify_id tr; Csv.track_url tr;
      str_replace ";" ":" (Csv.title tr);
      str_replace ";" ":" (Csv.artist tr);
      str_replace ";" ":" (Csv.album tr);
      Csv.album_url tr;
      (Csv.release_date tr ++ Csv.newline)%string ].
Proof.
  intros Hid Hurl Halb Hdate. unfold Csv.line.
  change (";"%string) with (String ";"%char EmptyString).
  cbn [String.append].
  assert (Hne : ";"%char <> ":"%char) by discriminate.
  repeat (rewrite split_app
            by (assumption || (apply contains_str_replace; exact Hne))).
  rewrite split_no_sep; [reflexivity|].
  rewrite contains_app, Hdate. reflexivity.
Qed.

End Separators.

(** X19. Whatever the title, the artist and the album of a track hold,
    the line [dump_csv] writes for it has the seven fields of the header
    between its separators, as long as the id, the two urls and the
    release date hold no [;]: line [i + 1] of the file splits into the
    id, the url, the three names with [;] turned into [:], the album url
    and the date. *)
Theorem dump_csv_line_fields :
  forall (songs : list Csv.Item) (i : nat) (tr : Csv.Item),
    nth_error songs i = Some tr ->
    contains ";" (Csv.spotify_id tr) = false ->
    contains ";" (Csv.track_url tr) = false ->
    contains ";" (Csv.album_url tr) = false ->
    contains ";" (Csv.release_date tr) = false ->
    exists line,
      nth_error (Csv.dump_csv songs) (S i) = Some line
      /\ split ";" line
         = [ Csv.spotify_id tr; Csv.track_url tr;
             str_replace ";" ":" (Csv.title tr);
             str_replace ";" ":" (Csv.artist tr);
             str_replace ";" ":" (Csv.album tr);
             Csv.album_url tr;
             (Csv.release_date tr ++ Csv.newline)%string ]
      /\ length (split ";" line) = length (split ";" Csv.header).
Proof.
  intros songs i tr Hi Hid Hurl Halb Hdate.
  exists (Csv.line tr). split; [|split].
  - unfold Csv.dump_csv. cbn [nth_error].
    now rewrite nth_error_map, Hi.
  - now apply line_fields.
  - rewrite line_fields by assumption. reflexivity.
Qed.

Lemma dump_csv_line_fields_witness :
  exists line,
    nth_error
      (Csv.dump_csv
         [Csv.mkItem "4sPmO7WMQUAf45kwMOtONw" "https://open.spotify.com/t"
                     "Hello; again" "Adele" "25" "https://open.spotify.com/a"
                     "2015-10-23"]) 1
    = Some line
    /\ split ";" line
       = [ "4sPmO7WMQUAf45kwMOtONw"; "https://open.spotify.com/t";
           "Hello: again"; "Adele"; "25"; "https://open.spotify.com/a";
           "2015-10-23" ++ Csv.newline ]%string
    /\ length (split ";" line) = length (split ";" Csv.header).
Proof.
  apply (dump_csv_line_fields
           [Csv.mkItem "4sPmO7WMQUAf45kwMOtONw" "https://open.spotify.com/t"
                       "Hello; again" "Adele" "25"
                       "https://open.spotify.com/a" "2015-10-23"]
           0
           (Csv.mkItem "4sPmO7WMQUAf45kwMOtONw" "https://open.spotify.com/t"
                       "Hello; again" "Adele" "25"
                       "https://open.spotify.com/a" "2015-10-23"));
    reflexivity.
Defined.

(** ** The nested lookup of [DictQuery] *)

Section DictQueryFacts.

Import DictQuery.

Lemma get_path (self : list (string * value)) (key rest : string)
    (default : value) :
  contains "/" key = false ->
  DictQuery.get self (key ++ "/" ++ rest) default
  = (let val := dict_get self key default in
     if truthy val then loop (split "/" rest) val default else Done val).
Proof.
  intros Hk. unfold DictQuery.get.
  change ("/" ++ rest)%string with (String "/"%char rest).
  now rewrite split_app.
Qed.

Lemma loop_dict (d : list (string * value)) (path : string)
    (default : value) :
  loop (split "/" path) (VDict d) default = DictQuery.get d path default.
Proof.
  unfold DictQuery.get. destruct (split "/" path) as [|key keys] eqn:Hs.
  - now apply split_not_nil in Hs.
  - reflexivity.
Qed.

Lemma each_get_dicts (key : string) (default : value) (l : list value) :
  Forall (fun v => truthy v = false \/ exists d, v = VDict d) l ->
  each_get l key default
  = Done (map (fun v =>
                 match v with
                 | VDict ((_ :: _) as d) => dict_get d key default
                 | _ => VNone
                 end) l).
Proof.
  induction 1 as [|v l Hv _ IH]; [reflexivity|].
  cbn [each_get map]. rewrite IH.
  destruct Hv as [Hv|[d ->]].
  - rewrite Hv. cbn [and_then].
    destruct v as [|b|z|s|l'|d]; try reflexivity.
    destruct d; [reflexivity|discriminate].
  - destruct d; reflexivity.
Qed.

End DictQueryFacts.

(** X20. A path goes down through a dict that is not empty: when the
    first key leads to such a dict, [get] of [key/rest] on [self] is
    [get] of [rest] on that dict, with the same default. *)
Theorem DictQuery_get_nested :
  forall (self d : list (string * DictQuery.value)) (key rest : string)
         (default : DictQuery.value),
    contains "/" key = false ->
    DictQuery.dict_get self key default = DictQuery.VDict d ->
    d <> [] ->
    DictQuery.get self (key ++ "/" ++ rest) default
    = DictQuery.get d rest default.
Proof.
  intros self d key rest default Hk Hd Hne.
  rewrite get_path by exact Hk. cbn zeta. rewrite Hd.
  destruct d as [|kv d]; [contradiction|].
  cbn [DictQuery.truthy]. apply loop_dict.
Qed.

Lemma DictQuery_get_nested_witness :
  DictQuery.get
    [("track", DictQuery.VDict [("album", DictQuery.VDict
                                   [("name", DictQuery.VStr "25")])])]%string
    ("track" ++ "/" ++ "album/name") DictQuery.VNone
  = DictQuery.get
      [("album", DictQuery.VDict [("name", DictQuery.VStr "25")])]%string
      "album/name" DictQuery.VNone.
Proof.
  apply (DictQuery_get_nested
           [("track", DictQuery.VDict
                        [("album", DictQuery.VDict
                                     [("name", DictQuery.VStr "25")])])]%string
           [("album", DictQuery.VDict [("name", DictQuery.VStr "25")])]%string
           "track" "album/name" DictQuery.VNone).
  - reflexivity.
  - reflexivity.
  - discriminate.
Defined.

(** X21. The lookup stops at the first value that is false: a path of
    one key is [dict.get], and when the first key of a longer path leads
    to a false value ([None], [False], [0], an empty string, list or
    dict), that value is returned, not the default. *)
Theorem DictQuery_get_stops_at_false :
  forall (self : list (string * DictQuery.value)) (key rest : string)
         (default : DictQuery.value),
    contains "/" key = false ->
    DictQuery.get self key default
    = Done (DictQuery.dict_get self key default)
    /\ (DictQuery.truthy (DictQuery.dict_get self key default) = false ->
        DictQuery.get self (key ++ "/" ++ rest) default
        = Done (DictQuery.dict_get self key default)).
Proof.
  intros self key rest default Hk. split.
  - unfold DictQuery.get. rewrite split_no_sep by exact Hk.
    cbn [DictQuery.loop]. now destruct (DictQuery.truthy _).
  - intros Hf. rewrite get_path by exact Hk. cbn zeta. now rewrite Hf.
Qed.

Lemma DictQuery_get_stops_at_false_witness :
  DictQuery.get [("count", DictQuery.VInt 0)]%string "count"
                (DictQuery.VStr "none")
  = Done (DictQuery.VInt 0)
  /\ (DictQuery.truthy (DictQuery.VInt 0) = false ->
      DictQuery.get [("count", DictQuery.VInt 0)]%string
                    ("count" ++ "/" ++ "total") (DictQuery.VStr "none")
      = Done (DictQuery.VInt 0)).
Proof.
  apply (DictQuery_get_stops_at_false [("count", DictQuery.VInt 0)]%string
           "count" "total" (DictQuery.VStr "none")).
  reflexivity.
Defined.

(** X22. The lookup raises where the path goes on below a true value
    that is neither a dict nor a list: [get] of [key/rest] raises
    [AttributeError] when the first key leads to such a value, be it
    stored in [self] or the default given for a key that is missing. *)
Theorem DictQuery_get_raises_below_scalar :
  forall (self : list (string * DictQuery.value)) (key rest : string)
         (default v : DictQuery.value),
    contains "/" key = false ->
    DictQuery.dict_get self key default = v ->
    DictQuery.truthy v = true ->
    (forall l, v <> DictQuery.VList l) ->
    (forall d, v <> DictQuery.VDict d) ->
    DictQuery.get self (key ++ "/" ++ rest) default = Fails AttributeError.
Proof.
  intros self key rest default v Hk Hv Ht Hl Hd.
  rewrite get_path by exact Hk. cbn zeta. rewrite Hv, Ht.
  destruct (split "/" rest) as [|key' keys] eqn:Hs;
    [now apply split_not_nil in Hs|].
  cbn [DictQuery.loop].
  destruct v as [|b|z|s|l|d]; try reflexivity.
  - now elim (Hl l).
  - now elim (Hd d).
Qed.

Lemma DictQuery_get_raises_below_scalar_witness :
  DictQuery.get [] ("track" ++ "/" ++ "name") (DictQuery.VStr "n/a")
  = Fails AttributeError.
Proof.
  apply (DictQuery_get_raises_below_scalar [] "track" "name"
           (DictQuery.VStr "n/a") (DictQuery.VStr "n/a")).
  - reflexivity.
  - reflexivity.
  - reflexivity.
  - discriminate.
  - discriminate.
Defined.

(** X23. Below a list the lookup reads every item: when the first key
    leads to a list that is not empty, of dicts and of false values,
    [get] of [key/key2] is the list of what [key2] gives in each dict
    that is not empty, and [None] for each other item. *)
Theorem DictQuery_get_maps_over_list :
  forall (self : list (string * DictQuery.value)) (key key2 : string)
         (default : DictQuery.value) (l : list DictQuery.value),
    contains "/" key = false ->
    contains "/" key2 = false ->
    DictQuery.dict_get self key default = DictQuery.VList l ->
    l <> [] ->
    Forall (fun v => DictQuery.truthy v = false
                     \/ exists d, v = DictQuery.VDict d) l ->
    DictQuery.get self (key ++ "/" ++ key2) default
    = Done (DictQuery.VList
              (map (fun v =>
                      match v with
                      | DictQuery.VDict ((_ :: _) as d) =>
                        DictQuery.dict_get d key2 default
                      | _ => DictQuery.VNone
                      end) l)).
Proof.
  intros self key key2 default l Hk Hk2 Hv Hne Hall.
  rewrite get_path by exact Hk. cbn zeta. rewrite Hv.
  destruct l as [|v l]; [contradiction|].
  cbn [DictQuery.truthy]. rewrite split_no_sep by exact Hk2.
  cbn [DictQuery.loop DictQuery.step].
  rewrite each_get_dicts by exact Hall. cbn [and_then map].
  reflexivity.
Qed.

Lemma DictQuery_get_maps_over_list_witness :
  DictQuery.get
    [("artists", DictQuery.VList
                   [DictQuery.VDict [("name", DictQuery.VStr "Adele")];
                    DictQuery.VNone])]%string
    ("artists" ++ "/" ++ "name") DictQuery.VNone
  = Done (DictQuery.VList [DictQuery.VStr "Adele"; DictQuery.VNone]).
Proof.
  apply (DictQuery_get_maps_over_list
           [("artists", DictQuery.VList
                          [DictQuery.VDict [("name", DictQuery.VStr "Adele")];
                           DictQuery.VNone])]%string
           "artists" "name" DictQuery.VNone
           [DictQuery.VDict [("name", DictQuery.VStr "Adele")]%string;
            DictQuery.VNone]).
  - reflexivity.
  - reflexivity.
  - reflexivity.
  - discriminate.
  - apply Forall_cons; [right; eexists; reflexivity|].
    apply Forall_cons; [left; reflexivity|apply Forall_nil].
Defined.
